(** * Hybrid memory search: a shallow embedding of the memory subsystem

    The development follows the TypeScript sources of the memory engine:
    [embeddings.ts] (vector utilities and the hash-based provider), [db.ts]
    ([MemoryDatabase]), [search.ts] ([HybridSearcher]), [capture.ts]
    ([MemoryCapture]), [recall.ts] ([MemoryRecaller]) and [manager.ts]
    ([MemoryManager]).

    Conventions of the embedding.
    - A JavaScript [number] holding a score, a weight or a vector component
      is a real number ([R]).  A store into a slot of a [Float32Array]
      rounds the number to the nearest binary32 value ([fround]); the
      rounding of the arithmetic on IEEE-754 doubles is not modelled, and
      neither are NaN and the infinities.  Counts, limits, timestamps and
      row ids are integers ([Z]).
    - A [string] is a sequence of UTF-16 code units.  The texts of the
      model are those whose code units are at most U+00FF, one [ascii] for
      each code unit, so that [String.length] is the [length] of the
      JavaScript string; [createHash] is given their UTF-8 encoding.
    - A method that can throw returns a [Result]; a method of
      [MemoryDatabase] that reads or writes the store is a state
      transformer over the database object.
    - The SQLite database is its two tables; each SQL statement of [db.ts]
      is written as the list operation it performs.  Two things are left to
      the engine, which is a parameter there: the full-text MATCH statement
      (the FTS4 engine returns the matching rows with their matchinfo) and
      the order [ORDER BY] gives to rows with equal keys.
    - The file at [dbPath] is the database last written to it; file system
      errors are not modelled.
    - What lies outside the repository is a parameter of the code that
      calls it: the classifier call and the JSON parsing of its response in
      [capture.ts], [Number.prototype.toFixed] in [recall.ts], the start
      and stop of the embedding provider in [manager.ts].
    - [createHash] of node:crypto is SHA-256 as FIPS 180-4 defines it.
    - [async] functions are run to completion in program order.  The one
      place of the sources where a promise is started and may never be
      awaited is in [search]; the rejection it can leave unhandled is
      [orphanedRejection].
    - [randomUUID()] and [Date.now()] are inputs of the operation that
      calls them. *)

From Stdlib Require Import Reals Lra Lia ZArith List String Ascii Bool.
From Stdlib Require Import Permutation Sorted.
From Stdlib Require DecimalString.
Import ListNotations.

(* ================================================================== *)
(** * JavaScript primitives used by the sources *)
(* ================================================================== *)

Module JS.

(** Exceptions raised by the modelled code. *)
Inductive JsError : Type :=
| NotOpened                            (* MemoryDatabase not opened *)
| DimensionMismatch (la lb : nat)      (* Vector dimension mismatch: la vs lb *)
| ConstraintFailed                     (* sql.js: UNIQUE constraint failed: memories.id *)
| MatchSyntax                          (* sql.js: malformed MATCH expression *)
| ProviderFailure.                     (* an embedding provider rejecting *)

Inductive Result (A : Type) : Type :=
| Ok (a : A)
| Throw (e : JsError).
Arguments Ok {A} a.
Arguments Throw {A} e.

Definition isOk {A} (r : Result A) : bool :=
  match r with Ok _ => true | Throw _ => false end.

(** ** Comparisons on numbers, as booleans *)

Definition Rgtb (a b : R) : bool := if Rlt_dec b a then true else false.
Definition Rgeb (a b : R) : bool := if Rle_dec b a then true else false.

(** ** Numbers stored in a [Float32Array] *)

(** The integer nearest to [y], the even one of the two when [y] is half
    way between them. *)
Definition roundHalfEven (y : R) : Z :=
  let n := Int_part y in
  let f := (y - IZR n)%R in
  if Rlt_dec f (1 / 2) then n
  else if Rlt_dec (1 / 2) f then (n + 1)%Z
  else if Z.even n then n else (n + 1)%Z.

(** The binary exponent of the binary32 values around [x]: that of [x]
    itself, and -126 for the numbers below [2 ^ -126], where the values are
    evenly spaced.  Neighbouring values are [2 ^ (exponent x - 23)] apart
    (24 bits of significand). *)
Definition exponent (x : R) : Z :=
  Z.max (Int_part (ln (Rabs x) / ln 2)) (-126).

(** [Math.fround(x)], the rounding every store into a [Float32Array]
    performs: the binary32 value nearest to [x], ties to the even
    significand.  (The overflow to an infinity, for numbers of magnitude
    [2 ^ 128] and more, is outside the model.) *)
Definition fround (x : R) : R :=
  if Req_dec_T x 0 then 0%R
  else
    let ulp := powerRZ 2 (exponent x - 23) in
    (IZR (roundHalfEven (x / ulp)) * ulp)%R.

(** ** Arrays *)

(** [arr.slice(0, end)]: a negative [end] counts from the end of the array. *)
Definition slice0 {A} (stop : Z) (arr : list A) : list A :=
  if (stop <? 0)%Z
  then firstn (Z.to_nat (Z.of_nat (List.length arr) + stop)) arr
  else firstn (Z.to_nat stop) arr.

(** [arr.sort((a, b) => key(b) - key(a))]: the sort is stable, so each
    element, taken from the right, is inserted before the first element whose
    key is not larger than its own. *)
Section SortDesc.
Context {A : Type} (key : A -> R).

Fixpoint insertDesc (x : A) (l : list A) : list A :=
  match l with
  | [] => [x]
  | y :: l' => if Rgeb (key x) (key y) then x :: l else y :: insertDesc x l'
  end.

Fixpoint sortDesc (l : list A) : list A :=
  match l with
  | [] => []
  | x :: l' => insertDesc x (sortDesc l')
  end.
End SortDesc.

(** [Math.max(...xs)] of a non-empty array ([-Infinity] of an empty one is
    not needed: the callers test for emptiness first). *)
Fixpoint maxOf (x : R) (xs : list R) : R :=
  match xs with
  | [] => x
  | y :: ys => maxOf (Rmax x y) ys
  end.

(** ** Strings *)

Local Open Scope char_scope.

(** The code units up to U+00FF that [\s] matches and [trim] removes: tab,
    line feed, vertical tab, form feed, carriage return, space and the
    no-break space U+00A0. *)
Definition isWhitespace (c : ascii) : bool :=
  match nat_of_ascii c with
  | 9%nat | 10%nat | 11%nat | 12%nat | 13%nat | 32%nat | 160%nat => true
  | _ => false
  end.

(** [toLowerCase] on one code unit: the capital letters are A to Z and
    U+00C0 to U+00DE without the multiplication sign U+00D7; each is 32
    below its small letter. *)
Definition lowerChar (c : ascii) : ascii :=
  let n := nat_of_ascii c in
  if (((65 <=? n) && (n <=? 90))
      || ((192 <=? n) && (n <=? 222) && negb (n =? 215)))%nat
  then ascii_of_nat (n + 32) else c.

Fixpoint toLowerCase (s : string) : string :=
  match s with
  | EmptyString => EmptyString
  | String c s' => String (lowerChar c) (toLowerCase s')
  end.

Fixpoint trimStart (s : string) : string :=
  match s with
  | EmptyString => EmptyString
  | String c s' => if isWhitespace c then trimStart s' else s
  end.

(** [trimEnd]: a character is kept when it is not whitespace or something
    is kept after it. *)
Fixpoint trimEnd (s : string) : string :=
  match s with
  | EmptyString => EmptyString
  | String c s' =>
      match trimEnd s' with
      | EmptyString => if isWhitespace c then EmptyString else String c EmptyString
      | t => String c t
      end
  end.

Definition trim (s : string) : string := trimEnd (trimStart s).

(** [s.split(/\s+/)]: [cur] is the piece being read, [inGap] tells that the
    previous character was whitespace (the separator matches greedily). *)
Fixpoint splitFrom (cur : string) (inGap : bool) (s : string) : list string :=
  match s with
  | EmptyString => [cur]
  | String c s' =>
      if isWhitespace c
      then if inGap then splitFrom cur true s'
           else cur :: splitFrom EmptyString true s'
      else splitFrom (cur ++ String c EmptyString) false s'
  end.

Definition splitWhitespace (s : string) : list string :=
  splitFrom EmptyString false s.

(** [arr.join(sep)]. *)
Fixpoint join (sep : string) (l : list string) : string :=
  match l with
  | [] => EmptyString
  | [x] => x
  | x :: l' => x ++ sep ++ join sep l'
  end.

(** [s.replace(/c/g, empty)]: every occurrence of [c] is removed. *)
Fixpoint removeChar (c : ascii) (s : string) : string :=
  match s with
  | EmptyString => EmptyString
  | String d s' => if Ascii.eqb c d then removeChar c s' else String d (removeChar c s')
  end.

(** [s.substring(i, i + n)] for [i + n <= s.length]. *)
Definition substring (i n : nat) (s : string) : string := String.substring i n s.

Definition doubleQuote : ascii := ascii_of_nat 34.

(** The UTF-8 encoding of a string: one byte for a code unit below U+0080,
    two bytes for the others. *)
Definition utf8 (s : string) : list Z :=
  flat_map (fun c =>
              let n := Z.of_nat (nat_of_ascii c) in
              if (n <? 128)%Z then [n] else [192 + n / 64; 128 + n mod 64]%Z)
           (list_ascii_of_string s).

End JS.
Export JS.

(* ================================================================== *)
(** * SHA-256, as [createHash] of node:crypto computes it (FIPS 180-4) *)
(* ================================================================== *)

Module SHA256.
Local Open Scope Z_scope.

Definition w32 (x : Z) : Z := x mod 4294967296.
Definition add32 (x y : Z) : Z := w32 (x + y).
Definition rotr (n x : Z) : Z := Z.lor (Z.shiftr x n) (w32 (Z.shiftl x (32 - n))).
Definition not32 (x : Z) : Z := 4294967295 - x.

Definition Ch (x y z : Z) : Z := Z.lxor (Z.land x y) (Z.land (not32 x) z).
Definition Maj (x y z : Z) : Z :=
  Z.lxor (Z.lxor (Z.land x y) (Z.land x z)) (Z.land y z).
Definition bigSigma0 (x : Z) : Z := Z.lxor (Z.lxor (rotr 2 x) (rotr 13 x)) (rotr 22 x).
Definition bigSigma1 (x : Z) : Z := Z.lxor (Z.lxor (rotr 6 x) (rotr 11 x)) (rotr 25 x).
Definition smallSigma0 (x : Z) : Z := Z.lxor (Z.lxor (rotr 7 x) (rotr 18 x)) (Z.shiftr x 3).
Definition smallSigma1 (x : Z) : Z := Z.lxor (Z.lxor (rotr 17 x) (rotr 19 x)) (Z.shiftr x 10).

(** The round constants are the first 32 bits of the fractional parts of
    the cube roots of the first 64 primes, the initial hash value those of
    the square roots of the first 8 primes. *)
Definition isPrime (n : nat) : bool :=
  (1 <? n)%nat && forallb (fun k => negb (n mod k =? 0)%nat) (seq 2 (n - 2)).

Definition primes : list Z := map Z.of_nat (filter isPrime (seq 2 310)).

(** The integer cube root, one bit at a time from bit [i] down. *)
Fixpoint cubeRootFrom (i : nat) (r n : Z) : Z :=
  let b := 2 ^ Z.of_nat i in
  let r' := if (r + b) ^ 3 <=? n then r + b else r in
  match i with
  | O => r'
  | S i' => cubeRootFrom i' r' n
  end.

Definition K : list Z :=
  Eval vm_compute in map (fun p => w32 (cubeRootFrom 36 0 (p * 2 ^ 96))) primes.

Definition initialWords : list Z :=
  Eval vm_compute in map (fun p => w32 (Z.sqrt (p * 2 ^ 64))) (firstn 8 primes).

(** Padding: the byte 0x80, zeros up to 56 modulo 64, the bit length on
    eight bytes, most significant first. *)
Definition beBytes (n : nat) (x : Z) : list Z :=
  map (fun i => (Z.shiftr x (8 * Z.of_nat i)) mod 256) (rev (seq 0 n)).

Definition pad (msg : list Z) : list Z :=
  let len := Z.of_nat (List.length msg) in
  let zeros := Z.to_nat ((55 - len) mod 64) in
  msg ++ [128] ++ repeat 0 zeros ++ beBytes 8 (8 * len).

Fixpoint beWord (bs : list Z) (acc : Z) : Z :=
  match bs with
  | [] => acc
  | b :: bs' => beWord bs' (acc * 256 + b)
  end.

(** The 32-bit words of a byte sequence, four bytes each. *)
Fixpoint wordsOf (fuel : nat) (bs : list Z) : list Z :=
  match fuel with
  | O => []
  | S fuel' =>
      match bs with
      | [] => []
      | _ => beWord (firstn 4 bs) 0 :: wordsOf fuel' (skipn 4 bs)
      end
  end.

(** Message schedule: [w] holds the words computed so far, latest first. *)
Fixpoint schedule (n : nat) (w : list Z) : list Z :=
  match n with
  | O => w
  | S n' =>
      let wt := add32 (add32 (smallSigma1 (nth 1 w 0)) (nth 6 w 0))
                      (add32 (smallSigma0 (nth 14 w 0)) (nth 15 w 0)) in
      schedule n' (wt :: w)
  end.

Record Regs : Type := mkRegs { ra : Z; rb : Z; rc : Z; rd : Z; re : Z; rf : Z; rg : Z; rh : Z }.

Definition round (s : Regs) (kw : Z * Z) : Regs :=
  let t1 := add32 (add32 (add32 (rh s) (bigSigma1 (re s))) (Ch (re s) (rf s) (rg s)))
                  (add32 (fst kw) (snd kw)) in
  let t2 := add32 (bigSigma0 (ra s)) (Maj (ra s) (rb s) (rc s)) in
  mkRegs (add32 t1 t2) (ra s) (rb s) (rc s) (add32 (rd s) t1) (re s) (rf s) (rg s).

Definition compress (h : Regs) (block : list Z) : Regs :=
  let w := rev (schedule 48 (rev block)) in
  let s := fold_left round (combine K w) h in
  mkRegs (add32 (ra h) (ra s)) (add32 (rb h) (rb s)) (add32 (rc h) (rc s)) (add32 (rd h) (rd s))
         (add32 (re h) (re s)) (add32 (rf h) (rf s)) (add32 (rg h) (rg s)) (add32 (rh h) (rh s)).

Fixpoint blocks (fuel : nat) (h : Regs) (ws : list Z) : Regs :=
  match fuel with
  | O => h
  | S fuel' =>
      match ws with
      | [] => h
      | _ => blocks fuel' (compress h (firstn 16 ws)) (skipn 16 ws)
      end
  end.

Definition initial : Regs :=
  let h := fun i => nth i initialWords 0 in
  mkRegs (h 0%nat) (h 1%nat) (h 2%nat) (h 3%nat) (h 4%nat) (h 5%nat) (h 6%nat) (h 7%nat).

(** [createHash(sha256).update(s).digest()]: the 32 bytes of the digest of
    the UTF-8 encoding of [s]. *)
Definition digest (s : string) : list Z :=
  let p := pad (utf8 s) in
  let ws := wordsOf (List.length p) p in
  let h := blocks (List.length ws) initial ws in
  flat_map (beBytes 4) [ra h; rb h; rc h; rd h; re h; rf h; rg h; rh h].

End SHA256.

(** The digest of the three-letter message of FIPS 180-4, in hexadecimal
    ba7816bf 8f01cfea 414140de 5dae2223 b00361a3 96177a9c b410ff61 f20015ad. *)
Example sha256_abc :
  map (fun k => SHA256.beWord (firstn 4 (skipn (4 * k) (SHA256.digest "abc"))) 0)
      (seq 0 8)
  = [0xba7816bf; 0x8f01cfea; 0x414140de; 0x5dae2223;
     0xb00361a3; 0x96177a9c; 0xb410ff61; 0xf20015ad]%Z.
Proof. vm_compute. reflexivity. Qed.

(* ================================================================== *)
(** * embeddings.ts: vector utilities and the hash-based provider *)
(* ================================================================== *)

Module Embeddings.
Local Open Scope R_scope.

Definition Float32Array : Type := list R.

(** The [EmbeddingProvider] interface ([initialize] and [dispose] hold no
    state of interest; [embedBatch] maps [embed]). *)
Record EmbeddingProvider : Type := {
  modelName : string;
  dimensions : nat;
  embed : string -> Result Float32Array
}.

(** The loop of [cosineSimilarity]: [dot += a[i] * b[i]]. *)
Fixpoint dotLoop (dot : R) (a b : Float32Array) : R :=
  match a, b with
  | x :: a', y :: b' => dotLoop (dot + x * y) a' b'
  | _, _ => dot
  end.

Definition cosineSimilarity (a b : Float32Array) : Result R :=
  if (List.length a =? List.length b)%nat
  then Ok (dotLoop 0 a b)
  else Throw (DimensionMismatch (List.length a) (List.length b)).

(** The loop [magnitude += vec[i] * vec[i]]. *)
Definition sumSquares (vec : Float32Array) : R :=
  fold_left (fun magnitude x => magnitude + x * x) vec 0.

(** [vec[i] /= magnitude] stores the quotient in a slot of the array. *)
Definition normalizeVector (vec : Float32Array) : Float32Array :=
  let magnitude := sqrt (sumSquares vec) in
  if Rgtb magnitude 0 then map (fun x => fround (x / magnitude)) vec else vec.

(** ** SimpleHashEmbeddingProvider *)

Definition byteAt (h : list Z) (i : nat) : Z := nth i h 0%Z.

Definition readUInt32LE (h : list Z) (off : nat) : Z :=
  (byteAt h off + 256 * byteAt h (off + 1) + 65536 * byteAt h (off + 2)
   + 16777216 * byteAt h (off + 3))%Z.

Definition readInt32LE (h : list Z) (off : nat) : Z :=
  let u := readUInt32LE h off in
  if (u >=? 2147483648)%Z then (u - 4294967296)%Z else u.

(** [vec[pos] += val]: the sum is rounded as it is stored; a write outside
    a typed array is ignored. *)
Fixpoint addAt (pos : nat) (val : R) (vec : Float32Array) : Float32Array :=
  match vec, pos with
  | [], _ => []
  | x :: vec', O => fround (x + val) :: vec'
  | x :: vec', S pos' => x :: addAt pos' val vec'
  end.

(** The features of a normalized text: its character trigrams, then its
    non-empty words. *)
Definition features (normalized : string) : list string :=
  let trigrams :=
    map (fun i => substring i 3 normalized) (seq 0 (String.length normalized - 2)) in
  let words :=
    filter (fun w => (0 <? String.length w)%nat) (splitWhitespace normalized) in
  trigrams ++ words.

(** The bucket and the value of a feature. *)
Definition bucketOf (dimensions : nat) (feature : string) : nat :=
  Z.to_nat (readUInt32LE (SHA256.digest feature) 0 mod Z.of_nat dimensions).

Definition valueOf (feature : string) : R :=
  IZR (readInt32LE (SHA256.digest feature) 4) / 2147483647 * (1 / 10).

(** One iteration of the feature loop. *)
Definition addFeature (dimensions : nat) (vec : Float32Array) (feature : string)
  : Float32Array :=
  addAt (bucketOf dimensions feature) (valueOf feature) vec.

(** The vector of [hashToVector] before it is normalized: the feature
    buckets plus the global hash component. *)
Definition accumulate (dimensions : nat) (normalized : string) : Float32Array :=
  let vec := fold_left (addFeature dimensions) (features normalized) (repeat 0 dimensions) in
  let globalHash := SHA256.digest normalized in
  map (fun iv : nat * R =>
         fround (snd iv + (IZR (byteAt globalHash (fst iv mod 32)) - 128) / 2560))
      (combine (seq 0 dimensions) vec).

Definition hashToVector (dimensions : nat) (text : string) : Float32Array :=
  let normalized := trim (toLowerCase text) in
  if (String.length normalized =? 0)%nat then repeat 0 dimensions
  else
    let vec := accumulate dimensions normalized in
    let magnitude := sqrt (sumSquares vec) in
    if Rgtb magnitude 0 then map (fun x => fround (x / magnitude)) vec else vec.

Definition SimpleHashEmbeddingProvider (dimensions : nat) : EmbeddingProvider :=
  {| modelName := "simple-hash-v1";
     dimensions := dimensions;
     embed := fun text => Ok (hashToVector dimensions text) |}.

End Embeddings.

(* ================================================================== *)
(** * schema.ts: records and inputs *)
(* ================================================================== *)

Module Schema.
Import Embeddings.

Inductive MemoryCategory : Type :=
| preference | fact | decision | entity | procedure | other.

Inductive SourceType : Type := manual | auto_capture | import.

(** A row of the [memories] table, as [rowToRecord] returns it.  The
    embedding BLOB is kept decoded: [encodeEmbedding] and [decodeEmbedding]
    copy the bytes of the array and are inverse to each other. *)
Record MemoryRecord : Type := {
  id : string;
  category : MemoryCategory;
  content : string;
  embedding : option Float32Array;
  embeddingModel : option string;
  embeddingDims : option Z;
  sourceType : SourceType;
  sourceSession : option string;
  sourceMessageIndex : option Z;
  confidence : R;
  tags : list string;
  createdAt : Z;
  updatedAt : Z;
  lastAccessedAt : Z;
  accessCount : Z
}.

(** [CreateMemoryInput]; an absent optional field is [None]. *)
Record CreateMemoryInput : Type := {
  c_content : string;
  c_category : option MemoryCategory;
  c_embedding : option Float32Array;
  c_embeddingModel : option string;
  c_sourceType : option SourceType;
  c_sourceSession : option string;
  c_sourceMessageIndex : option Z;
  c_confidence : option R;
  c_tags : option (list string)
}.

(** [UpdateMemoryInput]; a field that is [undefined] is [None]. *)
Record UpdateMemoryInput : Type := {
  u_content : option string;
  u_category : option MemoryCategory;
  u_embedding : option Float32Array;
  u_embeddingModel : option string;
  u_confidence : option R;
  u_tags : option (list string)
}.

Inductive MatchType : Type := vector | keyword | hybrid.

Record MemorySearchResult : Type := {
  memory : MemoryRecord;
  score : R;
  matchType : MatchType
}.

Definition orElse {A} (o : option A) (d : A) : A :=
  match o with Some a => a | None => d end.

Definition isSome {A} (o : option A) : bool :=
  match o with Some _ => true | None => false end.

End Schema.

(* ================================================================== *)
(** * db.ts: MemoryDatabase *)
(* ================================================================== *)

Module Db.
Import Embeddings Schema.
Local Open Scope Z_scope.

(** The two tables of the SQLite database: [memories], each row with its
    rowid, in rowid order, and the FTS4 table [memories_fts]. *)
Record SqlJsDatabase : Type := {
  memories : list (Z * MemoryRecord);
  memories_fts : list (Z * string)
}.

(** The fields of the [MemoryDatabase] object, and the file at [dbPath]. *)
Record MemoryDatabase : Type := {
  db : option SqlJsDatabase;
  dirty : bool;
  file : option SqlJsDatabase
}.

(** Methods of [MemoryDatabase]: they may throw, and may change the object. *)
Definition M (A : Type) : Type := MemoryDatabase -> Result (A * MemoryDatabase).

Definition ret {A} (a : A) : M A := fun self => Ok (a, self).

Definition bind {A B} (m : M A) (k : A -> M B) : M B :=
  fun self =>
    match m self with
    | Ok (a, self') => k a self'
    | Throw e => Throw e
    end.

Notation "x <- m ;; k" := (bind m (fun x => k))
  (at level 61, m at next level, right associativity).

Definition requireDb : M SqlJsDatabase :=
  fun self =>
    match db self with
    | Some d => Ok (d, self)
    | None => Throw NotOpened
    end.

(** [this.db] is replaced by the database after a statement ran. *)
Definition setDb (d : SqlJsDatabase) : M unit :=
  fun self => Ok (tt, {| db := Some d; dirty := dirty self; file := file self |}).

Definition setDirty (b : bool) : M unit :=
  fun self => Ok (tt, {| db := db self; dirty := b; file := file self |}).

Definition hasId (i : string) (row : Z * MemoryRecord) : bool :=
  String.eqb (id (snd row)) i.

(** [SELECT ... FROM memories WHERE id = ?]. *)
Definition selectById (d : SqlJsDatabase) (i : string) : list (Z * MemoryRecord) :=
  filter (hasId i) (memories d).

(** The rowid SQLite gives to the next inserted row. *)
Definition nextRowid (d : SqlJsDatabase) : Z :=
  1 + fold_left Z.max (map fst (memories d)) 0.

Definition save : M unit :=
  fun self =>
    match db self with
    | Some d =>
        if dirty self then Ok (tt, {| db := Some d; dirty := false; file := Some d |})
        else Ok (tt, self)
    | None => Ok (tt, self)
    end.

(** ** CREATE *)

Definition createMemory (uuid : string) (now : Z) (input : CreateMemoryInput) : M string :=
  d <- requireDb ;;
  match selectById d uuid with
  | _ :: _ => fun _ => Throw ConstraintFailed
  | [] =>
      let row := {|
        id := uuid;
        category := orElse (c_category input) other;
        content := c_content input;
        embedding := c_embedding input;
        embeddingModel := c_embeddingModel input;
        embeddingDims := option_map (fun e => Z.of_nat (List.length e)) (c_embedding input);
        sourceType := orElse (c_sourceType input) manual;
        sourceSession := c_sourceSession input;
        sourceMessageIndex := c_sourceMessageIndex input;
        confidence := orElse (c_confidence input) 1%R;
        tags := orElse (c_tags input) [];
        createdAt := now;
        updatedAt := now;
        lastAccessedAt := now;
        accessCount := 0 |} in
      let rowid := nextRowid d in
      _ <- setDb {| memories := memories d ++ [(rowid, row)];
                    memories_fts := memories_fts d ++ [(rowid, c_content input)] |} ;;
      _ <- setDirty true ;;
      ret uuid
  end.

(** ** READ *)

(** [UPDATE memories SET last_accessed_at = ?, access_count = access_count + 1]. *)
Definition touch (now : Z) (m : MemoryRecord) : MemoryRecord :=
  {| id := id m; category := category m; content := content m;
     embedding := embedding m; embeddingModel := embeddingModel m;
     embeddingDims := embeddingDims m; sourceType := sourceType m;
     sourceSession := sourceSession m; sourceMessageIndex := sourceMessageIndex m;
     confidence := confidence m; tags := tags m;
     createdAt := createdAt m; updatedAt := updatedAt m;
     lastAccessedAt := now; accessCount := accessCount m + 1 |}.

Definition updateWhereId (i : string) (f : MemoryRecord -> MemoryRecord)
    (rows : list (Z * MemoryRecord)) : list (Z * MemoryRecord) :=
  map (fun row => if hasId i row then (fst row, f (snd row)) else row) rows.

Definition getMemory (now : Z) (i : string) : M (option MemoryRecord) :=
  d <- requireDb ;;
  (* Check existence first *)
  if (Z.of_nat (List.length (selectById d i)) =? 0) then ret None
  else
    (* Update access tracking before reading *)
    let d' := {| memories := updateWhereId i (touch now) (memories d);
                 memories_fts := memories_fts d |} in
    _ <- setDb d' ;;
    _ <- setDirty true ;;
    ret (option_map snd (hd_error (selectById d' i))).

Definition countMemories (cat : option MemoryCategory) : M Z :=
  d <- requireDb ;;
  ret (Z.of_nat (List.length
    (filter (fun row =>
       match cat with
       | None => true
       | Some c =>
           match c, category (snd row) with
           | preference, preference | fact, fact | decision, decision
           | entity, entity | procedure, procedure | other, other => true
           | _, _ => false
           end
       end) (memories d)))).

(** ** UPDATE *)

(** The [sets] list of [updateMemory] is empty. *)
Definition noSets (input : UpdateMemoryInput) : bool :=
  match u_content input, u_category input, u_embedding input,
        u_embeddingModel input, u_confidence input, u_tags input with
  | None, None, None, None, None, None => true
  | _, _, _, _, _, _ => false
  end.

Definition orKeep {A} (new : option A) (old : option A) : option A :=
  match new with Some a => Some a | None => old end.

(** The assignments of [UPDATE memories SET ... , updated_at = ?]. *)
Definition applySets (now : Z) (input : UpdateMemoryInput) (m : MemoryRecord) : MemoryRecord :=
  {| id := id m;
     category := orElse (u_category input) (category m);
     content := orElse (u_content input) (content m);
     embedding := orKeep (u_embedding input) (embedding m);
     embeddingModel := orKeep (u_embeddingModel input) (embeddingModel m);
     embeddingDims :=
       orKeep (option_map (fun e => Z.of_nat (List.length e)) (u_embedding input))
              (embeddingDims m);
     sourceType := sourceType m;
     sourceSession := sourceSession m;
     sourceMessageIndex := sourceMessageIndex m;
     confidence := orElse (u_confidence input) (confidence m);
     tags := orElse (u_tags input) (tags m);
     createdAt := createdAt m;
     updatedAt := now;
     lastAccessedAt := lastAccessedAt m;
     accessCount := accessCount m |}.

Definition deleteFts (rowid : Z) (fts : list (Z * string)) : list (Z * string) :=
  filter (fun e => negb (fst e =? rowid)) fts.

Definition updateMemory (now : Z) (i : string) (input : UpdateMemoryInput) : M bool :=
  d <- requireDb ;;
  if noSets input then ret false
  else
    let rows := updateWhereId i (applySets now input) (memories d) in
    let d1 := {| memories := rows; memories_fts := memories_fts d |} in
    (* Update FTS if content changed *)
    let fts :=
      match u_content input with
      | Some c =>
          match selectById d1 i with
          | (rowid, _) :: _ => deleteFts rowid (memories_fts d) ++ [(rowid, c)]
          | [] => memories_fts d
          end
      | None => memories_fts d
      end in
    _ <- setDb {| memories := rows; memories_fts := fts |} ;;
    _ <- setDirty true ;;
    ret true.

(** ** DELETE *)

Definition deleteMemory (i : string) : M bool :=
  d <- requireDb ;;
  match selectById d i with
  | [] => ret false
  | (rowid, _) :: _ =>
      _ <- setDb {| memories := filter (fun row => negb (hasId i row)) (memories d);
                    memories_fts := deleteFts rowid (memories_fts d) |} ;;
      _ <- setDirty true ;;
      ret true
  end.

(** ** SEARCH *)

(** [info[k]]: [None] stands for [undefined], outside the array. *)
Definition infoAt (info : list Z) (k : Z) : option Z :=
  if k <? 0 then None else nth_error info (Z.to_nat k).

(** [v || d] for a number or [undefined]. *)
Definition orDefault (v : option Z) (d : Z) : Z :=
  match v with
  | Some x => if x =? 0 then d else x
  | None => d
  end.

(** The body of the two loops of [computeBM25Score] for the phrase [i] and
    the column [j]: what is added to [score] (0 on [continue]). *)
Definition phraseScore (info : list Z) (p c n : Z) (i j : Z) : R :=
  let k1 := (12 / 10)%R in
  let b := (75 / 100)%R in
  let baseOffset := 3 + (i * c + j) in
  let avgTokens := orDefault (infoAt info baseOffset) 1 in
  let lOffset := 3 + p * c + (i * c + j) in
  let tokens := orDefault (infoAt info lOffset) 1 in
  let xBaseOffset := 3 + 2 * p * c + (i * c + j) * 3 in
  let hitsInRow := orDefault (infoAt info xBaseOffset) 0 in
  let docsWithHit := orDefault (infoAt info (xBaseOffset + 2)) 0 in
  if (hitsInRow =? 0) || (docsWithHit =? 0) then 0%R
  else
    let idf := ln ((IZR n - IZR docsWithHit + 5 / 10) / (IZR docsWithHit + 5 / 10) + 1) in
    let tf := ((IZR hitsInRow * (k1 + 1))
               / (IZR hitsInRow + k1 * (1 - b + b * (IZR tokens / IZR avgTokens))))%R in
    (idf * tf)%R.

(** [for (let i = 0; i < stop; i++)]: the values of [i]. *)
Definition upTo (stop : Z) : list Z := map Z.of_nat (seq 0 (Z.to_nat stop)).

(** [computeBM25Score] on the 32-bit integers of the matchinfo blob (the
    [DataView] loop that reads them, little-endian, is not repeated here).
    When the blob holds fewer than three integers [c] or [n] is
    [undefined]: the inner loop then does not run, or no term is scored. *)
Definition computeBM25Score (info : list Z) : R :=
  match info with
  | [] => 0%R
  | _ =>
      let p := orElse (infoAt info 0) 0 in
      let c := orElse (infoAt info 1) 0 in
      let n := orElse (infoAt info 2) 0 in
      if (n =? 0) && isSome (infoAt info 2) || (p =? 0) then 0%R
      else
        let score :=
          fold_left
            (fun score i =>
               fold_left (fun score j => (score + phraseScore info p c n i j)%R)
                         (upTo c) score)
            (upTo p) 0%R in
        (* Normalize to 0-1 range (approximate) *)
        Rmin 1 (score / (IZR p * 5))
  end.

(** The statement [SELECT m.id, matchinfo(memories_fts, 'pcnalx') ... WHERE
    memories_fts MATCH ? LIMIT ?] as sql.js runs it: the rows, each with
    the integers of its matchinfo, or [Throw] when the statement is
    rejected.  The FTS4 engine is outside the repository: it is a
    parameter of [keywordSearch]. *)
Definition MatchEngine : Type :=
  SqlJsDatabase -> string -> Z -> Result (list (string * list Z)).

Section KeywordSearch.

Variable execMatch : MatchEngine.

(** Tokenize and build the FTS4 match expression. *)
Definition matchExpression (query : string) : string :=
  join " "
    (map (fun t => String doubleQuote (removeChar doubleQuote t ++ String doubleQuote EmptyString))
       (filter (fun t => (1 <? String.length t)%nat)
          (splitWhitespace (toLowerCase query)))).

Definition keywordSearch (query : string) (limit : Z) : M (list (string * R)) :=
  d <- requireDb ;;
  let tokens := matchExpression query in
  if (String.length tokens =? 0)%nat then ret []
  else
    match execMatch d tokens limit with
    | Ok rows => ret (map (fun row => (fst row, computeBM25Score (snd row))) rows)
    | Throw _ => ret []   (* FTS match syntax errors: return empty *)
    end.

End KeywordSearch.

Definition getAllEmbeddings : M (list (string * Float32Array)) :=
  d <- requireDb ;;
  ret (flat_map (fun row =>
         match embedding (snd row) with
         | Some e => [(id (snd row), e)]
         | None => []
         end) (memories d)).

Definition getMemoriesByIds (ids : list string) : M (list MemoryRecord) :=
  match ids with
  | [] => ret []
  | _ =>
      d <- requireDb ;;
      ret (map snd (filter (fun row => existsb (String.eqb (id (snd row))) ids) (memories d)))
  end.

(** ** Lifecycle *)

(** A database created by [new SQL.Database()] once the DDL has run. *)
Definition emptyDatabase : SqlJsDatabase := {| memories := []; memories_fts := [] |}.

(** [open]: the file at [dbPath] is loaded when it exists (it is read as
    the database it holds), a new database is created otherwise; the DDL
    statements create what is missing and leave rows alone; then
    [this.dirty = true; this.save()]. *)
Definition open : M unit :=
  fun self =>
    let d := match file self with Some f => f | None => emptyDatabase end in
    save {| db := Some d; dirty := true; file := file self |}.

(** [close]: saves pending changes, then drops the connection. *)
Definition close : M unit :=
  fun self =>
    match db self with
    | Some _ =>
        match save self with
        | Ok (_, self') => Ok (tt, {| db := None; dirty := dirty self'; file := file self' |})
        | Throw e => Throw e
        end
    | None => Ok (tt, self)
    end.

Definition isOpen : M bool :=
  fun self => Ok (isSome (db self), self).

(** ** Bulk delete and maintenance *)

Definition inSession (sessionId : string) (row : Z * MemoryRecord) : bool :=
  match sourceSession (snd row) with
  | Some s => String.eqb s sessionId
  | None => false
  end.

Definition deleteBySession (sessionId : string) : M Z :=
  d <- requireDb ;;
  (* Get all rowids for FTS cleanup *)
  let rowids := map fst (filter (inSession sessionId) (memories d)) in
  let fts := fold_left (fun f rowid => deleteFts rowid f) rowids (memories_fts d) in
  _ <- setDb {| memories := memories d; memories_fts := fts |} ;;
  countBefore <- countMemories None ;;
  _ <- setDb {| memories := filter (fun row => negb (inSession sessionId row)) (memories d);
                memories_fts := fts |} ;;
  countAfter <- countMemories None ;;
  _ <- setDirty true ;;
  ret (countBefore - countAfter).

Definition rebuildFtsIndex : M unit :=
  d <- requireDb ;;
  _ <- setDb {| memories := memories d;
                memories_fts := map (fun row => (fst row, content (snd row))) (memories d) |} ;;
  setDirty true.


(** [WHERE category = ?] when a category is given. *)
Definition countedIn (cat : option MemoryCategory) (row : Z * MemoryRecord) : bool :=
  match cat with
  | None => true
  | Some c =>
      match c, category (snd row) with
      | preference, preference | fact, fact | decision, decision
      | entity, entity | procedure, procedure | other, other => true
      | _, _ => false
      end
  end.

(** ** LIST *)

Module OrderBy.
Inductive t : Type := created_at | updated_at | last_accessed_at | confidence.
End OrderBy.

Inductive Order : Type := ASC | DESC.

(** The options of [listMemories]; a field left out is [None]. *)
Record ListOptions : Type := {
  l_category : option MemoryCategory;
  l_sourceSession : option string;
  l_limit : option Z;
  l_offset : option Z;
  l_orderBy : option OrderBy.t;
  l_order : option Order
}.

(** The value of the [ORDER BY] column (the three times are integers). *)
Definition orderKey (column : OrderBy.t) (m : MemoryRecord) : R :=
  match column with
  | OrderBy.created_at => IZR (createdAt m)
  | OrderBy.updated_at => IZR (updatedAt m)
  | OrderBy.last_accessed_at => IZR (lastAccessedAt m)
  | OrderBy.confidence => confidence m
  end.

(** [LIMIT ? OFFSET ?]: a negative limit is no limit, a negative offset
    is none. *)
Definition limitOffset {A} (limit offset : Z) (rows : list A) : list A :=
  let rest := skipn (Z.to_nat offset) rows in
  if limit <? 0 then rest else firstn (Z.to_nat limit) rest.

(** [ORDER BY column order] as SQLite runs it: how rows with equal keys
    are ordered is up to the engine, which is a parameter of
    [listMemories]. *)
Definition RowOrder : Type :=
  OrderBy.t -> Order -> list (Z * MemoryRecord) -> list (Z * MemoryRecord).

Section ListMemories.
Variable orderRows : RowOrder.

(** The [WHERE] clause: the conditions pushed for truthy options. *)
Definition listed (opts : ListOptions) (row : Z * MemoryRecord) : bool :=
  countedIn (l_category opts) row
  && match l_sourceSession opts with
     | Some s => if (String.length s =? 0)%nat then true else inSession s row
     | None => true
     end.

Definition listMemories (opts : ListOptions) : M (list MemoryRecord) :=
  d <- requireDb ;;
  let orderBy := orElse (l_orderBy opts) OrderBy.updated_at in
  let order := orElse (l_order opts) DESC in
  let limit := orElse (l_limit opts) 100 in
  let offset := orElse (l_offset opts) 0 in
  ret (map snd
         (limitOffset limit offset
            (orderRows orderBy order (filter (listed opts) (memories d))))).
End ListMemories.

(** ** STATS *)


Section GetStats.
(** The length of [db.export()]. *)
Variable exportedLength : SqlJsDatabase -> Z.

End GetStats.

End Db.

(* ================================================================== *)
(** * search.ts: HybridSearcher *)
(* ================================================================== *)

Module Search.
Import Embeddings Schema Db.
Local Open Scope R_scope.

(** [Required<SearchOptions>]. *)
Module Opt.
Record SearchOptions : Type := {
  maxResults : Z;
  minScore : R;
  vectorSearch : bool;
  keywordSearch : bool;
  vectorWeight : R;
  keywordWeight : R;
  category : string;
  candidateMultiplier : Z
}.
End Opt.

(** [SearchOptions] as a caller passes it: every field is optional. *)
Record PartialOptions : Type := {
  p_maxResults : option Z;
  p_minScore : option R;
  p_vectorSearch : option bool;
  p_keywordSearch : option bool;
  p_vectorWeight : option R;
  p_keywordWeight : option R;
  p_category : option string;
  p_candidateMultiplier : option Z
}.

Definition DEFAULT_OPTIONS : Opt.SearchOptions :=
  {| Opt.maxResults := 6;
     Opt.minScore := 3 / 10;
     Opt.vectorSearch := true;
     Opt.keywordSearch := true;
     Opt.vectorWeight := 7 / 10;
     Opt.keywordWeight := 3 / 10;
     Opt.category := EmptyString;
     Opt.candidateMultiplier := 4 |}.

Definition noOptions : PartialOptions :=
  {| p_maxResults := None; p_minScore := None; p_vectorSearch := None;
     p_keywordSearch := None; p_vectorWeight := None; p_keywordWeight := None;
     p_category := None; p_candidateMultiplier := None |}.

(** [{ ...DEFAULT_OPTIONS, ...opts }]. *)
Definition withDefaults (opts : PartialOptions) : Opt.SearchOptions :=
  {| Opt.maxResults := orElse (p_maxResults opts) (Opt.maxResults DEFAULT_OPTIONS);
     Opt.minScore := orElse (p_minScore opts) (Opt.minScore DEFAULT_OPTIONS);
     Opt.vectorSearch := orElse (p_vectorSearch opts) (Opt.vectorSearch DEFAULT_OPTIONS);
     Opt.keywordSearch := orElse (p_keywordSearch opts) (Opt.keywordSearch DEFAULT_OPTIONS);
     Opt.vectorWeight := orElse (p_vectorWeight opts) (Opt.vectorWeight DEFAULT_OPTIONS);
     Opt.keywordWeight := orElse (p_keywordWeight opts) (Opt.keywordWeight DEFAULT_OPTIONS);
     Opt.category := orElse (p_category opts) (Opt.category DEFAULT_OPTIONS);
     Opt.candidateMultiplier :=
       orElse (p_candidateMultiplier opts) (Opt.candidateMultiplier DEFAULT_OPTIONS) |}.

(** The objects [{ id, score, matchType }] of the intermediate arrays. *)
Record Candidate : Type := {
  cand_id : string;
  cand_score : R;
  cand_matchType : MatchType
}.

(** The body of the [map] callback of [vectorSearch]. *)
Definition scoreEmbedding (queryVec : Float32Array) (e : string * Float32Array) : Candidate :=
  match cosineSimilarity queryVec (snd e) with
  | Ok sim =>
      (* Convert from [-1, 1] to [0, 1] range *)
      {| cand_id := fst e; cand_score := (sim + 1) / 2; cand_matchType := vector |}
  | Throw _ =>
      {| cand_id := fst e; cand_score := 0; cand_matchType := vector |}
  end.

Definition vectorSearch (embedder : EmbeddingProvider) (query : string) (limit : Z)
  : M (list Candidate) :=
  match embed embedder query with
  | Throw _ => ret []   (* If embedding fails, skip vector search *)
  | Ok queryVec =>
      allEmbeddings <- getAllEmbeddings ;;
      match allEmbeddings with
      | [] => ret []
      | _ =>
          let scored :=
            filter (fun r => Rgtb (cand_score r) 0)
                   (map (scoreEmbedding queryVec) allEmbeddings) in
          ret (slice0 limit (sortDesc cand_score scored))
      end
  end.

(** The part of [keywordSearchInternal] after the database call. *)
Definition normalizeKeyword (rawResults : list (string * R)) : list Candidate :=
  match rawResults with
  | [] => []
  | r0 :: rest =>
      let maxScore := maxOf (snd r0) (map snd rest) in
      let normalizer := if Rgtb maxScore 0 then maxScore else 1 in
      map (fun r => {| cand_id := fst r;
                       cand_score := snd r / normalizer;
                       cand_matchType := keyword |}) rawResults
  end.

Section Keyword.
Variable execMatch : MatchEngine.

Definition keywordSearchInternal (query : string) (limit : Z) : M (list Candidate) :=
  rawResults <- Db.keywordSearch execMatch query limit ;;
  ret (normalizeKeyword rawResults).
End Keyword.

(** ** mergeResults *)

(** The [Map] [byId]: keys in insertion order, a [set] on a present key
    keeps its place. *)
Definition ScoreMap : Type := list (string * (R * R)).

Fixpoint mapGet (k : string) (m : ScoreMap) : option (R * R) :=
  match m with
  | [] => None
  | (k', v) :: m' => if String.eqb k' k then Some v else mapGet k m'
  end.

Fixpoint mapSet (k : string) (v : R * R) (m : ScoreMap) : ScoreMap :=
  match m with
  | [] => [(k, v)]
  | (k', v') :: m' => if String.eqb k' k then (k', v) :: m' else (k', v') :: mapSet k v m'
  end.

(** Add vector results. *)
Definition addVector (byId : ScoreMap) (r : Candidate) : ScoreMap :=
  mapSet (cand_id r) (cand_score r, 0) byId.

(** Merge keyword results. *)
Definition addKeyword (byId : ScoreMap) (r : Candidate) : ScoreMap :=
  match mapGet (cand_id r) byId with
  | Some existing => mapSet (cand_id r) (fst existing, cand_score r) byId
  | None => mapSet (cand_id r) (0, cand_score r) byId
  end.

(** Compute final scores: one iteration of the loop over [byId]. *)
Definition finalize (options : Opt.SearchOptions) (entry : string * (R * R)) : Candidate :=
  let vectorScore := fst (snd entry) in
  let keywordScore := snd (snd entry) in
  let finalScore :=
    Opt.vectorWeight options * vectorScore + Opt.keywordWeight options * keywordScore in
  let matchType :=
    if Rgtb vectorScore 0 && Rgtb keywordScore 0 then hybrid
    else if Rgtb vectorScore 0 then vector
    else keyword in
  {| cand_id := fst entry; cand_score := finalScore; cand_matchType := matchType |}.

Definition mergeResults (vectorResults keywordResults : list Candidate)
    (options : Opt.SearchOptions) : list Candidate :=
  let byId := fold_left addKeyword keywordResults (fold_left addVector vectorResults []) in
  sortDesc cand_score (map (finalize options) byId).

(** ** search *)

(** [new Map(memories.map((m) => [m.id, m]))] and its [get]: a later entry
    replaces an earlier one with the same key. *)
Definition memoryMapGet (memories : list MemoryRecord) (k : string) : option MemoryRecord :=
  find (fun m => String.eqb (id m) k) (rev memories).

Section Searcher.
Variable embedder : EmbeddingProvider.
Variable execMatch : MatchEngine.

Definition search (query : string) (opts : PartialOptions) : M (list MemorySearchResult) :=
  let options := withDefaults opts in
  let candidateLimit := (Opt.maxResults options * Opt.candidateMultiplier options)%Z in
  vectorResults <-
    (if Opt.vectorSearch options then vectorSearch embedder query candidateLimit else ret []) ;;
  keywordResults <-
    (if Opt.keywordSearch options then keywordSearchInternal execMatch query candidateLimit
     else ret []) ;;
  (* Merge results *)
  let merged := mergeResults vectorResults keywordResults options in
  (* Fetch full memory records for top results *)
  let topIds :=
    map cand_id
        (slice0 (Opt.maxResults options)
                (filter (fun r => Rgeb (cand_score r) (Opt.minScore options)) merged)) in
  match topIds with
  | [] => ret []
  | _ =>
      memories <- getMemoriesByIds topIds ;;
      ret (flat_map
             (fun r =>
                match memoryMapGet memories (cand_id r) with
                | Some m => [ {| memory := m; score := cand_score r;
                                 matchType := cand_matchType r |} ]
                | None => []
                end)
             (slice0 (Opt.maxResults options)
                (filter (fun r => Rgeb (cand_score r) (Opt.minScore options)
                                  && isSome (memoryMapGet memories (cand_id r)))
                        merged)))
  end.

(** [search] starts [vectorSearch] while it builds the array it gives to
    [Promise.all], and then calls [keywordSearchInternal], which is not
    [async]: when that call throws, the array is never built, [search]
    rejects with the exception, and nothing awaits the promise of
    [vectorSearch].  [orphanedRejection] is what that promise rejects with,
    if it does: a rejection no handler ever sees, at which node terminates
    the process unless the host has installed a handler of its own.  (The
    database is the one [search] was called on: no method is called on it
    in between.) *)
Definition orphanedRejection (query : string) (opts : PartialOptions)
    (self : MemoryDatabase) : option JsError :=
  let options := withDefaults opts in
  let candidateLimit := (Opt.maxResults options * Opt.candidateMultiplier options)%Z in
  if Opt.vectorSearch options && Opt.keywordSearch options then
    match keywordSearchInternal execMatch query candidateLimit self with
    | Ok _ => None
    | Throw _ =>
        match vectorSearch embedder query candidateLimit self with
        | Ok _ => None
        | Throw e => Some e
        end
    end
  else None.
End Searcher.

End Search.

(* ================================================================== *)
(** * capture.ts: MemoryCapture *)
(* ================================================================== *)

Module Capture.
Import Embeddings Schema Db.
Local Open Scope R_scope.

Record ExtractedMemory : Type := {
  e_content : string;
  e_category : MemoryCategory;
  e_confidence : R;
  e_tags : list string
}.

Record CaptureConfig : Type := {
  enabled : bool;
  deduplicationThreshold : R;
  minConfidence : R;
  maxPerTurn : Z;
  categories : list MemoryCategory
}.

Definition DEFAULT_CAPTURE_CONFIG : CaptureConfig :=
  {| enabled := true;
     deduplicationThreshold := 90 / 100;
     minConfidence := 6 / 10;
     maxPerTurn := 5;
     categories := [preference; fact; decision; entity; procedure; other] |}.

(** The duplicate check of [storeWithDeduplication]: the loop over
    [allEmbeddings], [true] when it leaves through [return null]. *)
Fixpoint duplicateFound (threshold : R) (embedding : Float32Array)
    (allEmbeddings : list (string * Float32Array)) : bool :=
  match allEmbeddings with
  | [] => false
  | existing :: rest =>
      match cosineSimilarity embedding (snd existing) with
      | Ok similarity =>
          let normalizedSim := (similarity + 1) / 2 in
          if Rgeb normalizedSim threshold then true
          else duplicateFound threshold embedding rest
      | Throw _ =>
          (* Dimension mismatch: skip this comparison *)
          duplicateFound threshold embedding rest
      end
  end.

Section MemoryCapture.
Variable embedder : EmbeddingProvider.
Variable config : CaptureConfig.

Definition storeWithDeduplication (uuid : string) (now : Z)
    (memory : ExtractedMemory) (sessionId : string) : M (option string) :=
  match embed embedder (e_content memory) with
  | Throw _ =>
      (* Store without embedding if embedding fails *)
      i <- createMemory uuid now
             {| c_content := e_content memory;
                c_category := Some (e_category memory);
                c_embedding := None;
                c_embeddingModel := None;
                c_sourceType := Some auto_capture;
                c_sourceSession := Some sessionId;
                c_sourceMessageIndex := None;
                c_confidence := Some (e_confidence memory);
                c_tags := Some (e_tags memory) |} ;;
      ret (Some i)
  | Ok embedding =>
      allEmbeddings <- getAllEmbeddings ;;
      if duplicateFound (deduplicationThreshold config) embedding allEmbeddings
      then ret None
      else
        i <- createMemory uuid now
               {| c_content := e_content memory;
                  c_category := Some (e_category memory);
                  c_embedding := Some embedding;
                  c_embeddingModel := Some (modelName embedder);
                  c_sourceType := Some auto_capture;
                  c_sourceSession := Some sessionId;
                  c_sourceMessageIndex := None;
                  c_confidence := Some (e_confidence memory);
                  c_tags := Some (e_tags memory) |} ;;
        ret (Some i)
  end.
End MemoryCapture.

(** ** captureFromConversation *)

Definition newline : string := String (ascii_of_nat 10) EmptyString.

(** [config.categories.includes(m.category)]. *)
Definition categoryEqb (a b : MemoryCategory) : bool :=
  match a, b with
  | preference, preference | fact, fact | decision, decision
  | entity, entity | procedure, procedure | other, other => true
  | _, _ => false
  end.

Definition includes (categories : list MemoryCategory) (c : MemoryCategory) : bool :=
  existsb (categoryEqb c) categories.

(** [if (id) storedIds.push(id)]: [null] and the empty string are falsy. *)
Definition pushId (storedIds : list string) (i : option string) : list string :=
  match i with
  | Some s => if (String.length s =? 0)%nat then storedIds else storedIds ++ [s]
  | None => storedIds
  end.

Section Conversation.
Variable embedder : EmbeddingProvider.
Variable config : CaptureConfig.

(** The constant [MEMORY_EXTRACTION_PROMPT]: its text plays no part below. *)
Variable MEMORY_EXTRACTION_PROMPT : string.

(** [parseExtractionResponse] rests on a regular expression and on
    [JSON.parse]: it is taken as a function from the response to the
    memories it yields (it catches its own exceptions). *)
Variable parseExtractionResponse : string -> list ExtractedMemory.

(** [extractFn]: the call to the classifier, which may reject. *)
Variable extractFn : string -> Result string.

(** [randomUUID()] and [Date.now()] of the [createMemory] call made for
    the [k]-th filtered memory. *)
Variable uuid : nat -> string.
Variable now : nat -> Z.

(** Filter by confidence and category. *)
Definition filterExtracted (extracted : list ExtractedMemory) : list ExtractedMemory :=
  slice0 (maxPerTurn config)
    (filter (fun m => includes (categories config) (e_category m))
       (filter (fun m => Rgeb (e_confidence m) (minConfidence config)) extracted)).

(** Store with deduplication: the loop over [filtered], from its [k]-th
    element on. *)
Fixpoint storeAll (sessionId : string) (k : nat) (filtered : list ExtractedMemory)
    (storedIds : list string) : M (list string) :=
  match filtered with
  | [] => ret storedIds
  | memory :: rest =>
      i <- storeWithDeduplication embedder config (uuid k) (now k) memory sessionId ;;
      storeAll sessionId (S k) rest (pushId storedIds i)
  end.

Definition captureFromConversation (userMessage assistantMessage sessionId : string)
  : M (list string) :=
  if negb (enabled config) then ret []
  else
    (* Build extraction prompt *)
    let conversationText :=
      ("USER: " ++ userMessage ++ newline ++ newline ++ "ASSISTANT: " ++ assistantMessage)%string in
    let fullPrompt :=
      (MEMORY_EXTRACTION_PROMPT ++ newline ++ newline ++ "---" ++ newline ++ newline
       ++ "Conversation:" ++ newline ++ conversationText)%string in
    match extractFn fullPrompt with
    | Throw _ => ret []
    | Ok rawResponse =>
        (* Parse extracted memories *)
        let extracted := parseExtractionResponse rawResponse in
        match extracted with
        | [] => ret []
        | _ => storeAll sessionId 0 (filterExtracted extracted) []
        end
    end.
End Conversation.

End Capture.

(* ================================================================== *)
(** * recall.ts: MemoryRecaller *)
(* ================================================================== *)

Module Recall.
Import Embeddings Schema Db Search.
Local Open Scope R_scope.

Module Cfg.
Record RecallConfig : Type := {
  enabled : bool;
  maxRecall : Z;
  minScore : R;
  vectorWeight : R;
  keywordWeight : R
}.
End Cfg.

Definition DEFAULT_RECALL_CONFIG : Cfg.RecallConfig :=
  {| Cfg.enabled := true;
     Cfg.maxRecall := 5;
     Cfg.minScore := 3 / 10;
     Cfg.vectorWeight := 7 / 10;
     Cfg.keywordWeight := 3 / 10 |}.

Definition newline : string := String (ascii_of_nat 10) EmptyString.

(** [`"${s}"`]. *)
Definition quoted (s : string) : string :=
  String doubleQuote (s ++ String doubleQuote EmptyString).

(** [String(n)] for an array index or length. *)
Definition decimal (n : nat) : string := DecimalString.NilEmpty.string_of_uint (Nat.to_uint n).

Definition categoryName (c : MemoryCategory) : string :=
  match c with
  | preference => "preference" | fact => "fact" | decision => "decision"
  | entity => "entity" | procedure => "procedure" | other => "other"
  end.

Definition matchTypeName (t : MatchType) : string :=
  match t with vector => "vector" | keyword => "keyword" | hybrid => "hybrid" end.

Section MemoryRecaller.
Variable embedder : EmbeddingProvider.
Variable execMatch : MatchEngine.
Variable config : Cfg.RecallConfig.

(** [Number.prototype.toFixed]: the decimal rendering of a JavaScript
    number is not modelled. *)
Variable toFixed : nat -> R -> string.

(** The callback of [memories.map] in [formatContextBlock]. *)
Definition memoryLine (result : MemorySearchResult) (i : nat) : string :=
  let tagsAttr :=
    match tags (memory result) with
    | [] => EmptyString
    | _ => (" tags=" ++ quoted (join ", " (tags (memory result))))%string
    end in
  let openingTag :=
    ("  <memory index=" ++ quoted (decimal (i + 1))
     ++ " category=" ++ quoted (categoryName (category (memory result))) ++ " "
     ++ "confidence=" ++ quoted (toFixed 2 (confidence (memory result))) ++ " "
     ++ "relevance=" ++ quoted (toFixed 3 (score result))
     ++ " match=" ++ quoted (matchTypeName (matchType result)) ++ tagsAttr ++ ">")%string in
  (openingTag ++ newline
   ++ "    " ++ content (memory result) ++ newline
   ++ "  </memory>")%string.

Definition formatContextBlock (memories : list MemorySearchResult) : string :=
  match memories with
  | [] => EmptyString
  | _ =>
      let memoryLines :=
        map (fun ri => memoryLine (fst ri) (snd ri))
            (combine memories (seq 0 (List.length memories))) in
      ("<relevant-memories count=" ++ quoted (decimal (List.length memories)) ++ ">" ++ newline
       ++ join newline memoryLines ++ newline
       ++ "</relevant-memories>")%string
  end.

(** What a call of [recall] comes to: [outcome] is what the promise it
    returns settles with, [unhandled] the rejection, if any, of a promise
    that was started on the way and that nothing awaits (see
    [orphanedRejection]). *)
Record Settled : Type := {
  outcome : Result ((list MemorySearchResult * string) * MemoryDatabase);
  unhandled : option JsError
}.

Definition recall (userMessage : string) (self : MemoryDatabase) : Settled :=
  if negb (Cfg.enabled config)
  then {| outcome := Ok (([], EmptyString), self); unhandled := None |}
  else
    let searchOptions :=
      {| p_maxResults := Some (Cfg.maxRecall config);
         p_minScore := Some (Cfg.minScore config);
         p_vectorWeight := Some (Cfg.vectorWeight config);
         p_keywordWeight := Some (Cfg.keywordWeight config);
         p_vectorSearch := Some true;
         p_keywordSearch := Some true;
         p_category := None;
         p_candidateMultiplier := None |} in
    {| outcome :=
         match search embedder execMatch userMessage searchOptions self with
         | Throw _ => Ok (([], EmptyString), self)
         | Ok (memories, self') =>
             match memories with
             | [] => Ok (([], EmptyString), self')
             | _ => Ok ((memories, formatContextBlock memories), self')
             end
         end;
       unhandled := orphanedRejection embedder execMatch userMessage searchOptions self |}.
End MemoryRecaller.

End Recall.

(* ================================================================== *)
(** * manager.ts: MemoryManager *)
(* ================================================================== *)

Module Manager.
Import Embeddings Schema Db Search.
Local Open Scope Z_scope.

(** What a method of the manager throws: its own error, or one that comes
    from the database or from the embedding provider. *)
Inductive ManagerError : Type :=
| NotInitialized
| Failed (e : JsError).

(** The fields [db] and [initialized] of the [MemoryManager] object. *)
Record MemoryManager : Type := {
  this_db : MemoryDatabase;
  initialized : bool
}.

Inductive Outcome (A : Type) : Type :=
| Return (a : A)
| Raise (e : ManagerError).
Arguments Return {A} a.
Arguments Raise {A} e.

(** Methods of the manager: the object is also there after a throw. *)
Definition MM (A : Type) : Type := MemoryManager -> Outcome A * MemoryManager.

Definition retM {A} (a : A) : MM A := fun mgr => (Return a, mgr).

Definition bindM {A B} (m : MM A) (k : A -> MM B) : MM B :=
  fun mgr =>
    match m mgr with
    | (Return a, mgr') => k a mgr'
    | (Raise e, mgr') => (Raise e, mgr')
    end.

Notation "x <-- m ;; k" := (bindM m (fun x => k))
  (at level 61, m at next level, right associativity).

(** A call of a method of [this.db]: the methods used here throw before
    they change the database. *)
Definition onDb {A} (m : M A) : MM A :=
  fun mgr =>
    match m (this_db mgr) with
    | Ok (a, d) => (Return a, {| this_db := d; initialized := initialized mgr |})
    | Throw e => (Raise (Failed e), mgr)
    end.

Definition setInitialized (b : bool) : MM unit :=
  fun mgr => (Return tt, {| this_db := this_db mgr; initialized := b |}).

Definition requireInitialized : MM unit :=
  fun mgr => if initialized mgr then (Return tt, mgr) else (Raise NotInitialized, mgr).

Definition isInitialized : MM bool :=
  fun mgr => (Return (initialized mgr), mgr).

Section MemoryManager.
Variable embedder : EmbeddingProvider.
Variable execMatch : MatchEngine.

(** The outcomes of [embedder.initialize()] and [embedder.dispose()]. *)
Variable embedderInitialize : Result unit.
Variable embedderDispose : Result unit.

Definition await (r : Result unit) : MM unit :=
  fun mgr =>
    match r with
    | Ok _ => (Return tt, mgr)
    | Throw e => (Raise (Failed e), mgr)
    end.

Definition initialize : MM unit :=
  fun mgr =>
    if initialized mgr then (Return tt, mgr)
    else
      (_ <-- onDb Db.open ;;
       _ <-- await embedderInitialize ;;
       setInitialized true) mgr.

Definition shutdown : MM unit :=
  fun mgr =>
    if negb (initialized mgr) then (Return tt, mgr)
    else
      (_ <-- onDb Db.close ;;
       _ <-- await embedderDispose ;;
       setInitialized false) mgr.

(** [{ ...input, embedding, embeddingModel }]. *)
Definition withEmbedding (input : CreateMemoryInput) (e : Float32Array) (model : string)
  : CreateMemoryInput :=
  {| c_content := c_content input;
     c_category := c_category input;
     c_embedding := Some e;
     c_embeddingModel := Some model;
     c_sourceType := c_sourceType input;
     c_sourceSession := c_sourceSession input;
     c_sourceMessageIndex := c_sourceMessageIndex input;
     c_confidence := c_confidence input;
     c_tags := c_tags input |}.

Definition store (uuid : string) (now : Z) (input : CreateMemoryInput) : MM string :=
  _ <-- requireInitialized ;;
  (* Auto-generate embedding if not provided *)
  let input :=
    match c_embedding input with
    | Some _ => input
    | None =>
        match embed embedder (c_content input) with
        | Ok embedding => withEmbedding input embedding (modelName embedder)
        | Throw _ => input   (* Store without embedding *)
        end
    end in
  i <-- onDb (createMemory uuid now input) ;;
  _ <-- onDb save ;;
  retM i.

Definition get (now : Z) (i : string) : MM (option MemoryRecord) :=
  _ <-- requireInitialized ;;
  onDb (getMemory now i).

(** [input.content] is truthy. *)
Definition truthy (s : option string) : bool :=
  match s with
  | Some s => negb (String.length s =? 0)%nat
  | None => false
  end.

Definition update (now : Z) (i : string) (input : UpdateMemoryInput) : MM bool :=
  _ <-- requireInitialized ;;
  (* Re-generate embedding if content changed *)
  let input :=
    if truthy (u_content input) && negb (isSome (u_embedding input)) then
      match embed embedder (orElse (u_content input) EmptyString) with
      | Ok embedding =>
          {| u_content := u_content input;
             u_category := u_category input;
             u_embedding := Some embedding;
             u_embeddingModel := Some (modelName embedder);
             u_confidence := u_confidence input;
             u_tags := u_tags input |}
      | Throw _ => input   (* Update without new embedding *)
      end
    else input in
  result <-- onDb (updateMemory now i input) ;;
  _ <-- (if result then onDb save else retM tt) ;;
  retM result.

Definition delete (i : string) : MM bool :=
  _ <-- requireInitialized ;;
  result <-- onDb (deleteMemory i) ;;
  _ <-- (if result then onDb save else retM tt) ;;
  retM result.

Definition count (cat : option MemoryCategory) : MM Z :=
  _ <-- requireInitialized ;;
  onDb (countMemories cat).

Definition search (query : string) (opts : PartialOptions) : MM (list MemorySearchResult) :=
  _ <-- requireInitialized ;;
  onDb (Search.search embedder execMatch query opts).

Definition rebuildIndex : MM unit :=
  _ <-- requireInitialized ;;
  _ <-- onDb rebuildFtsIndex ;;
  onDb save.

End MemoryManager.

End Manager.

(* ================================================================== *)
(** * Properties of the primitives *)
(* ================================================================== *)

Import Embeddings Schema Db Search Capture.
Local Open Scope R_scope.

Lemma Rgtb_true_iff (a b : R) : Rgtb a b = true <-> a > b.
Proof.
  unfold Rgtb. destruct (Rlt_dec b a); split; intros; try easy; lra.
Qed.

Lemma Rgtb_false_iff (a b : R) : Rgtb a b = false <-> a <= b.
Proof.
  unfold Rgtb. destruct (Rlt_dec b a); split; intros; try easy; lra.
Qed.

Lemma Rgeb_true_iff (a b : R) : Rgeb a b = true <-> a >= b.
Proof.
  unfold Rgeb. destruct (Rle_dec b a); split; intros; try easy; lra.
Qed.

Lemma Rgeb_false_iff (a b : R) : Rgeb a b = false <-> a < b.
Proof.
  unfold Rgeb. destruct (Rle_dec b a); split; intros; try easy; lra.
Qed.

(** Decides the comparisons of a goal whose operands are numerals. *)
Ltac decide_cmp :=
  repeat match goal with
  | |- context [Rgtb ?a ?b] =>
      first [ rewrite (proj2 (Rgtb_true_iff a b)) by lra
            | rewrite (proj2 (Rgtb_false_iff a b)) by lra ]
  | |- context [Rgeb ?a ?b] =>
      first [ rewrite (proj2 (Rgeb_true_iff a b)) by lra
            | rewrite (proj2 (Rgeb_false_iff a b)) by lra ]
  | |- context [Rmax ?a ?b] =>
      first [ rewrite (Rmax_left a b) by lra | rewrite (Rmax_right a b) by lra ]
  | |- context [?a / ?a] => rewrite (Rdiv_diag a) by lra
  end.

(** One step of evaluation of a search on a concrete store. *)
Ltac run_step :=
  unfold search, keywordSearchInternal, Db.keywordSearch, vectorSearch, mergeResults,
         finalize, normalizeKeyword, getAllEmbeddings, getMemoriesByIds, requireDb,
         bind, ret, slice0, memoryMapGet;
  simpl; decide_cmp.

Section SortDescFacts.
Context {A : Type} (key : A -> R).

Definition descending (a b : A) : Prop := key a >= key b.

Lemma insertDesc_perm (x : A) (l : list A) : Permutation (x :: l) (insertDesc key x l).
Proof.
  induction l as [|y l IH]; simpl; [reflexivity|].
  destruct (Rgeb (key x) (key y)); [reflexivity|].
  rewrite perm_swap. now constructor.
Qed.

Lemma sortDesc_perm (l : list A) : Permutation l (sortDesc key l).
Proof.
  induction l as [|x l IH]; simpl; [constructor|].
  rewrite <- insertDesc_perm. now constructor.
Qed.

Lemma sortDesc_In (l : list A) (x : A) : In x (sortDesc key l) <-> In x l.
Proof.
  split; apply Permutation_in; [symmetry|]; apply sortDesc_perm.
Qed.

Lemma insertDesc_sorted (x : A) (l : list A) :
  StronglySorted descending l -> StronglySorted descending (insertDesc key x l).
Proof.
  induction 1 as [|y l Hs IH Hall]; simpl.
  - repeat constructor.
  - destruct (Rgeb (key x) (key y)) eqn:E.
    + apply Rgeb_true_iff in E. constructor; [now constructor|].
      constructor; [exact E|].
      rewrite Forall_forall in *. intros z Hz. specialize (Hall z Hz).
      unfold descending in *. lra.
    + apply Rgeb_false_iff in E. constructor; [exact IH|].
      rewrite Forall_forall in *. intros z Hz.
      apply (Permutation_in _ (Permutation_sym (insertDesc_perm x l))) in Hz.
      destruct Hz as [<-|Hz]; [unfold descending; lra | now apply Hall].
Qed.

Lemma sortDesc_sorted (l : list A) : StronglySorted descending (sortDesc key l).
Proof.
  induction l; simpl; [constructor | now apply insertDesc_sorted].
Qed.

Lemma sortDesc_length (l : list A) : List.length (sortDesc key l) = List.length l.
Proof. symmetry. apply Permutation_length, sortDesc_perm. Qed.
End SortDescFacts.

Lemma firstn_In {A} (n : nat) (l : list A) (x : A) : In x (firstn n l) -> In x l.
Proof.
  revert l. induction n as [|n IH]; intros [|y l]; simpl; try tauto.
  intros [H|H]; [now left | right; now apply IH].
Qed.

Lemma slice0_incl {A} (stop : Z) (l : list A) (x : A) : In x (slice0 stop l) -> In x l.
Proof.
  unfold slice0. destruct (stop <? 0)%Z; apply firstn_In.
Qed.

Lemma slice0_length {A} (stop : Z) (l : list A) :
  (0 <= stop)%Z -> (Z.of_nat (List.length (slice0 stop l)) <= stop)%Z.
Proof.
  intros H. unfold slice0.
  destruct (stop <? 0)%Z eqn:E; [apply Z.ltb_lt in E; lia|].
  rewrite length_firstn. lia.
Qed.

Lemma slice0_all {A} (stop : Z) (l : list A) :
  (Z.of_nat (List.length l) <= stop)%Z -> slice0 stop l = l.
Proof.
  intros H. unfold slice0.
  destruct (stop <? 0)%Z eqn:E; [apply Z.ltb_lt in E; lia|].
  apply firstn_all2. lia.
Qed.

Lemma slice0_sorted {A} (R0 : A -> A -> Prop) (stop : Z) (l : list A) :
  StronglySorted R0 l -> StronglySorted R0 (slice0 stop l).
Proof.
  intros H. unfold slice0.
  assert (G : forall n, StronglySorted R0 (firstn n l)).
  { induction H as [|x l Hs IH Hall]; intros [|n]; simpl; try constructor.
    - apply IH.
    - rewrite Forall_forall in *. intros y Hy. apply Hall. eapply firstn_In, Hy. }
  destruct (stop <? 0)%Z; apply G.
Qed.

(* ================================================================== *)
(** * The record store *)
(* ================================================================== *)

(** Stores used in the examples. *)
Definition record (i text : string) (e : option Float32Array) : MemoryRecord :=
  {| id := i; category := fact; content := text;
     embedding := e; embeddingModel := option_map (fun _ => "unit"%string) e;
     embeddingDims := option_map (fun v => Z.of_nat (List.length v)) e;
     sourceType := manual; sourceSession := None; sourceMessageIndex := None;
     confidence := 1; tags := []; createdAt := 1000; updatedAt := 1000;
     lastAccessedAt := 1000; accessCount := 0 |}.

Definition tablesOf (rows : list (Z * MemoryRecord)) : SqlJsDatabase :=
  {| memories := rows;
     memories_fts := map (fun row => (fst row, content (snd row))) rows |}.

Definition openedWith (rows : list (Z * MemoryRecord)) : MemoryDatabase :=
  {| db := Some (tablesOf rows); dirty := false; file := Some (tablesOf rows) |}.

Definition emptyStore : MemoryDatabase := openedWith [].

(** One record, with a one-dimensional unit embedding. *)
Definition sampleRows : list (Z * MemoryRecord) :=
  [(1%Z, record "m1" "Alex prefers dark mode" (Some [1]))].

Definition sampleStore : MemoryDatabase := openedWith sampleRows.

Definition absent (i : string) (d : SqlJsDatabase) : Prop :=
  forall row, In row (memories d) -> id (snd row) <> i.

Lemma selectById_absent (d : SqlJsDatabase) (i : string) :
  absent i d -> selectById d i = [].
Proof.
  unfold absent, selectById. intros H.
  induction (memories d) as [|row rows IH]; simpl; [reflexivity|].
  unfold hasId at 1. destruct (String.eqb_spec (id (snd row)) i) as [E|E].
  - exfalso. apply (H row); [now left | exact E].
  - apply IH. intros r Hr. apply H. now right.
Qed.

Lemma updateWhereId_absent (d : SqlJsDatabase) (i : string) (f : MemoryRecord -> MemoryRecord) :
  absent i d -> updateWhereId i f (memories d) = memories d.
Proof.
  unfold absent, updateWhereId. intros H.
  induction (memories d) as [|row rows IH]; simpl; [reflexivity|].
  unfold hasId at 1. destruct (String.eqb_spec (id (snd row)) i) as [E|E].
  - exfalso. apply (H row); [now left | exact E].
  - f_equal. apply IH. intros r Hr. apply H. now right.
Qed.

(** [deleteMemory] of an id that is not stored returns [false] and changes
    nothing. *)
Lemma deleteMemory_missing_id (i : string) (self : MemoryDatabase) (d : SqlJsDatabase) :
  db self = Some d -> absent i d -> deleteMemory i self = Ok (false, self).
Proof.
  intros Hd Ha. unfold deleteMemory, bind, requireDb. rewrite Hd.
  now rewrite (selectById_absent d i Ha).
Qed.

(** [updateMemory] of an id that is not stored, with at least one field
    set, leaves both tables as they are, marks the store dirty and returns
    [true]. *)
Lemma updateMemory_missing_id (now : Z) (i : string) (input : UpdateMemoryInput)
    (self : MemoryDatabase) (d : SqlJsDatabase) :
  db self = Some d -> absent i d -> noSets input = false ->
  updateMemory now i input self
  = Ok (true, {| db := Some d; dirty := true; file := file self |}).
Proof.
  intros Hd Ha Hs. unfold updateMemory, bind, requireDb. rewrite Hd, Hs.
  rewrite (updateWhereId_absent d i _ Ha).
  assert (E : selectById {| memories := memories d; memories_fts := memories_fts d |} i = [])
    by (apply selectById_absent; exact Ha).
  rewrite E. unfold setDb, setDirty, ret. simpl.
  destruct d; destruct (u_content input); reflexivity.
Qed.

(** [updateMemory] with no field set returns [false], whatever the id. *)
Lemma updateMemory_no_sets (now : Z) (i : string) (input : UpdateMemoryInput)
    (self : MemoryDatabase) (d : SqlJsDatabase) :
  db self = Some d -> noSets input = true -> updateMemory now i input self = Ok (false, self).
Proof.
  intros Hd Hs. unfold updateMemory, bind, requireDb. now rewrite Hd, Hs.
Qed.

(** C3 (the store as the code has it): on the empty, opened store,
    updating the id [non-existent] with a new content returns [true], where
    the claim says [false]; the store ends up marked dirty with no row
    changed.  [getMemory] and [deleteMemory] do report the missing id as the
    claim says, see [getMemory_missing_id] and [deleteMemory_missing_id]. *)
Theorem updateMemory_missing_id_returns_true :
  updateMemory 2000 "non-existent"
    {| u_content := Some "new"%string; u_category := None; u_embedding := None;
       u_embeddingModel := None; u_confidence := None; u_tags := None |}
    emptyStore
  = Ok (true, {| db := db emptyStore; dirty := true; file := file emptyStore |}).
Proof.
  apply updateMemory_missing_id; [reflexivity | intros row [] | reflexivity].
Qed.

(** C10: for an id that is not in the store, [getMemory] returns [null]
    and the database object is unchanged: no row is touched (neither
    [accessCount] nor [lastAccessedAt]) and [dirty] keeps its value. *)
Theorem getMemory_missing_id (now : Z) (i : string) (self : MemoryDatabase) (d : SqlJsDatabase) :
  db self = Some d -> absent i d -> getMemory now i self = Ok (None, self).
Proof.
  intros Hd Ha. unfold getMemory, bind, requireDb. rewrite Hd.
  now rewrite (selectById_absent d i Ha).
Qed.

Lemma getMemory_missing_id_witness :
  getMemory 2000 "non-existent" sampleStore = Ok (None, sampleStore).
Proof.
  apply (getMemory_missing_id 2000 "non-existent" sampleStore (tablesOf sampleRows)).
  - reflexivity.
  - intros row [<-|[]]. simpl. discriminate.
Defined.

(** On a stored id the read does have its side effect: the access count
    goes up by one and the store is marked dirty. *)
Example getMemory_present :
  getMemory 2000 "m1" sampleStore
  = Ok (Some (touch 2000 (record "m1" "Alex prefers dark mode" (Some [1]))),
        {| db := Some {| memories :=
                           [(1%Z, touch 2000 (record "m1" "Alex prefers dark mode" (Some [1])))];
                         memories_fts := [(1%Z, "Alex prefers dark mode"%string)] |};
           dirty := true; file := file sampleStore |}).
Proof. reflexivity. Qed.

(** ** Keyword search *)

(** The claim's words.  A query holds a token of more than one character
    when two code units that are not whitespace follow each other. *)
Fixpoint hasLongToken (s : string) : bool :=
  match s with
  | String a (String b _ as rest) =>
      (negb (isWhitespace a) && negb (isWhitespace b)) || hasLongToken rest
  | _ => false
  end.

Fixpoint everyChar (p : ascii -> bool) (s : string) : bool :=
  match s with
  | EmptyString => true
  | String c s' => p c && everyChar p s'
  end.




(** A token between double quotes, as the expression has it. *)
Definition phrase (t : string) : string :=
  String doubleQuote (t ++ String doubleQuote EmptyString).

Lemma append_assoc (a b c : string) : ((a ++ b) ++ c = a ++ (b ++ c))%string.
Proof. induction a as [|x a IH]; simpl; [reflexivity | now rewrite IH]. Qed.


Lemma isWhitespace_lowerChar (c : ascii) : isWhitespace (lowerChar c) = isWhitespace c.
Proof.
  destruct c as [[] [] [] [] [] [] [] []]; reflexivity.
Qed.







Lemma hasLongToken_toLowerCase (s : string) :
  hasLongToken (toLowerCase s) = hasLongToken s.
Proof.
  induction s as [|a s IH]; [reflexivity|].
  destruct s as [|b s]; [reflexivity|].
  change (toLowerCase (String a (String b s)))
    with (String (lowerChar a) (toLowerCase (String b s))).
  change (toLowerCase (String b s)) with (String (lowerChar b) (toLowerCase s)) at 1.
  change (hasLongToken (String (lowerChar a) (String (lowerChar b) (toLowerCase s))))
    with ((negb (isWhitespace (lowerChar a)) && negb (isWhitespace (lowerChar b)))
          || hasLongToken (String (lowerChar b) (toLowerCase s))).
  change (String (lowerChar b) (toLowerCase s)) with (toLowerCase (String b s)).
  rewrite IH, !isWhitespace_lowerChar. reflexivity.
Qed.








Definition startsWord (s : string) : bool :=
  match s with
  | String c _ => negb (isWhitespace c)
  | EmptyString => false
  end.

Lemma hasLongToken_cons (a : ascii) (s : string) :
  hasLongToken (String a s) = (negb (isWhitespace a) && startsWord s) || hasLongToken s.
Proof.
  destruct s as [|b s]; simpl; [now rewrite andb_false_r | reflexivity].
Qed.

Lemma length_append (a b : string) :
  String.length (a ++ b) = (String.length a + String.length b)%nat.
Proof. induction a as [|x a IH]; simpl; [reflexivity | now rewrite IH]. Qed.

(** Without two adjacent code units that are not whitespace, no token is
    longer than one. *)
Lemma splitFrom_short (s cur : string) (inGap : bool) :
  hasLongToken s = false ->
  (String.length cur <= 1)%nat ->
  (String.length cur = 1%nat -> startsWord s = false) ->
  (inGap = true -> String.length cur = 0%nat) ->
  Forall (fun t => (String.length t <= 1)%nat) (splitFrom cur inGap s).
Proof.
  revert cur inGap. induction s as [|c s IH]; intros cur inGap Hs Hcur Hfull Hgap.
  - simpl. constructor; [exact Hcur | constructor].
  - rewrite hasLongToken_cons in Hs. apply orb_false_iff in Hs.
    destruct Hs as [Hpair Hs].
    change (splitFrom cur inGap (String c s))
      with (if isWhitespace c
            then if inGap then splitFrom cur true s else cur :: splitFrom EmptyString true s
            else splitFrom (cur ++ String c EmptyString) false s).
    change (startsWord (String c s)) with (negb (isWhitespace c)) in Hfull.
    destruct (isWhitespace c) eqn:W.
    + destruct inGap.
      * apply IH; [exact Hs | exact Hcur | | exact Hgap].
        intros H1. specialize (Hgap eq_refl). lia.
      * constructor; [exact Hcur|].
        apply IH; [exact Hs | simpl; lia | simpl; lia | reflexivity].
    + change (negb false) with true in *. rewrite andb_true_l in Hpair.
      assert (Hempty : String.length cur = 0%nat).
      { destruct (Nat.eq_dec (String.length cur) 1) as [H1|H1]; [|lia].
        specialize (Hfull H1). discriminate. }
      apply IH; [exact Hs | rewrite length_append; simpl; lia | intros _; exact Hpair
                | discriminate].
Qed.

(** With two such code units, or with a piece that is already long or about
    to grow, some token is longer than one. *)
Lemma splitFrom_long (s cur : string) (inGap : bool) :
  hasLongToken s = true
  \/ ((0 < String.length cur)%nat /\ startsWord s = true)
  \/ (1 < String.length cur)%nat ->
  Exists (fun t => (1 < String.length t)%nat) (splitFrom cur inGap s).
Proof.
  revert cur inGap. induction s as [|c s IH]; intros cur inGap H.
  - simpl in *. constructor. destruct H as [H|[[_ H]|H]]; [discriminate | discriminate | exact H].
  - rewrite hasLongToken_cons in H.
    assert (Hlen : forall x, String.length (cur ++ String x EmptyString) = S (String.length cur)).
    { intros x. rewrite length_append. simpl. lia. }
    change (splitFrom cur inGap (String c s))
      with (if isWhitespace c
            then if inGap then splitFrom cur true s else cur :: splitFrom EmptyString true s
            else splitFrom (cur ++ String c EmptyString) false s).
    change (startsWord (String c s)) with (negb (isWhitespace c)) in H.
    destruct (isWhitespace c) eqn:W.
    + change (negb true) with false in H. rewrite andb_false_l, orb_false_l in H.
      destruct H as [H|[[_ H]|H]]; [|discriminate|].
      * destruct inGap; [apply IH; now left|].
        apply Exists_cons_tl. apply IH. now left.
      * destruct inGap; [apply IH; now right; right|]. now apply Exists_cons_hd.
    + change (negb false) with true in H. rewrite andb_true_l in H.
      apply IH. destruct H as [H|[[H _]|H]].
      * apply orb_true_iff in H. destruct H as [H|H]; [|now left].
        right. left. split; [rewrite Hlen; lia | exact H].
      * right. right. rewrite Hlen. lia.
      * right. right. rewrite Hlen. lia.
Qed.

Lemma filter_nil_Forall {A} (f : A -> bool) (l : list A) :
  Forall (fun x => f x = false) l -> filter f l = [].
Proof.
  induction 1 as [|x l Hx _ IH]; simpl; [reflexivity | now rewrite Hx].
Qed.

(** The tokens [keywordSearch] keeps: there are none exactly when the query
    has no two adjacent code units other than whitespace. *)
Lemma longTokens_none (query : string) :
  filter (fun t => (1 <? String.length t)%nat) (splitWhitespace (toLowerCase query)) = []
  <-> hasLongToken query = false.
Proof.
  rewrite <- hasLongToken_toLowerCase. split.
  - intros E. destruct (hasLongToken (toLowerCase query)) eqn:H; [|reflexivity].
    pose proof (splitFrom_long (toLowerCase query) EmptyString false (or_introl H)) as G.
    apply Exists_exists in G. destruct G as [t [Hin Ht]].
    assert (F : In t (filter (fun t => (1 <? String.length t)%nat)
                             (splitWhitespace (toLowerCase query)))).
    { apply filter_In. split; [exact Hin | now apply Nat.ltb_lt]. }
    rewrite E in F. destruct F.
  - intros H. apply filter_nil_Forall.
    pose proof (splitFrom_short (toLowerCase query) EmptyString false H) as G.
    simpl in G. specialize (G ltac:(lia) ltac:(discriminate) ltac:(discriminate)).
    unfold splitWhitespace. revert G. apply Forall_impl.
    intros t Ht. now apply Nat.ltb_ge.
Qed.









(** An engine that matches every row, used to show that the empty results
    above do not come from the engine.  Each row comes with the matchinfo
    of a one-term query: one phrase, one column, the number of rows, four
    tokens on average and in the row, one hit. *)
Definition matchEverything : MatchEngine :=
  fun d expr limit =>
    let n := Z.of_nat (List.length (memories d)) in
    Ok (map (fun row => (id (snd row), [1; 1; n; 4; 4; 1; n; n]%Z)) (memories d)).

(** The no-break space U+00A0 and the letter U+00C9, a capital E with an
    acute accent. *)
Definition noBreakSpace : string := String (ascii_of_nat 160) EmptyString.
Definition capitalEAcute : string := String (ascii_of_nat 201) EmptyString.
Definition smallEAcute : string := String (ascii_of_nat 233) EmptyString.


(** The empty query and every query of one character are such queries. *)
Lemma keywordSearch_empty_query
    (execMatch : MatchEngine)
    (limit : Z) (self : MemoryDatabase) (d : SqlJsDatabase) :
  db self = Some d -> keywordSearch execMatch EmptyString limit self = Ok ([], self).
Proof.
  intros Hd. unfold keywordSearch, bind, requireDb. now rewrite Hd.
Qed.

Lemma keywordSearch_single_character
    (execMatch : MatchEngine)
    (c : ascii) (limit : Z) (self : MemoryDatabase) (d : SqlJsDatabase) :
  db self = Some d ->
  keywordSearch execMatch (String c EmptyString) limit self = Ok ([], self).
Proof.
  intros Hd. unfold keywordSearch, bind, requireDb. rewrite Hd.
  unfold matchExpression, splitWhitespace. simpl.
  now destruct (isWhitespace (lowerChar c)).
Qed.

(** With a token of two characters the engine is asked, with the token
    between double quotes. *)
Example keywordSearch_asks_engine :
  keywordSearch matchEverything "Dark a MODE" 20 sampleStore
  = Ok ([("m1"%string, computeBM25Score [1; 1; 1; 4; 4; 1; 1; 1]%Z)], sampleStore)
  /\ matchExpression "Dark a MODE"
     = String doubleQuote ("dark" ++ String doubleQuote (" " ++
       String doubleQuote ("mode" ++ String doubleQuote EmptyString)))%string.
Proof. split; reflexivity. Qed.

(* ================================================================== *)
(** * Vector search *)
(* ================================================================== *)

Lemma dotLoop_acc (a b : Float32Array) (acc : R) : dotLoop acc a b = acc + dotLoop 0 a b.
Proof.
  revert b acc. induction a as [|x a IH]; intros [|y b] acc; simpl; try lra.
  rewrite (IH b (acc + x * y)), (IH b (0 + x * y)). lra.
Qed.

Lemma cosineSimilarity_mismatch (a b : Float32Array) :
  List.length a <> List.length b ->
  cosineSimilarity a b = Throw (DimensionMismatch (List.length a) (List.length b)).
Proof.
  intros H. unfold cosineSimilarity. apply Nat.eqb_neq in H. now rewrite H.
Qed.

Lemma cosineSimilarity_match (a b : Float32Array) :
  List.length a = List.length b -> cosineSimilarity a b = Ok (dotLoop 0 a b).
Proof.
  intros H. unfold cosineSimilarity. apply Nat.eqb_eq in H. now rewrite H.
Qed.


Lemma scoreEmbedding_id (q : Float32Array) (e : string * Float32Array) :
  cand_id (scoreEmbedding q e) = fst e.
Proof. unfold scoreEmbedding. now destruct (cosineSimilarity q (snd e)). Qed.


Lemma scoreEmbedding_mismatch (q : Float32Array) (e : string * Float32Array) :
  List.length q <> List.length (snd e) -> cand_score (scoreEmbedding q e) = 0.
Proof.
  intros H. unfold scoreEmbedding. now rewrite (cosineSimilarity_mismatch _ _ H).
Qed.

Lemma getAllEmbeddings_opened (self : MemoryDatabase) (d : SqlJsDatabase) :
  db self = Some d -> exists all, getAllEmbeddings self = Ok (all, self).
Proof.
  intros Hd. unfold getAllEmbeddings, bind, requireDb, ret. rewrite Hd. eauto.
Qed.

Lemma getAllEmbeddings_pure (self self' : MemoryDatabase) (all : list (string * Float32Array)) :
  getAllEmbeddings self = Ok (all, self') -> self' = self /\ db self <> None.
Proof.
  unfold getAllEmbeddings, bind, requireDb, ret.
  destruct (db self); [|discriminate]. intros [= _ <-]. split; [reflexivity | discriminate].
Qed.

Lemma slice0_nil {A} (stop : Z) : slice0 stop (@nil A) = [].
Proof. unfold slice0. destruct (stop <? 0)%Z; apply firstn_nil. Qed.

(** [vectorSearch] once the query is embedded and the stored pairs read. *)
Lemma vectorSearch_unfold (embedder : EmbeddingProvider) (query : string) (limit : Z)
    (self : MemoryDatabase) (q : Float32Array) (all : list (string * Float32Array)) :
  embed embedder query = Ok q ->
  getAllEmbeddings self = Ok (all, self) ->
  vectorSearch embedder query limit self
  = Ok (slice0 limit
          (sortDesc cand_score
             (filter (fun r => Rgtb (cand_score r) 0) (map (scoreEmbedding q) all))),
        self).
Proof.
  intros He Ha. unfold vectorSearch, bind. rewrite He, Ha.
  destruct all; [|reflexivity].
  simpl. now rewrite slice0_nil.
Qed.

(** [vectorSearch] does not throw on an opened store, and leaves it as it is. *)
Lemma vectorSearch_opened (embedder : EmbeddingProvider) (query : string) (limit : Z)
    (self : MemoryDatabase) (d : SqlJsDatabase) :
  db self = Some d -> exists rs, vectorSearch embedder query limit self = Ok (rs, self).
Proof.
  intros Hd. destruct (embed embedder query) as [q|err] eqn:He.
  - destruct (getAllEmbeddings_opened self d Hd) as [all Ha].
    rewrite (vectorSearch_unfold _ _ _ _ q all He Ha). eauto.
  - unfold vectorSearch. rewrite He. unfold ret. eauto.
Qed.


(** The claim's words.  The similarity of two vectors of one dimension is
    the sum of the products of their components, which is the cosine of the
    angle between them when both have length 1. *)
Definition sumOfProducts (a b : list R) : R :=
  fold_right Rplus 0 (map (fun p => fst p * snd p) (combine a b)).

(** The candidate of a stored row under the query vector [q]: the
    similarity [sim] remapped to [(sim + 1) / 2], and 0 for a stored vector
    of another dimension. *)
Definition similarityCandidate (q : list R) (row : Z * MemoryRecord) : Candidate :=
  {| cand_id := id (snd row);
     cand_score :=
       match embedding (snd row) with
       | Some e =>
           if (List.length q =? List.length e)%nat then (sumOfProducts q e + 1) / 2 else 0
       | None => 0
       end;
     cand_matchType := vector |}.

Definition hasEmbedding (row : Z * MemoryRecord) : bool := isSome (embedding (snd row)).

Lemma dotLoop_sumOfProducts (a b : Float32Array) : dotLoop 0 a b = sumOfProducts a b.
Proof.
  unfold sumOfProducts. revert b. induction a as [|x a IH]; intros [|y b]; try reflexivity.
  simpl. rewrite dotLoop_acc, IH. simpl. lra.
Qed.

Lemma scoreEmbedding_stored (q : Float32Array) (rows : list (Z * MemoryRecord)) :
  map (scoreEmbedding q)
      (flat_map (fun row => match embedding (snd row) with
                            | Some e => [(id (snd row), e)]
                            | None => []
                            end) rows)
  = map (similarityCandidate q) (filter hasEmbedding rows).
Proof.
  induction rows as [|row rows IH]; [reflexivity|].
  simpl. unfold hasEmbedding at 1. destruct (embedding (snd row)) as [e|] eqn:E; simpl.
  - rewrite IH. f_equal. unfold scoreEmbedding, similarityCandidate, cosineSimilarity.
    simpl. rewrite E. destruct (List.length q =? List.length e)%nat; [|reflexivity].
    now rewrite dotLoop_sumOfProducts.
  - exact IH.
Qed.

Lemma filter_partition {A} (f : A -> bool) (l : list A) :
  Permutation (filter f l ++ filter (fun x => negb (f x)) l) l.
Proof.
  induction l as [|x l IH]; simpl; [constructor|].
  destruct (f x); simpl; [now constructor|].
  rewrite <- Permutation_middle. now constructor.
Qed.

(** C4: with the query embedded as [q], [vectorSearch] gives every stored
    row that has an embedding the score [(sim + 1) / 2], [sim] being the sum
    of the products of the components of [q] and of the stored vector;
    it drops the rows whose score is not positive, puts the others in
    descending order of score ([ranked]) and returns the first [limit] of
    them (for a negative [limit], as [slice] has it, all but the last
    [-limit]). *)
Theorem vectorSearch_ranks_by_cosine (embedder : EmbeddingProvider) (query : string)
    (limit : Z) (self : MemoryDatabase) (d : SqlJsDatabase) (q : Float32Array) :
  db self = Some d ->
  embed embedder query = Ok q ->
  exists ranked dropped,
    vectorSearch embedder query limit self
    = Ok (if (limit <? 0)%Z
          then firstn (Z.to_nat (Z.of_nat (List.length ranked) + limit)) ranked
          else firstn (Z.to_nat limit) ranked,
          self)
    /\ Permutation (ranked ++ dropped)
         (map (similarityCandidate q) (filter hasEmbedding (memories d)))
    /\ Forall (fun r => cand_score r > 0) ranked
    /\ Forall (fun r => cand_score r <= 0) dropped
    /\ StronglySorted (fun a b => cand_score a >= cand_score b) ranked.
Proof.
  intros Hd He.
  set (scored := map (similarityCandidate q) (filter hasEmbedding (memories d))).
  exists (sortDesc cand_score (filter (fun r => Rgtb (cand_score r) 0) scored)),
         (filter (fun r => negb (Rgtb (cand_score r) 0)) scored).
  split; [|split; [|split; [|split]]].
  - assert (Ha : getAllEmbeddings self
                 = Ok (flat_map (fun row => match embedding (snd row) with
                                            | Some e => [(id (snd row), e)]
                                            | None => []
                                            end) (memories d), self)).
    { unfold getAllEmbeddings, bind, requireDb, ret. now rewrite Hd. }
    rewrite (vectorSearch_unfold _ _ _ _ q _ He Ha).
    rewrite scoreEmbedding_stored. reflexivity.
  - rewrite <- (sortDesc_perm cand_score). apply filter_partition.
  - apply Forall_forall. intros r Hr. apply sortDesc_In, filter_In in Hr.
    now apply Rgtb_true_iff.
  - apply Forall_forall. intros r Hr. apply filter_In in Hr. destruct Hr as [_ Hr].
    apply negb_true_iff in Hr. now apply Rgtb_false_iff.
  - apply sortDesc_sorted.
Qed.

(** Two stored vectors and a query in the plane: the nearer one comes
    first, the opposite one (score 0) is dropped. *)
Definition planeProvider : EmbeddingProvider :=
  {| modelName := "plane"; dimensions := 2; embed := fun _ => Ok [1; 0] |}.

Definition planeRows : list (Z * MemoryRecord) :=
  [ (1%Z, record "opposite" "Sam uses a light theme" (Some [-1; 0]));
    (2%Z, record "orthogonal" "The office is in Berlin" (Some [0; 1]));
    (3%Z, record "same" "Alex prefers dark mode" (Some [1; 0])) ].

Definition planeStore : MemoryDatabase := openedWith planeRows.

Lemma vectorSearch_ranks_by_cosine_witness :
  exists ranked dropped,
    vectorSearch planeProvider "query" 1 planeStore = Ok (firstn 1 ranked, planeStore)
    /\ Permutation (ranked ++ dropped)
         (map (similarityCandidate [1; 0]) (filter hasEmbedding planeRows))
    /\ Forall (fun r => cand_score r > 0) ranked
    /\ Forall (fun r => cand_score r <= 0) dropped
    /\ StronglySorted (fun a b => cand_score a >= cand_score b) ranked.
Proof.
  apply (vectorSearch_ranks_by_cosine planeProvider "query" 1 planeStore
           (tablesOf planeRows) [1; 0]); reflexivity.
Defined.

Example vectorSearch_plane :
  exists s1 s2,
    vectorSearch planeProvider "query" 24 planeStore
    = Ok ([ {| cand_id := "same"; cand_score := s1; cand_matchType := vector |};
            {| cand_id := "orthogonal"; cand_score := s2; cand_matchType := vector |} ],
          planeStore)
    /\ s1 = 1 /\ s2 = 1 / 2.
Proof.
  eexists _, _. split.
  - rewrite (vectorSearch_unfold planeProvider "query" 24 planeStore [1; 0]
               [("opposite"%string, [-1; 0]); ("orthogonal"%string, [0; 1]);
                ("same"%string, [1; 0])] eq_refl eq_refl).
    cbn. decide_cmp. cbn. decide_cmp. reflexivity.
  - split; lra.
Qed.

(** With the limit 1 the nearest one alone is returned, and with the limit
    -1 all but the last. *)
Example vectorSearch_plane_truncated :
  exists s1,
    vectorSearch planeProvider "query" 1 planeStore
    = Ok ([ {| cand_id := "same"; cand_score := s1; cand_matchType := vector |} ], planeStore)
    /\ vectorSearch planeProvider "query" (-1) planeStore
       = Ok ([ {| cand_id := "same"; cand_score := s1; cand_matchType := vector |} ],
             planeStore)
    /\ s1 = 1.
Proof.
  eexists. split; [|split].
  - rewrite (vectorSearch_unfold planeProvider "query" 1 planeStore [1; 0]
               [("opposite"%string, [-1; 0]); ("orthogonal"%string, [0; 1]);
                ("same"%string, [1; 0])] eq_refl eq_refl).
    cbn. decide_cmp. cbn. decide_cmp. reflexivity.
  - rewrite (vectorSearch_unfold planeProvider "query" (-1) planeStore [1; 0]
               [("opposite"%string, [-1; 0]); ("orthogonal"%string, [0; 1]);
                ("same"%string, [1; 0])] eq_refl eq_refl).
    cbn. decide_cmp. cbn. decide_cmp. reflexivity.
  - lra.
Qed.

(* ================================================================== *)
(** * Keyword candidates *)
(* ================================================================== *)

Lemma maxOf_ge_init (x : R) (xs : list R) : x <= maxOf x xs.
Proof.
  revert x. induction xs as [|y ys IH]; intros x; simpl; [lra|].
  specialize (IH (Rmax x y)). pose proof (Rmax_l x y). lra.
Qed.

Lemma maxOf_upper (x : R) (xs : list R) (y : R) : In y (x :: xs) -> y <= maxOf x xs.
Proof.
  revert x. induction xs as [|z zs IH]; intros x Hy; simpl.
  - destruct Hy as [Hy|[]]. lra.
  - pose proof (maxOf_ge_init (Rmax x z) zs) as Hm.
    destruct Hy as [Hy|[Hy|Hy]].
    + pose proof (Rmax_l x z). lra.
    + pose proof (Rmax_r x z). lra.
    + apply IH. now right.
Qed.

Lemma maxOf_In (x : R) (xs : list R) : In (maxOf x xs) (x :: xs).
Proof.
  revert x. induction xs as [|z zs IH]; intros x; simpl; [now left|].
  destruct (IH (Rmax x z)) as [H|H]; [|tauto].
  rewrite <- H. unfold Rmax. destruct (Rle_dec x z); tauto.
Qed.

(** [maxOf] is the maximum: it is the only element that bounds the others. *)
Lemma maxOf_unique (x : R) (xs : list R) (m : R) :
  In m (x :: xs) -> (forall y, In y (x :: xs) -> y <= m) -> maxOf x xs = m.
Proof.
  intros Hin Hub.
  pose proof (maxOf_upper x xs m Hin). pose proof (Hub _ (maxOf_In x xs)). lra.
Qed.

Lemma keywordSearch_opened
    (execMatch : MatchEngine)
    (query : string) (limit : Z) (self : MemoryDatabase) (d : SqlJsDatabase) :
  db self = Some d -> exists raw, keywordSearch execMatch query limit self = Ok (raw, self).
Proof.
  intros Hd. unfold keywordSearch, bind, requireDb, ret. rewrite Hd.
  destruct (String.length (matchExpression query) =? 0)%nat; [eauto|].
  destruct (execMatch d (matchExpression query) limit); eauto.
Qed.

Lemma keywordSearch_pure
    (execMatch : MatchEngine)
    (query : string) (limit : Z) (self self' : MemoryDatabase) (raw : list (string * R)) :
  keywordSearch execMatch query limit self = Ok (raw, self') -> self' = self.
Proof.
  unfold keywordSearch, bind, requireDb, ret. destruct (db self) as [d|]; [|discriminate].
  destruct (String.length (matchExpression query) =? 0)%nat; [now intros [= _ <-]|].
  destruct (execMatch d (matchExpression query) limit); now intros [= _ <-].
Qed.

Lemma keywordSearchInternal_unfold
    (execMatch : MatchEngine)
    (query : string) (limit : Z) (self self' : MemoryDatabase) (raw : list (string * R)) :
  keywordSearch execMatch query limit self = Ok (raw, self') ->
  keywordSearchInternal execMatch query limit self = Ok (normalizeKeyword raw, self').
Proof.
  intros H. unfold keywordSearchInternal, bind. now rewrite H.
Qed.

Lemma normalizeKeyword_positive_max (raw : list (string * R)) (m : R) :
  In m (map snd raw) -> (forall x, In x (map snd raw) -> x <= m) -> 0 < m ->
  normalizeKeyword raw
  = map (fun r => {| cand_id := fst r; cand_score := snd r / m; cand_matchType := keyword |}) raw.
Proof.
  intros Hin Hub Hpos. destruct raw as [|r0 rest]; [reflexivity|].
  unfold normalizeKeyword.
  rewrite (maxOf_unique (snd r0) (map snd rest) m Hin Hub).
  now rewrite (proj2 (Rgtb_true_iff m 0) Hpos).
Qed.

Lemma normalizeKeyword_id (raw : list (string * R)) :
  map cand_id (normalizeKeyword raw) = map fst raw.
Proof.
  destruct raw as [|r0 rest]; [reflexivity|]. unfold normalizeKeyword.
  rewrite map_map. reflexivity.
Qed.

Lemma normalizeKeyword_matchType (raw : list (string * R)) (r : Candidate) :
  In r (normalizeKeyword raw) -> cand_matchType r = keyword.
Proof.
  destruct raw as [|r0 rest]; [intros []|]. unfold normalizeKeyword.
  intros H. apply in_map_iff in H. now destruct H as [x [<- _]].
Qed.


Lemma normalizeKeyword_nonpositive_max (raw : list (string * R)) (m : R) :
  In m (map snd raw) -> (forall x, In x (map snd raw) -> x <= m) -> m <= 0 ->
  normalizeKeyword raw
  = map (fun r => {| cand_id := fst r; cand_score := snd r; cand_matchType := keyword |}) raw.
Proof.
  intros Hin Hub Hneg. destruct raw as [|r0 rest]; [reflexivity|].
  unfold normalizeKeyword.
  rewrite (maxOf_unique (snd r0) (map snd rest) m Hin Hub).
  rewrite (proj2 (Rgtb_false_iff m 0) Hneg).
  apply map_ext. intros r. f_equal. field.
Qed.

(** C8, as the code has it.  Let [m] be the largest raw score of a keyword
    result set.  When [m] is positive every raw score is divided by [m], so
    a hit whose raw score is [m] gets exactly 1, there is such a hit, and
    no score exceeds 1.  When [m] is not positive the divisor is 1 and
    every hit keeps its raw score: the top hit gets [m], which is not 1,
    and no score exceeds [m]. *)
Theorem keywordSearchInternal_divides_by_max
    (execMatch : MatchEngine)
    (query : string) (limit : Z) (self : MemoryDatabase) (raw : list (string * R)) (m : R) :
  keywordSearch execMatch query limit self = Ok (raw, self) ->
  In m (map snd raw) -> (forall x, In x (map snd raw) -> x <= m) ->
  (0 < m ->
   keywordSearchInternal execMatch query limit self
   = Ok (map (fun r => {| cand_id := fst r; cand_score := snd r / m;
                          cand_matchType := keyword |}) raw, self)
   /\ (forall r, In r raw -> snd r = m -> snd r / m = 1)
   /\ (exists r, In r raw /\ snd r / m = 1)
   /\ (forall r, In r raw -> snd r / m <= 1))
  /\ (m <= 0 ->
      keywordSearchInternal execMatch query limit self
      = Ok (map (fun r => {| cand_id := fst r; cand_score := snd r;
                             cand_matchType := keyword |}) raw, self)
      /\ (exists r, In r raw /\ snd r = m /\ snd r <> 1)
      /\ (forall r, In r raw -> snd r <= m)).
Proof.
  intros Hk Hin Hub. split.
  - intros Hpos. split; [|split; [|split]].
    + rewrite (keywordSearchInternal_unfold _ _ _ _ _ _ Hk).
      now rewrite (normalizeKeyword_positive_max raw m Hin Hub Hpos).
    + intros r _ ->. field. lra.
    + apply in_map_iff in Hin. destruct Hin as [r [<- Hr]]. exists r. split; [exact Hr|].
      field. lra.
    + intros r Hr.
      assert (snd r <= m) by (apply Hub; now apply in_map).
      apply (Rmult_le_reg_r m); [exact Hpos|].
      unfold Rdiv. rewrite Rmult_assoc, Rinv_l by lra. lra.
  - intros Hneg. split; [|split].
    + rewrite (keywordSearchInternal_unfold _ _ _ _ _ _ Hk).
      now rewrite (normalizeKeyword_nonpositive_max raw m Hin Hub Hneg).
    + apply in_map_iff in Hin. destruct Hin as [r [E Hr]]. exists r.
      split; [exact Hr|]. split; [exact E | lra].
    + intros r Hr. apply Hub. now apply in_map.
Qed.

(** ** Scores of concrete matchinfo arrays *)

Arguments computeBM25Score : simpl never.

Lemma idf_positive (n d : R) :
  0 < d -> d <= n -> 0 < ln ((n - d + 5 / 10) / (d + 5 / 10) + 1).
Proof.
  intros Hd Hn. rewrite <- ln_1. apply ln_increasing; [lra|].
  assert (0 < (n - d + 5 / 10) / (d + 5 / 10)) by (apply Rdiv_lt_0_compat; lra). lra.
Qed.

Lemma idf_negative (n d : R) :
  0 <= n -> n + 5 / 10 < d -> ln ((n - d + 5 / 10) / (d + 5 / 10) + 1) < 0.
Proof.
  intros Hn Hd. rewrite <- ln_1.
  replace ((n - d + 5 / 10) / (d + 5 / 10) + 1) with ((n + 1) / (d + 5 / 10))
    by (field; lra).
  assert (Hpos : 0 < (n + 1) / (d + 5 / 10)) by (apply Rdiv_lt_0_compat; lra).
  apply ln_increasing; [exact Hpos|].
  apply (Rmult_lt_reg_r (d + 5 / 10)); [lra|].
  unfold Rdiv. rewrite Rmult_assoc, Rinv_l by lra. lra.
Qed.

(** Two records, the term [mode] once in the first and twice in the
    second; each has five tokens. *)
Definition pairRows : list (Z * MemoryRecord) :=
  [ (1%Z, record "m1" "dark mode for the editor" None);
    (2%Z, record "m2" "mode by mode is best" None) ].

Definition pairStore : MemoryDatabase := openedWith pairRows.

(** The rows of the one-term query [mode] on [pairStore], with their
    matchinfo (p, c, n, a, l, then hits in the row, hits in all rows, rows
    with a hit). *)
Definition oneHit : list Z := [1; 1; 2; 5; 5; 1; 3; 2]%Z.
Definition twoHit : list Z := [1; 1; 2; 5; 5; 2; 3; 2]%Z.

Definition twoHits : MatchEngine :=
  fun d expr limit => Ok [("m1"%string, oneHit); ("m2"%string, twoHit)].

Lemma score_oneHit_twoHit :
  0 < computeBM25Score oneHit <= computeBM25Score twoHit.
Proof.
  unfold computeBM25Score, oneHit, twoHit, phraseScore, upTo, infoAt, orDefault, orElse.
  simpl.
  pose proof (idf_positive 2 2 ltac:(lra) ltac:(lra)) as Hidf.
  remember (ln ((2 - 2 + 5 / 10) / (2 + 5 / 10) + 1)) as idf eqn:E. clear E.
  assert (E1 : (0 + idf * (1 * (12 / 10 + 1)
                           / (1 + 12 / 10 * (1 - 75 / 100 + 75 / 100 * (5 / 5))))) / (1 * 5)
               = idf * (1 / 5)) by field.
  assert (E2 : (0 + idf * (2 * (12 / 10 + 1)
                           / (2 + 12 / 10 * (1 - 75 / 100 + 75 / 100 * (5 / 5))))) / (1 * 5)
               = idf * (11 / 40)) by field.
  rewrite E1, E2. split.
  - apply Rmin_glb_lt; lra.
  - apply Rle_min_compat_l. lra.
Qed.

(** One record in which the term [mode] occurs twice; six tokens. *)
Definition repeatRows : list (Z * MemoryRecord) :=
  [ (1%Z, record "m1" "dark mode is the best mode" None) ].

Definition repeatStore : MemoryDatabase := openedWith repeatRows.

(** The row of the two-term query [dark mode] on [repeatStore]: two
    phrases, one column, one row, six tokens on average and in the row,
    then (1, 1, 1) for [dark] and (2, 2, 1) for [mode]. *)
Definition repeatedTerm : list Z := [2; 1; 1; 6; 6; 1; 1; 1; 2; 2; 1]%Z.

Definition repeatHit : MatchEngine :=
  fun d expr limit => Ok [("m1"%string, repeatedTerm)].

(** With two phrases the offsets of [computeBM25Score] read the number of
    rows with a hit of the first phrase as its hits, and the hits of the
    second phrase in all rows (2, more than the single row) as the rows
    with a hit: the score is negative. *)
Lemma score_repeatedTerm : computeBM25Score repeatedTerm < 0.
Proof.
  unfold computeBM25Score, repeatedTerm, phraseScore, upTo, infoAt, orDefault, orElse.
  simpl.
  pose proof (idf_negative 1 2 ltac:(lra) ltac:(lra)) as Hidf.
  remember (ln ((1 - 2 + 5 / 10) / (2 + 5 / 10) + 1)) as idf eqn:E. clear E.
  assert (E1 : (0 + idf * (1 * (12 / 10 + 1)
                           / (1 + 12 / 10 * (1 - 75 / 100 + 75 / 100 * (1 / 6)))) + 0)
               / (2 * 5)
               = idf * (22 / 145)) by field.
  rewrite E1. rewrite Rmin_right; lra.
Qed.

Lemma keywordSearchInternal_divides_by_max_witness :
  (keywordSearchInternal twoHits "mode" 24 pairStore
   = Ok (map (fun r => {| cand_id := fst r; cand_score := snd r / computeBM25Score twoHit;
                          cand_matchType := keyword |})
             [("m1"%string, computeBM25Score oneHit); ("m2"%string, computeBM25Score twoHit)],
         pairStore)
   /\ (exists r, In r [("m1"%string, computeBM25Score oneHit);
                       ("m2"%string, computeBM25Score twoHit)]
                 /\ snd r / computeBM25Score twoHit = 1))
  /\ (keywordSearchInternal repeatHit "dark mode" 24 repeatStore
      = Ok ([ {| cand_id := "m1"; cand_score := computeBM25Score repeatedTerm;
                 cand_matchType := keyword |} ], repeatStore)
      /\ computeBM25Score repeatedTerm <> 1).
Proof.
  split.
  - destruct (keywordSearchInternal_divides_by_max twoHits "mode" 24 pairStore
                [("m1"%string, computeBM25Score oneHit); ("m2"%string, computeBM25Score twoHit)]
                (computeBM25Score twoHit)) as [Hpos _].
    + reflexivity.
    + simpl. tauto.
    + simpl. intros x [<-|[<-|[]]]; [apply score_oneHit_twoHit | lra].
    + destruct Hpos as [H1 [_ [H2 _]]]; [|now split].
      pose proof score_oneHit_twoHit. lra.
  - destruct (keywordSearchInternal_divides_by_max repeatHit "dark mode" 24 repeatStore
                [("m1"%string, computeBM25Score repeatedTerm)]
                (computeBM25Score repeatedTerm)) as [_ Hneg].
    + reflexivity.
    + simpl. tauto.
    + simpl. intros x [<-|[]]. lra.
    + destruct Hneg as [H1 _]; [pose proof score_repeatedTerm; lra|].
      split; [exact H1|]. pose proof score_repeatedTerm. lra.
Defined.

(** C8 as stated fails when the largest raw score is not positive: the
    divisor is then 1, and the top hit keeps its raw score, here a
    negative one. *)
Lemma keywordSearchInternal_nonpositive_max :
  exists top,
    keywordSearchInternal repeatHit "dark mode" 24 repeatStore = Ok ([top], repeatStore)
    /\ cand_id top = "m1"%string
    /\ cand_score top = computeBM25Score repeatedTerm / 1
    /\ cand_score top <> 1.
Proof.
  pose proof score_repeatedTerm as Hneg.
  eexists. split; [|split; [|split]].
  - unfold keywordSearchInternal, Db.keywordSearch, normalizeKeyword, bind, requireDb, ret.
    simpl. decide_cmp. reflexivity.
  - reflexivity.
  - reflexivity.
  - simpl. lra.
Qed.

(** The same happens with a raw score 0, which [computeBM25Score] returns
    for an empty matchinfo. *)
Example normalizeKeyword_zero_max :
  computeBM25Score [] = 0
  /\ normalizeKeyword [("m1"%string, 0)]
     = [ {| cand_id := "m1"; cand_score := 0 / 1; cand_matchType := keyword |} ].
Proof.
  split; [reflexivity|]. unfold normalizeKeyword. simpl. decide_cmp. reflexivity.
Qed.

(* ================================================================== *)
(** * Merging *)
(* ================================================================== *)

Section ScoreMapFacts.

Definition keys (m : ScoreMap) : list string := map fst m.

Lemma mapGet_mapSet_same (k : string) (v : R * R) (m : ScoreMap) :
  mapGet k (mapSet k v m) = Some v.
Proof.
  induction m as [|[k' v'] m IH]; simpl.
  - now rewrite String.eqb_refl.
  - destruct (String.eqb k' k) eqn:E; simpl; now rewrite E.
Qed.

Lemma mapGet_mapSet_other (k k' : string) (v : R * R) (m : ScoreMap) :
  k <> k' -> mapGet k' (mapSet k v m) = mapGet k' m.
Proof.
  intros Hne. induction m as [|[k0 v0] m IH]; simpl.
  - destruct (String.eqb_spec k k'); [contradiction | reflexivity].
  - destruct (String.eqb_spec k0 k) as [->|E0]; simpl.
    + destruct (String.eqb_spec k k'); [contradiction | reflexivity].
    + now rewrite IH.
Qed.

Lemma mapGet_None (k : string) (m : ScoreMap) : mapGet k m = None <-> ~ In k (keys m).
Proof.
  induction m as [|[k0 v0] m IH]; simpl; [tauto|].
  destruct (String.eqb_spec k0 k) as [->|E]; [split; [discriminate | tauto]|].
  rewrite IH. tauto.
Qed.

Lemma mapGet_In (k : string) (v : R * R) (m : ScoreMap) :
  mapGet k m = Some v -> In (k, v) m.
Proof.
  induction m as [|[k0 v0] m IH]; simpl; [discriminate|].
  destruct (String.eqb_spec k0 k) as [->|E]; [intros [= ->]; now left | right; now apply IH].
Qed.

Lemma keys_mapSet (k : string) (v : R * R) (m : ScoreMap) :
  keys (mapSet k v m)
  = match mapGet k m with Some _ => keys m | None => keys m ++ [k] end.
Proof.
  induction m as [|[k0 v0] m IH]; simpl; [reflexivity|].
  destruct (String.eqb_spec k0 k) as [->|E]; simpl; [reflexivity|].
  rewrite IH. now destruct (mapGet k m).
Qed.

Lemma NoDup_keys_mapSet (k : string) (v : R * R) (m : ScoreMap) :
  NoDup (keys m) -> NoDup (keys (mapSet k v m)).
Proof.
  intros H. rewrite keys_mapSet. destruct (mapGet k m) eqn:E; [exact H|].
  apply mapGet_None in E.
  apply (Permutation_NoDup (l := k :: keys m)).
  - apply Permutation_cons_append.
  - now constructor.
Qed.

Lemma In_keys_mapSet (k k' : string) (v : R * R) (m : ScoreMap) :
  In k' (keys (mapSet k v m)) <-> k' = k \/ In k' (keys m).
Proof.
  rewrite keys_mapSet. destruct (mapGet k m) eqn:E.
  - split; [tauto|]. intros [->|H]; [|exact H].
    apply mapGet_In in E. unfold keys. apply in_map_iff. now exists (k, p).
  - rewrite in_app_iff. simpl. intuition.
Qed.

(** The score of the last candidate with id [i]: a later [set] wins. *)
Fixpoint lastScore (i : string) (l : list Candidate) : option R :=
  match l with
  | [] => None
  | r :: l' =>
      match lastScore i l' with
      | Some s => Some s
      | None => if String.eqb (cand_id r) i then Some (cand_score r) else None
      end
  end.

Lemma lastScore_None (i : string) (l : list Candidate) :
  lastScore i l = None <-> ~ In i (map cand_id l).
Proof.
  induction l as [|r l IH]; simpl; [tauto|].
  destruct (lastScore i l) eqn:E.
  - split; [discriminate|]. intros H. exfalso.
    destruct (in_dec string_dec i (map cand_id l)) as [Hin|Hnin].
    + apply H. now right.
    + apply IH in Hnin. discriminate.
  - destruct (String.eqb_spec (cand_id r) i) as [Heq|Hne].
    + split; [discriminate|]. intros H. exfalso. apply H. now left.
    + split; [|reflexivity]. intros _ [H|H]; [contradiction|].
      now apply (proj1 IH eq_refl).
Qed.

Lemma lastScore_NoDup (i : string) (l : list Candidate) (r : Candidate) :
  NoDup (map cand_id l) -> In r l -> cand_id r = i -> lastScore i l = Some (cand_score r).
Proof.
  induction l as [|r0 l IH]; simpl; [tauto|].
  intros Hnd [->|Hin] Hid; inversion Hnd as [|? ? Hnotin Hnd']; subst.
  - assert (E : lastScore (cand_id r) l = None) by now apply lastScore_None.
    now rewrite E, String.eqb_refl.
  - now rewrite (IH Hnd' Hin eq_refl).
Qed.

Lemma lastScore_In (i : string) (l : list Candidate) (s : R) :
  lastScore i l = Some s -> exists r, In r l /\ cand_id r = i /\ cand_score r = s.
Proof.
  induction l as [|r0 l IH]; simpl; [discriminate|].
  destruct (lastScore i l) as [s'|].
  - intros [= <-]. destruct (IH eq_refl) as [r [? ?]]. exists r. tauto.
  - destruct (String.eqb_spec (cand_id r0) i); [|discriminate].
    intros [= <-]. exists r0. tauto.
Qed.

(** The map after the vector results were added to [m]. *)
Lemma mapGet_addVector (V : list Candidate) (m : ScoreMap) (i : string) :
  mapGet i (fold_left addVector V m)
  = match lastScore i V with
    | Some s => Some (s, 0)
    | None => mapGet i m
    end.
Proof.
  revert m. induction V as [|r V IH]; intros m; simpl; [reflexivity|].
  rewrite IH. destruct (lastScore i V); [reflexivity|].
  unfold addVector. destruct (String.eqb_spec (cand_id r) i) as [->|E].
  - apply mapGet_mapSet_same.
  - now apply mapGet_mapSet_other.
Qed.

(** The map after the keyword results were merged into [m]. *)
Lemma mapGet_addKeyword (K : list Candidate) (m : ScoreMap) (i : string) :
  mapGet i (fold_left addKeyword K m)
  = match lastScore i K with
    | Some s => Some (match mapGet i m with Some v => fst v | None => 0 end, s)
    | None => mapGet i m
    end.
Proof.
  revert m. induction K as [|r K IH]; intros m; simpl; [reflexivity|].
  rewrite IH. unfold addKeyword.
  destruct (String.eqb_spec (cand_id r) i) as [->|E].
  - destruct (mapGet i m) as [v|]; rewrite mapGet_mapSet_same;
      now destruct (lastScore i K).
  - destruct (mapGet (cand_id r) m); rewrite (mapGet_mapSet_other _ _ _ _ E);
      now destruct (lastScore i K).
Qed.

Lemma NoDup_keys_fold (V K : list Candidate) :
  NoDup (keys (fold_left addKeyword K (fold_left addVector V []))).
Proof.
  assert (HV : forall m, NoDup (keys m) -> NoDup (keys (fold_left addVector V m))).
  { induction V as [|r V IH]; intros m Hm; simpl; [exact Hm|].
    apply IH. now apply NoDup_keys_mapSet. }
  assert (HK : forall m, NoDup (keys m) -> NoDup (keys (fold_left addKeyword K m))).
  { induction K as [|r K IH]; intros m Hm; simpl; [exact Hm|].
    apply IH. unfold addKeyword. destruct (mapGet (cand_id r) m); now apply NoDup_keys_mapSet. }
  apply HK, HV. constructor.
Qed.

Lemma In_keys_fold (V K : list Candidate) (i : string) :
  In i (keys (fold_left addKeyword K (fold_left addVector V [])))
  <-> In i (map cand_id V) \/ In i (map cand_id K).
Proof.
  assert (HV : forall m, In i (keys (fold_left addVector V m))
                         <-> In i (keys m) \/ In i (map cand_id V)).
  { induction V as [|r V IH]; intros m; simpl; [tauto|].
    rewrite IH. unfold addVector. rewrite In_keys_mapSet. intuition. }
  assert (HK : forall m, In i (keys (fold_left addKeyword K m))
                         <-> In i (keys m) \/ In i (map cand_id K)).
  { induction K as [|r K IH]; intros m; simpl; [tauto|].
    rewrite IH. unfold addKeyword.
    destruct (mapGet (cand_id r) m); rewrite In_keys_mapSet; intuition. }
  rewrite HK, HV. simpl. tauto.
Qed.

End ScoreMapFacts.

Lemma finalize_id (options : Opt.SearchOptions) (entry : string * (R * R)) :
  cand_id (finalize options entry) = fst entry.
Proof. reflexivity. Qed.

(** Membership in the merged list, by entry of the map. *)
Lemma mergeResults_In (V K : list Candidate) (options : Opt.SearchOptions) (r : Candidate) :
  In r (mergeResults V K options)
  <-> exists entry,
        In entry (fold_left addKeyword K (fold_left addVector V []))
        /\ r = finalize options entry.
Proof.
  unfold mergeResults. rewrite sortDesc_In, in_map_iff.
  split; intros [e [H1 H2]]; exists e; split; auto.
Qed.

Lemma mergeResults_entry (V K : list Candidate) (options : Opt.SearchOptions)
    (i : string) (vs ks : R) :
  mapGet i (fold_left addKeyword K (fold_left addVector V [])) = Some (vs, ks) ->
  In (finalize options (i, (vs, ks))) (mergeResults V K options).
Proof.
  intros H. apply mergeResults_In. exists (i, (vs, ks)). split; [|reflexivity].
  now apply mapGet_In.
Qed.

Lemma mergeResults_NoDup (V K : list Candidate) (options : Opt.SearchOptions) :
  NoDup (map cand_id (mergeResults V K options)).
Proof.
  unfold mergeResults.
  apply (Permutation_NoDup
           (l := map cand_id
                   (map (finalize options)
                        (fold_left addKeyword K (fold_left addVector V []))))).
  - apply Permutation_map, sortDesc_perm.
  - rewrite map_map. apply NoDup_keys_fold.
Qed.

Lemma mergeResults_sorted (V K : list Candidate) (options : Opt.SearchOptions) :
  StronglySorted (descending cand_score) (mergeResults V K options).
Proof. apply sortDesc_sorted. Qed.

(** C1, as the code has it.  For vector and keyword candidates with
    distinct ids in each set and positive vector scores (what
    [vectorSearch] returns), the merged list holds one candidate per id and:
    an id in both sets gets the score [vectorWeight * vectorScore +
    keywordWeight * keywordScore], with match type [hybrid] when its
    keyword score is positive ([vector] otherwise); an id only in the
    vector set gets [vectorWeight * vectorScore] and [vector]; an id only
    in the keyword set gets [keywordWeight * keywordScore] and [keyword].
    The weights apply to every candidate: a candidate found by one source
    only does not keep that source's score as it is. *)
Theorem mergeResults_weighted_scores (V K : list Candidate) (options : Opt.SearchOptions) :
  NoDup (map cand_id V) -> NoDup (map cand_id K) ->
  (forall v, In v V -> cand_score v > 0) ->
  NoDup (map cand_id (mergeResults V K options))
  /\ (forall r, In r (mergeResults V K options) ->
        In (cand_id r) (map cand_id V) \/ In (cand_id r) (map cand_id K))
  /\ (forall v k, In v V -> In k K -> cand_id v = cand_id k ->
        In {| cand_id := cand_id v;
              cand_score := Opt.vectorWeight options * cand_score v
                            + Opt.keywordWeight options * cand_score k;
              cand_matchType := if Rgtb (cand_score k) 0 then hybrid else vector |}
           (mergeResults V K options))
  /\ (forall v, In v V -> ~ In (cand_id v) (map cand_id K) ->
        In {| cand_id := cand_id v;
              cand_score := Opt.vectorWeight options * cand_score v;
              cand_matchType := vector |}
           (mergeResults V K options))
  /\ (forall k, In k K -> ~ In (cand_id k) (map cand_id V) ->
        In {| cand_id := cand_id k;
              cand_score := Opt.keywordWeight options * cand_score k;
              cand_matchType := keyword |}
           (mergeResults V K options)).
Proof.
  intros HV HK Hpos. split; [apply mergeResults_NoDup|]. split; [|split; [|split]].
  - intros r Hr. apply mergeResults_In in Hr. destruct Hr as [e [He ->]].
    rewrite finalize_id. apply In_keys_fold. unfold keys. now apply in_map.
  - intros v k Hv Hk Hid.
    assert (G : mapGet (cand_id v) (fold_left addKeyword K (fold_left addVector V []))
                = Some (cand_score v, cand_score k)).
    { rewrite mapGet_addKeyword, mapGet_addVector.
      rewrite (lastScore_NoDup (cand_id v) K k HK Hk (eq_sym Hid)).
      now rewrite (lastScore_NoDup (cand_id v) V v HV Hv eq_refl). }
    apply (mergeResults_entry V K options) in G.
    unfold finalize in G. simpl in G.
    rewrite (proj2 (Rgtb_true_iff (cand_score v) 0) (Hpos v Hv)) in G.
    simpl in G. exact G.
  - intros v Hv Hnk.
    assert (G : mapGet (cand_id v) (fold_left addKeyword K (fold_left addVector V []))
                = Some (cand_score v, 0)).
    { rewrite mapGet_addKeyword, mapGet_addVector.
      rewrite (proj2 (lastScore_None (cand_id v) K) Hnk).
      now rewrite (lastScore_NoDup (cand_id v) V v HV Hv eq_refl). }
    apply (mergeResults_entry V K options) in G.
    unfold finalize in G. simpl in G.
    rewrite (proj2 (Rgtb_true_iff (cand_score v) 0) (Hpos v Hv)) in G.
    rewrite (proj2 (Rgtb_false_iff 0 0)) in G by lra. simpl in G.
    replace (Opt.vectorWeight options * cand_score v)
      with (Opt.vectorWeight options * cand_score v + Opt.keywordWeight options * 0) by ring.
    exact G.
  - intros k Hk Hnv.
    assert (G : mapGet (cand_id k) (fold_left addKeyword K (fold_left addVector V []))
                = Some (0, cand_score k)).
    { rewrite mapGet_addKeyword, mapGet_addVector.
      rewrite (lastScore_NoDup (cand_id k) K k HK Hk eq_refl).
      now rewrite (proj2 (lastScore_None (cand_id k) V) Hnv). }
    apply (mergeResults_entry V K options) in G.
    unfold finalize in G. simpl in G.
    rewrite (proj2 (Rgtb_false_iff 0 0)) in G by lra. simpl in G.
    replace (Opt.keywordWeight options * cand_score k)
      with (Opt.vectorWeight options * 0 + Opt.keywordWeight options * cand_score k) by ring.
    exact G.
Qed.

(** Candidates of a query that two records match semantically and two
    lexically, one of them both ways. *)
Definition vectorHits : list Candidate :=
  [ {| cand_id := "both"; cand_score := 9 / 10; cand_matchType := vector |};
    {| cand_id := "semantic"; cand_score := 1 / 2; cand_matchType := vector |} ].

Definition keywordHits : list Candidate :=
  [ {| cand_id := "lexical"; cand_score := 1; cand_matchType := keyword |};
    {| cand_id := "both"; cand_score := 1 / 2; cand_matchType := keyword |} ].

Lemma NoDup_ids_vectorHits : NoDup (map cand_id vectorHits).
Proof.
  simpl. repeat constructor; simpl; intuition discriminate.
Qed.

Lemma NoDup_ids_keywordHits : NoDup (map cand_id keywordHits).
Proof.
  simpl. repeat constructor; simpl; intuition discriminate.
Qed.

Lemma mergeResults_weighted_scores_witness :
  NoDup (map cand_id (mergeResults vectorHits keywordHits DEFAULT_OPTIONS))
  /\ (forall r, In r (mergeResults vectorHits keywordHits DEFAULT_OPTIONS) ->
        In (cand_id r) (map cand_id vectorHits) \/ In (cand_id r) (map cand_id keywordHits))
  /\ (forall v k, In v vectorHits -> In k keywordHits -> cand_id v = cand_id k ->
        In {| cand_id := cand_id v;
              cand_score := Opt.vectorWeight DEFAULT_OPTIONS * cand_score v
                            + Opt.keywordWeight DEFAULT_OPTIONS * cand_score k;
              cand_matchType := if Rgtb (cand_score k) 0 then hybrid else vector |}
           (mergeResults vectorHits keywordHits DEFAULT_OPTIONS))
  /\ (forall v, In v vectorHits -> ~ In (cand_id v) (map cand_id keywordHits) ->
        In {| cand_id := cand_id v;
              cand_score := Opt.vectorWeight DEFAULT_OPTIONS * cand_score v;
              cand_matchType := vector |}
           (mergeResults vectorHits keywordHits DEFAULT_OPTIONS))
  /\ (forall k, In k keywordHits -> ~ In (cand_id k) (map cand_id vectorHits) ->
        In {| cand_id := cand_id k;
              cand_score := Opt.keywordWeight DEFAULT_OPTIONS * cand_score k;
              cand_matchType := keyword |}
           (mergeResults vectorHits keywordHits DEFAULT_OPTIONS)).
Proof.
  apply (mergeResults_weighted_scores vectorHits keywordHits DEFAULT_OPTIONS).
  - exact NoDup_ids_vectorHits.
  - exact NoDup_ids_keywordHits.
  - simpl. intros v [<-|[<-|[]]]; simpl; lra.
Defined.

(** The merged list of the example, in rank order. *)
Example mergeResults_example :
  exists s1 s2 s3,
    mergeResults vectorHits keywordHits DEFAULT_OPTIONS
    = [ {| cand_id := "both"; cand_score := s1; cand_matchType := hybrid |};
        {| cand_id := "semantic"; cand_score := s2; cand_matchType := vector |};
        {| cand_id := "lexical"; cand_score := s3; cand_matchType := keyword |} ]
    /\ s1 = 78 / 100 /\ s2 = 35 / 100 /\ s3 = 30 / 100.
Proof.
  eexists _, _, _. split.
  - unfold mergeResults. cbn. decide_cmp. cbn. decide_cmp. cbn.
    unfold finalize. cbn. decide_cmp. reflexivity.
  - repeat split; lra.
Qed.

(** C1 as stated fails on a candidate found by the vector search only:
    with the default weights its score 1/2 becomes 0.7 * 1/2, it does not
    keep the source's score. *)
Lemma mergeResults_single_source_is_weighted :
  exists r,
    mergeResults [ {| cand_id := "semantic"; cand_score := 1 / 2; cand_matchType := vector |} ]
                 [] DEFAULT_OPTIONS = [r]
    /\ cand_id r = "semantic"%string
    /\ cand_matchType r = vector
    /\ cand_score r = 35 / 100
    /\ cand_score r <> 1 / 2.
Proof.
  eexists. split; [|split; [|split; [|split]]].
  - unfold mergeResults. cbn. unfold finalize. cbn. decide_cmp. reflexivity.
  - reflexivity.
  - reflexivity.
  - cbn. lra.
  - cbn. lra.
Qed.

(** An id found by both searches whose keyword score is 0 is tagged
    [vector]: the match type follows the scores, not the membership. *)
Example mergeResults_zero_keyword_score :
  exists r,
    mergeResults [ {| cand_id := "both"; cand_score := 1 / 2; cand_matchType := vector |} ]
                 [ {| cand_id := "both"; cand_score := 0; cand_matchType := keyword |} ]
                 DEFAULT_OPTIONS = [r]
    /\ cand_matchType r = vector
    /\ cand_score r = 35 / 100.
Proof.
  eexists. split; [|split].
  - unfold mergeResults. cbn. unfold finalize. cbn. decide_cmp. reflexivity.
  - reflexivity.
  - cbn. lra.
Qed.

(* ================================================================== *)
(** * search *)
(* ================================================================== *)

Lemma getMemoriesByIds_opened (ids : list string) (self : MemoryDatabase) (d : SqlJsDatabase) :
  db self = Some d -> exists ms, getMemoriesByIds ids self = Ok (ms, self).
Proof.
  intros Hd. destruct ids; unfold getMemoriesByIds, bind, requireDb, ret; [eauto|].
  rewrite Hd. eauto.
Qed.

(** On an opened store [search] returns, and leaves the store as it is. *)
Lemma search_opened (embedder : EmbeddingProvider)
    (execMatch : MatchEngine)
    (query : string) (opts : PartialOptions) (self : MemoryDatabase) (d : SqlJsDatabase) :
  db self = Some d -> exists results, search embedder execMatch query opts self = Ok (results, self).
Proof.
  intros Hd. unfold search.
  set (options := withDefaults opts).
  set (limit := (Opt.maxResults options * Opt.candidateMultiplier options)%Z).
  assert (HV : exists V,
             (if Opt.vectorSearch options then vectorSearch embedder query limit else ret [])
               self = Ok (V, self)).
  { destruct (Opt.vectorSearch options); [now apply (vectorSearch_opened _ _ _ _ d)|].
    unfold ret. eauto. }
  assert (HK : exists K,
             (if Opt.keywordSearch options then keywordSearchInternal execMatch query limit
              else ret []) self = Ok (K, self)).
  { destruct (Opt.keywordSearch options); [|unfold ret; eauto].
    destruct (keywordSearch_opened execMatch query limit self d Hd) as [raw Hraw].
    rewrite (keywordSearchInternal_unfold _ _ _ _ _ _ Hraw). eauto. }
  destruct HV as [V HV], HK as [K HK].
  unfold bind at 1. rewrite HV. unfold bind at 1. rewrite HK.
  destruct (map cand_id _) as [|i ids] eqn:E; [unfold ret; eauto|].
  destruct (getMemoriesByIds_opened (i :: ids) self d Hd) as [ms Hms].
  unfold bind. rewrite Hms. unfold ret. eauto.
Qed.










(** The row of the one-term query [dark] on [planeStore]: one phrase, one
    column, three rows, four tokens on average and in the row, one hit. *)
Definition darkHit : list Z := [1; 1; 3; 4; 4; 1; 1; 1]%Z.

Definition planeHits : MatchEngine :=
  fun d expr limit => Ok [("same"%string, darkHit)].

Lemma score_darkHit : 0 < computeBM25Score darkHit.
Proof.
  unfold computeBM25Score, darkHit, phraseScore, upTo, infoAt, orDefault, orElse.
  simpl.
  pose proof (idf_positive 3 1 ltac:(lra) ltac:(lra)) as Hidf.
  remember (ln ((3 - 1 + 5 / 10) / (1 + 5 / 10) + 1)) as idf eqn:E. clear E.
  assert (E1 : (0 + idf * (1 * (12 / 10 + 1)
                           / (1 + 12 / 10 * (1 - 75 / 100 + 75 / 100 * (4 / 4))))) / (1 * 5)
               = idf * (1 / 5)) by field.
  rewrite E1. apply Rmin_glb_lt; lra.
Qed.


(** The search of the example with the default options: the record found
    both ways comes first, with the score [0.7 * 1 + 0.3 * 1]; the record
    found by the vector search only follows with [0.7 * 0.5]. *)
Example search_plane_defaults :
  exists s1 s2,
    search planeProvider planeHits "dark" noOptions planeStore
    = Ok ([ {| memory := record "same" "Alex prefers dark mode" (Some [1; 0]);
               score := s1; matchType := hybrid |};
            {| memory := record "orthogonal" "The office is in Berlin" (Some [0; 1]);
               score := s2; matchType := vector |} ],
          planeStore)
    /\ s1 = 1 /\ s2 = 35 / 100.
Proof.
  pose proof score_darkHit as Hpos.
  eexists _, _. split.
  - do 6 run_step. reflexivity.
  - split; lra.
Qed.



(** The condition on the stored vectors is needed as well: [createMemory]
    stores the embedding it is given, and a stored vector of length 2 in the
    direction of the query gets the score [0.7 * 1.5] with the default
    weights. *)
Definition longStore : MemoryDatabase :=
  openedWith [ (1%Z, record "long" "Alex prefers dark mode" (Some [2; 0])) ].

Definition vectorOnly : PartialOptions :=
  {| p_maxResults := None; p_minScore := None; p_vectorSearch := None;
     p_keywordSearch := Some false; p_vectorWeight := None; p_keywordWeight := None;
     p_category := None; p_candidateMultiplier := None |}.

Example search_stored_vector_not_unit :
  exists top,
    search planeProvider planeHits "dark" vectorOnly longStore = Ok ([top], longStore)
    /\ score top = 105 / 100.
Proof.
  eexists. split.
  - do 6 run_step. reflexivity.
  - simpl. lra.
Qed.

(* ================================================================== *)
(** * Dimension mismatch *)
(* ================================================================== *)

(** [id] is the primary key of [memories]. *)
Definition uniqueIds (d : SqlJsDatabase) : Prop :=
  NoDup (map (fun row => id (snd row)) (memories d)).

Definition storedEmbeddings (d : SqlJsDatabase) : list (string * Float32Array) :=
  flat_map (fun row =>
              match embedding (snd row) with
              | Some e => [(id (snd row), e)]
              | None => []
              end) (memories d).

Lemma getAllEmbeddings_eq (self : MemoryDatabase) (d : SqlJsDatabase) :
  db self = Some d -> getAllEmbeddings self = Ok (storedEmbeddings d, self).
Proof.
  intros Hd. unfold getAllEmbeddings, bind, requireDb, ret. now rewrite Hd.
Qed.

Lemma storedEmbeddings_ids (d : SqlJsDatabase) (i : string) :
  In i (map fst (storedEmbeddings d)) -> In i (map (fun row => id (snd row)) (memories d)).
Proof.
  unfold storedEmbeddings. induction (memories d) as [|row rows IH]; simpl; [tauto|].
  rewrite map_app, in_app_iff. intros [H|H]; [|right; now apply IH].
  destruct (embedding (snd row)); simpl in H; [|destruct H].
  destruct H as [H|[]]. now left.
Qed.

Lemma storedEmbeddings_NoDup (d : SqlJsDatabase) :
  uniqueIds d -> NoDup (map fst (storedEmbeddings d)).
Proof.
  unfold uniqueIds.
  assert (G : forall rows,
            NoDup (map (fun row : Z * MemoryRecord => id (snd row)) rows) ->
            NoDup (map fst (storedEmbeddings {| memories := rows; memories_fts := [] |}))).
  { induction rows as [|row rows IH]; simpl; [constructor|].
    intros Hnd. inversion Hnd as [|? ? Hnotin Hnd']; subst.
    unfold storedEmbeddings. simpl. rewrite map_app.
    destruct (embedding (snd row)); simpl; [|now apply IH].
    constructor; [|now apply IH].
    intros Hin. apply Hnotin.
    apply (storedEmbeddings_ids {| memories := rows; memories_fts := [] |}). exact Hin. }
  intros H. apply (G (memories d) H).
Qed.

Lemma NoDup_fst_unique {A B} (l : list (A * B)) (a : A) (b b' : B) :
  NoDup (map fst l) -> In (a, b) l -> In (a, b') l -> b = b'.
Proof.
  induction l as [|[x y] l IH]; simpl; [tauto|].
  intros Hnd H1 H2. inversion Hnd as [|? ? Hnotin Hnd']; subst.
  destruct H1 as [H1|H1], H2 as [H2|H2].
  - congruence.
  - exfalso. apply Hnotin. inversion H1; subst. apply in_map_iff. now exists (a, b').
  - exfalso. apply Hnotin. inversion H2; subst. apply in_map_iff. now exists (a, b).
  - now apply IH.
Qed.

(** The duplicate scan passes over a stored vector of another length,
    wherever it stands. *)
Lemma duplicateFound_skips_mismatch (threshold : R) (emb : Float32Array)
    (e : string * Float32Array) (before rest : list (string * Float32Array)) :
  List.length (snd e) <> List.length emb ->
  duplicateFound threshold emb (before ++ e :: rest)
  = duplicateFound threshold emb (before ++ rest).
Proof.
  intros Hlen. induction before as [|x before IH]; simpl.
  - rewrite cosineSimilarity_mismatch by congruence. reflexivity.
  - rewrite IH. reflexivity.
Qed.

Lemma duplicateFound_true (threshold : R) (emb : Float32Array)
    (all : list (string * Float32Array)) :
  duplicateFound threshold emb all = true
  <-> exists ex sim, In ex all /\ cosineSimilarity emb (snd ex) = Ok sim
                     /\ (sim + 1) / 2 >= threshold.
Proof.
  induction all as [|x all IH]; simpl.
  - split; [discriminate | intros [ex [sim [[] _]]]].
  - destruct (cosineSimilarity emb (snd x)) as [sim|err] eqn:E.
    + destruct (Rgeb ((sim + 1) / 2) threshold) eqn:G.
      * apply Rgeb_true_iff in G. split; [intros _|reflexivity].
        exists x, sim. tauto.
      * apply Rgeb_false_iff in G. rewrite IH. split.
        -- intros [ex [s [Hin H]]]. exists ex, s. tauto.
        -- intros [ex [s [[<-|Hin] [Hc Hs]]]].
           ++ rewrite E in Hc. injection Hc as <-. lra.
           ++ exists ex, s. tauto.
    + rewrite IH. split.
      * intros [ex [s [Hin H]]]. exists ex, s. tauto.
      * intros [ex [s [[<-|Hin] [Hc Hs]]]]; [congruence|]. exists ex, s. tauto.
Qed.

(** [createMemory] when it returns. *)
Lemma createMemory_Ok (uuid : string) (now : Z) (input : CreateMemoryInput)
    (self self1 : MemoryDatabase) (i : string) :
  createMemory uuid now input self = Ok (i, self1) ->
  exists d row,
    db self = Some d /\ selectById d uuid = [] /\ i = uuid
    /\ id row = uuid /\ embedding row = c_embedding input
    /\ self1 = {| db := Some {| memories := memories d ++ [(nextRowid d, row)];
                                memories_fts := memories_fts d
                                                ++ [(nextRowid d, c_content input)] |};
                  dirty := true; file := file self |}.
Proof.
  unfold createMemory, bind, requireDb. destruct (db self) as [d|] eqn:Hd; [|discriminate].
  destruct (selectById d uuid) eqn:Hsel; [|discriminate].
  unfold setDb, setDirty, ret. simpl. intros [= <- <-].
  eexists d, _. repeat split; try reflexivity. exact Hsel.
Qed.

(** The only exceptions of [createMemory]. *)
Lemma createMemory_Throw (uuid : string) (now : Z) (input : CreateMemoryInput)
    (self : MemoryDatabase) (err : JsError) :
  createMemory uuid now input self = Throw err -> err = NotOpened \/ err = ConstraintFailed.
Proof.
  unfold createMemory, bind, requireDb. destruct (db self) as [d|]; [|intros [= <-]; now left].
  destruct (selectById d uuid); [discriminate | intros [= <-]; now right].
Qed.

Lemma storeWithDeduplication_Throw (embedder : EmbeddingProvider) (config : CaptureConfig)
    (uuid : string) (now : Z) (memory : ExtractedMemory) (sessionId : string)
    (self : MemoryDatabase) (err : JsError) :
  storeWithDeduplication embedder config uuid now memory sessionId self = Throw err ->
  err = NotOpened \/ err = ConstraintFailed.
Proof.
  unfold storeWithDeduplication. destruct (embed embedder (e_content memory)) as [emb|_].
  - unfold bind at 1. unfold getAllEmbeddings, bind at 1, requireDb, ret.
    destruct (db self) as [d|] eqn:Hd; [|intros [= <-]; now left].
    destruct (duplicateFound _ _ _); [discriminate|].
    unfold bind. destruct (createMemory uuid now _ _) as [[i s]|e] eqn:Hc; [discriminate|].
    intros [= <-]. now apply createMemory_Throw in Hc.
  - unfold bind. destruct (createMemory uuid now _ self) as [[i s]|e] eqn:Hc; [discriminate|].
    intros [= <-]. now apply createMemory_Throw in Hc.
Qed.

Lemma selectById_nil (d : SqlJsDatabase) (i : string) :
  selectById d i = [] -> ~ In i (map (fun row => id (snd row)) (memories d)).
Proof.
  unfold selectById. induction (memories d) as [|row rows IH]; simpl; [tauto|].
  unfold hasId at 1. destruct (String.eqb_spec (id (snd row)) i) as [E|E]; [discriminate|].
  intros H [Hin|Hin]; [contradiction | now apply IH].
Qed.

(** [createMemory] keeps the ids unique: it throws on an id already stored. *)
Lemma createMemory_uniqueIds (uuid : string) (now : Z) (input : CreateMemoryInput)
    (self self1 : MemoryDatabase) (d : SqlJsDatabase) (i : string) :
  db self = Some d -> uniqueIds d ->
  createMemory uuid now input self = Ok (i, self1) ->
  exists d1, db self1 = Some d1 /\ uniqueIds d1.
Proof.
  intros Hd Hu Hc. apply createMemory_Ok in Hc.
  destruct Hc as [d' [row [Hd' [Hsel [_ [Hid [_ ->]]]]]]].
  rewrite Hd in Hd'. injection Hd' as <-.
  eexists. split; [reflexivity|]. unfold uniqueIds in *. simpl.
  rewrite map_app. simpl.
  apply (Permutation_NoDup (l := id row :: map (fun r => id (snd r)) (memories d))).
  - apply Permutation_cons_append.
  - constructor; [|exact Hu]. rewrite Hid. now apply selectById_nil.
Qed.

Lemma NoDup_map_filter {A B} (f : A -> B) (keep : A -> bool) (l : list A) :
  NoDup (map f l) -> NoDup (map f (filter keep l)).
Proof.
  induction l as [|x l IH]; simpl; [constructor|].
  intros Hnd. inversion Hnd as [|? ? Hnotin Hnd']; subst.
  destruct (keep x); simpl; [|now apply IH].
  constructor; [|now apply IH].
  intros Hin. apply Hnotin. apply in_map_iff in Hin. destruct Hin as [y [Hy Hin]].
  apply filter_In in Hin. apply in_map_iff. exists y. tauto.
Qed.

Lemma NoDup_firstn {A} (n : nat) (l : list A) : NoDup l -> NoDup (firstn n l).
Proof.
  revert n. induction l as [|x l IH]; intros [|n] Hnd; simpl; try constructor.
  - inversion Hnd as [|? ? Hnotin Hnd']; subst. intros Hin. apply Hnotin.
    now apply firstn_In in Hin.
  - inversion Hnd; subst. now apply IH.
Qed.

(** On a store with unique ids the vector candidates have distinct ids. *)
Lemma vectorSearch_NoDup (embedder : EmbeddingProvider) (query : string) (limit : Z)
    (self self' : MemoryDatabase) (d : SqlJsDatabase) (rs : list Candidate) :
  db self = Some d -> uniqueIds d ->
  vectorSearch embedder query limit self = Ok (rs, self') ->
  NoDup (map cand_id rs).
Proof.
  intros Hd Hu Hv. unfold vectorSearch in Hv.
  destruct (embed embedder query) as [q|err]; [|injection Hv as <- _; constructor].
  unfold bind in Hv. rewrite (getAllEmbeddings_eq self d Hd) in Hv.
  destruct (storedEmbeddings d) as [|e0 all] eqn:Hall; [injection Hv as <- _; constructor|].
  rewrite <- Hall in Hv. unfold ret in Hv. injection Hv as <- _.
  unfold slice0.
  assert (G : NoDup (map cand_id
                       (sortDesc cand_score
                          (filter (fun r => Rgtb (cand_score r) 0)
                                  (map (scoreEmbedding q) (storedEmbeddings d)))))).
  { apply (Permutation_NoDup
             (l := map cand_id (filter (fun r => Rgtb (cand_score r) 0)
                                       (map (scoreEmbedding q) (storedEmbeddings d))))).
    - apply Permutation_map, sortDesc_perm.
    - apply NoDup_map_filter. rewrite map_map.
      rewrite (map_ext _ fst (scoreEmbedding_id q)).
      now apply storedEmbeddings_NoDup. }
  destruct (limit <? 0)%Z; rewrite <- firstn_map; now apply NoDup_firstn.
Qed.

(** C9: a stored embedding [e] whose length differs from the length of
    the query vector [q] raises nothing.  On an opened store with unique
    ids: [search] returns; the mismatched pair is given the score 0 and its
    id is not among the vector candidates; and in the duplicate scan of
    capture, against a candidate embedding of another length, the pair is
    passed over, the scan going on as if it were not stored. *)
Theorem dimension_mismatch_is_silent (embedder : EmbeddingProvider)
    (execMatch : MatchEngine)
    (query : string) (opts : PartialOptions) (limit : Z)
    (self : MemoryDatabase) (d : SqlJsDatabase) (q : Float32Array)
    (e : string * Float32Array) :
  db self = Some d -> uniqueIds d ->
  embed embedder query = Ok q ->
  In e (storedEmbeddings d) ->
  List.length (snd e) <> List.length q ->
  (exists results, search embedder execMatch query opts self = Ok (results, self))
  /\ cand_score (scoreEmbedding q e) = 0
  /\ (exists rs, vectorSearch embedder query limit self = Ok (rs, self)
                 /\ ~ In (fst e) (map cand_id rs))
  /\ (forall threshold before rest,
        duplicateFound threshold q (before ++ e :: rest)
        = duplicateFound threshold q (before ++ rest)).
Proof.
  intros Hd Hu He Hin Hlen.
  assert (Hlen' : List.length q <> List.length (snd e)) by congruence.
  split; [now apply (search_opened _ _ _ _ _ d)|].
  split; [now apply scoreEmbedding_mismatch|].
  split; [|intros; now apply duplicateFound_skips_mismatch].
  eexists. split.
  - apply (vectorSearch_unfold embedder query limit self q (storedEmbeddings d) He).
    now apply getAllEmbeddings_eq.
  - intros Hr. apply in_map_iff in Hr. destruct Hr as [r [Hid Hr]].
    apply slice0_incl, sortDesc_In, filter_In in Hr. destruct Hr as [Hr Hpos].
    apply in_map_iff in Hr. destruct Hr as [e' [<- He']].
    rewrite scoreEmbedding_id in Hid.
    assert (E : snd e' = snd e).
    { apply (NoDup_fst_unique (storedEmbeddings d) (fst e));
        [now apply storedEmbeddings_NoDup | | now destruct e].
      rewrite <- Hid. now destruct e'. }
    apply Rgtb_true_iff in Hpos.
    rewrite scoreEmbedding_mismatch in Hpos by congruence. lra.
Qed.

(** A store holding a 3-dimensional embedding, searched with the plane
    provider. *)
Definition mixedRows : list (Z * MemoryRecord) :=
  [ (1%Z, record "old-model" "Sam uses a light theme" (Some [1; 0; 0]));
    (2%Z, record "same" "Alex prefers dark mode" (Some [1; 0])) ].

Definition mixedStore : MemoryDatabase := openedWith mixedRows.

Lemma dimension_mismatch_is_silent_witness :
  (exists results, search planeProvider planeHits "dark" noOptions mixedStore
                   = Ok (results, mixedStore))
  /\ cand_score (scoreEmbedding [1; 0] ("old-model"%string, [1; 0; 0])) = 0
  /\ (exists rs, vectorSearch planeProvider "dark" 24 mixedStore = Ok (rs, mixedStore)
                 /\ ~ In "old-model"%string (map cand_id rs))
  /\ (forall threshold before rest,
        duplicateFound threshold [1; 0] (before ++ ("old-model"%string, [1; 0; 0]) :: rest)
        = duplicateFound threshold [1; 0] (before ++ rest)).
Proof.
  apply (dimension_mismatch_is_silent planeProvider planeHits "dark" noOptions 24
           mixedStore (tablesOf mixedRows) [1; 0] ("old-model"%string, [1; 0; 0])).
  - reflexivity.
  - unfold uniqueIds. simpl. repeat constructor; simpl; intuition discriminate.
  - reflexivity.
  - simpl. now left.
  - simpl. discriminate.
Defined.

Example search_mixedStore :
  exists s,
    search planeProvider planeHits "dark" noOptions mixedStore
    = Ok ([ {| memory := record "same" "Alex prefers dark mode" (Some [1; 0]);
               score := s; matchType := hybrid |} ],
          mixedStore)
    /\ s = 1.
Proof.
  pose proof score_darkHit as Hpos.
  eexists. split.
  - do 6 run_step. reflexivity.
  - lra.
Qed.

(* ================================================================== *)
(** * Capture: deduplication *)
(* ================================================================== *)

Lemma countMemories_all (self : MemoryDatabase) (d : SqlJsDatabase) :
  db self = Some d ->
  countMemories None self = Ok (Z.of_nat (List.length (memories d)), self).
Proof.
  intros Hd. unfold countMemories, bind, requireDb, ret. rewrite Hd.
  do 3 f_equal. induction (memories d); simpl; congruence.
Qed.

Lemma storedEmbeddings_app (rows : list (Z * MemoryRecord)) (fts fts' : list (Z * string))
    (rowid : Z) (row : MemoryRecord) (e : Float32Array) :
  embedding row = Some e ->
  storedEmbeddings {| memories := rows ++ [(rowid, row)]; memories_fts := fts' |}
  = storedEmbeddings {| memories := rows; memories_fts := fts |} ++ [(id row, e)].
Proof.
  intros He. unfold storedEmbeddings. simpl. rewrite flat_map_app. simpl.
  now rewrite He.
Qed.

(** A candidate whose embedding is near a stored one is rejected. *)
Lemma storeWithDeduplication_rejects (embedder : EmbeddingProvider) (config : CaptureConfig)
    (uuid : string) (now : Z) (memory : ExtractedMemory) (sessionId : string)
    (self : MemoryDatabase) (d : SqlJsDatabase) (emb : Float32Array) :
  embed embedder (e_content memory) = Ok emb ->
  db self = Some d ->
  duplicateFound (deduplicationThreshold config) emb (storedEmbeddings d) = true ->
  storeWithDeduplication embedder config uuid now memory sessionId self = Ok (None, self).
Proof.
  intros He Hd Hdup. unfold storeWithDeduplication. rewrite He.
  unfold bind at 1. rewrite (getAllEmbeddings_eq self d Hd). now rewrite Hdup.
Qed.

(** What a first capture that stores leaves behind. *)
Lemma storeWithDeduplication_stored (embedder : EmbeddingProvider) (config : CaptureConfig)
    (uuid : string) (now : Z) (memory : ExtractedMemory) (sessionId : string)
    (self self1 : MemoryDatabase) (emb : Float32Array) (i : string) :
  embed embedder (e_content memory) = Ok emb ->
  storeWithDeduplication embedder config uuid now memory sessionId self = Ok (Some i, self1) ->
  exists d d1,
    db self = Some d /\ db self1 = Some d1
    /\ storedEmbeddings d1 = storedEmbeddings d ++ [(uuid, emb)]
    /\ List.length (memories d1) = S (List.length (memories d)).
Proof.
  intros He. unfold storeWithDeduplication. rewrite He.
  unfold bind at 1. unfold getAllEmbeddings, bind at 1, requireDb, ret.
  destruct (db self) as [d|] eqn:Hd; [|discriminate].
  destruct (duplicateFound _ _ _); [discriminate|].
  unfold bind.
  destruct (createMemory uuid now _ self) as [[i' s]|] eqn:Hc; [|discriminate].
  intros [= <- <-].
  apply createMemory_Ok in Hc.
  destruct Hc as [d' [row [Hd' [_ [_ [Hid [Hemb ->]]]]]]].
  rewrite Hd in Hd'. injection Hd' as <-. simpl in Hemb.
  eexists d, _. split; [reflexivity|]. split; [reflexivity|]. split.
  - rewrite (storedEmbeddings_app _ (memories_fts d) _ _ row emb Hemb). rewrite Hid.
    now destruct d.
  - simpl. rewrite length_app. simpl. lia.
Qed.

(** C5, as the code has it.  With the candidate's content embedded as
    [emb]: (1) when some stored embedding of the same dimension has a
    remapped cosine similarity with [emb] that reaches the threshold, the
    candidate is rejected: no id is returned and the store is unchanged;
    (2) when the remapped similarity of [emb] with itself reaches the
    threshold (a unit-length embedding and a threshold of at most 1), a
    capture that stored the content is followed by a rejection of the same
    content: the second attempt returns no id and the store holds exactly
    one record more than before the first. *)
Theorem capture_rejects_near_duplicates (embedder : EmbeddingProvider) (config : CaptureConfig)
    (memory : ExtractedMemory) (emb : Float32Array) :
  embed embedder (e_content memory) = Ok emb ->
  (forall uuid now sessionId self d,
      db self = Some d ->
      (exists ex sim, In ex (storedEmbeddings d)
                      /\ cosineSimilarity emb (snd ex) = Ok sim
                      /\ (sim + 1) / 2 >= deduplicationThreshold config) ->
      storeWithDeduplication embedder config uuid now memory sessionId self = Ok (None, self))
  /\ ((dotLoop 0 emb emb + 1) / 2 >= deduplicationThreshold config ->
      forall uuid1 now1 session1 uuid2 now2 session2 self self1 i,
        storeWithDeduplication embedder config uuid1 now1 memory session1 self
        = Ok (Some i, self1) ->
        storeWithDeduplication embedder config uuid2 now2 memory session2 self1
        = Ok (None, self1)
        /\ exists n, countMemories None self = Ok (n, self)
                     /\ countMemories None self1 = Ok ((n + 1)%Z, self1)).
Proof.
  intros He. split.
  - intros uuid now sessionId self d Hd Hnear.
    apply (storeWithDeduplication_rejects _ _ _ _ _ _ _ d emb He Hd).
    now apply duplicateFound_true.
  - intros Hself uuid1 now1 session1 uuid2 now2 session2 self self1 i H1.
    destruct (storeWithDeduplication_stored _ _ _ _ _ _ _ _ emb _ He H1)
      as [d [d1 [Hd [Hd1 [Hst Hlen]]]]].
    split.
    + apply (storeWithDeduplication_rejects _ _ _ _ _ _ _ d1 emb He Hd1).
      apply duplicateFound_true. exists (uuid1, emb), (dotLoop 0 emb emb).
      split; [rewrite Hst; apply in_or_app; right; now left|].
      split; [now apply cosineSimilarity_match | exact Hself].
    + exists (Z.of_nat (List.length (memories d))).
      rewrite (countMemories_all self d Hd), (countMemories_all self1 d1 Hd1), Hlen.
      split; [reflexivity|]. do 2 f_equal. lia.
Qed.

Definition darkMode : ExtractedMemory :=
  {| e_content := "Alex prefers dark mode"; e_category := preference;
     e_confidence := 9 / 10; e_tags := [] |}.

Lemma capture_rejects_near_duplicates_witness :
  storeWithDeduplication planeProvider DEFAULT_CAPTURE_CONFIG "id-9" 2000 darkMode "session"
    planeStore = Ok (None, planeStore)
  /\ exists self1,
       storeWithDeduplication planeProvider DEFAULT_CAPTURE_CONFIG "id-1" 2000 darkMode
         "session" emptyStore = Ok (Some "id-1"%string, self1)
       /\ storeWithDeduplication planeProvider DEFAULT_CAPTURE_CONFIG "id-2" 3000 darkMode
            "session" self1 = Ok (None, self1)
       /\ exists n, countMemories None emptyStore = Ok (n, emptyStore)
                    /\ countMemories None self1 = Ok ((n + 1)%Z, self1).
Proof.
  destruct (capture_rejects_near_duplicates planeProvider DEFAULT_CAPTURE_CONFIG darkMode
              [1; 0] eq_refl) as [Hnear Htwice].
  split.
  - apply (Hnear "id-9"%string 2000%Z "session"%string planeStore (tablesOf planeRows)
             eq_refl).
    exists ("same"%string, [1; 0]), (0 + 1 * 1 + 0 * 0).
    split; [simpl; tauto|]. split; [reflexivity|]. simpl. lra.
  - eexists. split; [reflexivity|].
    apply (Htwice ltac:(simpl; lra) "id-1"%string 2000%Z "session"%string
             "id-2"%string 3000%Z "session"%string emptyStore _ "id-1"%string eq_refl).
Defined.

(** ** The same content twice, with the reference provider *)

Lemma dotLoop_zeros (n : nat) (v : Float32Array) : dotLoop 0 (repeat 0 n) v = 0.
Proof.
  revert v. induction n as [|n IH]; intros [|y v]; simpl; try reflexivity.
  replace (0 + 0 * y) with 0 by ring. apply IH.
Qed.

Lemma hashToVector_blank (dimensions : nat) (text : string) :
  trim (toLowerCase text) = EmptyString -> hashToVector dimensions text = repeat 0 dimensions.
Proof.
  intros H. unfold hashToVector. now rewrite H.
Qed.

(** A capture that finds no duplicate stores the candidate. *)
Lemma storeWithDeduplication_stores (embedder : EmbeddingProvider) (config : CaptureConfig)
    (uuid : string) (now : Z) (memory : ExtractedMemory) (sessionId : string)
    (self : MemoryDatabase) (d : SqlJsDatabase) (emb : Float32Array) :
  embed embedder (e_content memory) = Ok emb ->
  db self = Some d ->
  duplicateFound (deduplicationThreshold config) emb (storedEmbeddings d) = false ->
  absent uuid d ->
  exists d1,
    storeWithDeduplication embedder config uuid now memory sessionId self
    = Ok (Some uuid, {| db := Some d1; dirty := true; file := file self |})
    /\ storedEmbeddings d1 = storedEmbeddings d ++ [(uuid, emb)]
    /\ List.length (memories d1) = S (List.length (memories d))
    /\ (forall i, i <> uuid -> absent i d -> absent i d1).
Proof.
  intros He Hd Hdup Hab. unfold storeWithDeduplication. rewrite He.
  unfold bind at 1. rewrite (getAllEmbeddings_eq self d Hd), Hdup.
  unfold bind, createMemory, bind, requireDb. rewrite Hd.
  rewrite (selectById_absent d uuid Hab). unfold setDb, setDirty, ret. simpl.
  eexists. split; [reflexivity|]. split; [|split].
  - erewrite (storedEmbeddings_app _ (memories_fts d)); [|reflexivity]. simpl.
    now destruct d.
  - simpl. rewrite length_app. simpl. lia.
  - intros i Hne Hi row Hrow. simpl in Hrow. apply in_app_or in Hrow.
    destruct Hrow as [Hrow|[<-|[]]]; [now apply Hi | simpl; congruence].
Qed.

Definition blank : ExtractedMemory :=
  {| e_content := EmptyString; e_category := other; e_confidence := 6 / 10; e_tags := [] |}.

(** C5 as stated fails for a content the provider embeds as a vector that
    is not of unit length.  The reference provider embeds the empty text as
    the zero vector, whose remapped similarity with itself is 1/2, below the
    default threshold 0.90: the empty content captured twice is stored
    twice, and the second attempt returns an id. *)
Lemma capture_of_blank_content_twice :
  exists self1 self2,
    storeWithDeduplication (SimpleHashEmbeddingProvider 128) DEFAULT_CAPTURE_CONFIG
      "id-1" 1000 blank "session" emptyStore = Ok (Some "id-1"%string, self1)
    /\ storeWithDeduplication (SimpleHashEmbeddingProvider 128) DEFAULT_CAPTURE_CONFIG
         "id-2" 2000 blank "session" self1 = Ok (Some "id-2"%string, self2)
    /\ countMemories None self2 = Ok (2%Z, self2).
Proof.
  assert (He : embed (SimpleHashEmbeddingProvider 128) (e_content blank)
               = Ok (repeat 0 128)).
  { change (Ok (hashToVector 128 EmptyString) = Ok (repeat 0 128)).
    now rewrite hashToVector_blank. }
  destruct (storeWithDeduplication_stores (SimpleHashEmbeddingProvider 128)
              DEFAULT_CAPTURE_CONFIG "id-1" 1000 blank "session" emptyStore
              {| memories := []; memories_fts := [] |} (repeat 0 128) He eq_refl)
    as [d1 [H1 [Hst1 [Hlen1 Hab1]]]].
  { reflexivity. }
  { intros row []. }
  destruct (storeWithDeduplication_stores (SimpleHashEmbeddingProvider 128)
              DEFAULT_CAPTURE_CONFIG "id-2" 2000 blank "session"
              {| db := Some d1; dirty := true; file := file emptyStore |}
              d1 (repeat 0 128) He eq_refl)
    as [d2 [H2 [Hst2 [Hlen2 _]]]].
  { rewrite Hst1. cbn [storedEmbeddings flat_map memories app duplicateFound snd].
    rewrite cosineSimilarity_match by reflexivity.
    rewrite dotLoop_zeros. cbn [deduplicationThreshold DEFAULT_CAPTURE_CONFIG].
    decide_cmp. reflexivity. }
  { apply Hab1; [discriminate | intros row []]. }
  eexists _, _. split; [exact H1|]. split; [exact H2|].
  rewrite (countMemories_all _ d2) by reflexivity. rewrite Hlen2, Hlen1. reflexivity.
Qed.

(* ================================================================== *)
(** * The reference embedding provider *)
(* ================================================================== *)

(** ** Rounding to binary32 *)

Lemma roundHalfEven_error (y : R) : Rabs (IZR (roundHalfEven y) - y) <= 1 / 2.
Proof.
  unfold roundHalfEven.
  destruct (base_Int_part y) as [H1 H2].
  set (n := Int_part y) in *.
  destruct (Rlt_dec (y - IZR n) (1 / 2)) as [Hlt|Hge].
  - apply Rabs_le. lra.
  - destruct (Rlt_dec (1 / 2) (y - IZR n)) as [Hgt|Hle].
    + rewrite plus_IZR. apply Rabs_le. lra.
    + destruct (Z.even n); [|rewrite plus_IZR]; apply Rabs_le; lra.
Qed.

Lemma powerRZ_two_le (e : Z) (x : R) :
  x <> 0 -> (e <= Int_part (ln (Rabs x) / ln 2))%Z -> powerRZ 2 e <= Rabs x.
Proof.
  intros Hx He.
  assert (Hpos : 0 < Rabs x) by now apply Rabs_pos_lt.
  assert (Hln2 : 0 < ln 2) by (rewrite <- ln_1; apply ln_increasing; lra).
  destruct (base_Int_part (ln (Rabs x) / ln 2)) as [H1 _].
  apply IZR_le in He.
  assert (H : IZR e * ln 2 <= ln (Rabs x)).
  { apply (Rmult_le_compat_r (ln 2)) in H1; [|lra].
    apply (Rmult_le_compat_r (ln 2)) in He; [|lra].
    unfold Rdiv in H1. rewrite Rmult_assoc, Rinv_l, Rmult_1_r in H1 by lra. lra. }
  rewrite powerRZ_Rpower by lra. unfold Rpower.
  pose proof (exp_ln (Rabs x) Hpos) as Hexp.
  rewrite <- Hexp at 1. clear Hexp.
  destruct H as [H|H]; [left; now apply exp_increasing | right; now rewrite H].
Qed.

(** The two constants of the binary32 format: half the distance between
    neighbouring values, relative to the number rounded, and half the
    distance between the values next to 0. *)
Definition epsilon32 : R := / 2 ^ 24.
Definition eta32 : R := / 2 ^ 150.

Lemma epsilon32_pos : 0 < epsilon32.
Proof. unfold epsilon32. apply Rinv_0_lt_compat, pow_lt. lra. Qed.

Lemma eta32_pos : 0 < eta32.
Proof. unfold eta32. apply Rinv_0_lt_compat, pow_lt. lra. Qed.

Lemma half_ulp (x : R) :
  x <> 0 -> powerRZ 2 (exponent x - 24) <= epsilon32 * Rabs x + eta32.
Proof.
  intros Hx. pose proof epsilon32_pos as He. pose proof eta32_pos as Ht.
  assert (Hpos : 0 < Rabs x) by now apply Rabs_pos_lt.
  unfold exponent.
  destruct (Z.max_spec (Int_part (ln (Rabs x) / ln 2)) (-126)) as [[Hlt ->]|[Hge ->]].
  - change (-126 - 24)%Z with (-150)%Z.
    change (powerRZ 2 (-150)) with eta32. nra.
  - unfold Z.sub. rewrite powerRZ_add by lra.
    change (powerRZ 2 (- (24))) with epsilon32.
    pose proof (powerRZ_two_le _ x Hx (Z.le_refl _)) as H. nra.
Qed.

(** The error of a store into a [Float32Array] slot. *)
Lemma fround_error (x : R) : Rabs (fround x - x) <= epsilon32 * Rabs x + eta32.
Proof.
  pose proof epsilon32_pos as He. pose proof eta32_pos as Ht.
  unfold fround. destruct (Req_dec_T x 0) as [->|Hx].
  - rewrite Rminus_0_r, Rabs_R0. lra.
  - set (e := exponent x).
    assert (Hu : 0 < powerRZ 2 (e - 23)) by (apply powerRZ_lt; lra).
    set (ulp := powerRZ 2 (e - 23)) in *.
    pose proof (roundHalfEven_error (x / ulp)) as Hr.
    replace (IZR (roundHalfEven (x / ulp)) * ulp - x)
      with ((IZR (roundHalfEven (x / ulp)) - x / ulp) * ulp) by (field; lra).
    rewrite Rabs_mult, (Rabs_pos_eq ulp) by lra.
    assert (Hh : ulp * (1 / 2) = powerRZ 2 (e - 24)).
    { unfold ulp. replace (e - 24)%Z with ((e - 23) + (-1))%Z by lia.
      rewrite powerRZ_add by lra. simpl. lra. }
    pose proof (half_ulp x Hx) as Hb. fold e in Hb. nra.
Qed.

Lemma fround_zero : fround 0 = 0.
Proof. unfold fround. now destruct (Req_dec_T 0 0). Qed.

(** A number that is not tiny is not rounded to 0. *)
Lemma fround_nonzero (x : R) : / 2 ^ 100 <= Rabs x -> fround x <> 0.
Proof.
  intros Hx E. pose proof (fround_error x) as H. rewrite E in H.
  rewrite Rminus_0_l, Rabs_Ropp in H.
  unfold epsilon32, eta32 in H.
  assert (H24 : / 2 ^ 24 <= 1 / 2) by lra.
  assert (H150 : / 2 ^ 150 < / 2 ^ 100 * (1 / 2)) by lra.
  assert (0 <= Rabs x) by apply Rabs_pos. nra.
Qed.

(** ** Lengths of vectors *)

(** The Euclidean length of a vector, as the tests compute it. *)
Definition magnitude (vec : Float32Array) : R := sqrt (sumSquares vec).

Lemma sumSquares_from (vec : Float32Array) (acc : R) :
  fold_left (fun m x => m + x * x) vec acc = acc + sumSquares vec.
Proof.
  unfold sumSquares. revert acc. induction vec as [|x vec IH]; intros acc; simpl; [lra|].
  rewrite (IH (acc + x * x)), (IH (0 + x * x)). lra.
Qed.

Lemma sumSquares_cons (x : R) (vec : Float32Array) :
  sumSquares (x :: vec) = x * x + sumSquares vec.
Proof.
  unfold sumSquares at 1. simpl. rewrite sumSquares_from. lra.
Qed.

Lemma sumSquares_nonneg (vec : Float32Array) : 0 <= sumSquares vec.
Proof.
  induction vec as [|x vec IH]; [unfold sumSquares; simpl; lra|].
  rewrite sumSquares_cons. nra.
Qed.

Lemma sumSquares_zeros (n : nat) : sumSquares (repeat 0 n) = 0.
Proof.
  induction n as [|n IH]; [reflexivity|].
  simpl. rewrite sumSquares_cons, IH. lra.
Qed.

Lemma sumSquares_scaled (m : R) (vec : Float32Array) :
  m <> 0 -> sumSquares (map (fun x => x / m) vec) = sumSquares vec / (m * m).
Proof.
  intros Hm. induction vec as [|x vec IH]; simpl.
  - unfold sumSquares. simpl. field. exact Hm.
  - rewrite !sumSquares_cons, IH. field. exact Hm.
Qed.


Lemma sumSquares_In (vec : Float32Array) (x : R) : In x vec -> x * x <= sumSquares vec.
Proof.
  induction vec as [|y vec IH]; [intros []|].
  rewrite sumSquares_cons. pose proof (sumSquares_nonneg vec).
  intros [->|H1]; [nra | specialize (IH H1); nra].
Qed.

Section Norms.
Context {A : Type}.

(** The sum of the products of two families of numbers. *)
Definition crossSum (f g : A -> R) (l : list A) : R :=
  fold_right (fun x acc => f x * g x + acc) 0 l.

Lemma sumSquares_map_cons (f : A -> R) (x : A) (l : list A) :
  sumSquares (map f (x :: l)) = f x * f x + sumSquares (map f l).
Proof. simpl. apply sumSquares_cons. Qed.

(** The inequality of Cauchy and Schwarz. *)
Lemma crossSum_squared (f g : A -> R) (l : list A) :
  crossSum f g l * crossSum f g l <= sumSquares (map f l) * sumSquares (map g l).
Proof.
  induction l as [|x l IH].
  - unfold sumSquares. simpl. lra.
  - rewrite !sumSquares_map_cons. simpl crossSum.
    pose proof (sumSquares_nonneg (map f l)) as HA.
    pose proof (sumSquares_nonneg (map g l)) as HB.
    set (a := f x) in *. set (b := g x) in *.
    set (S0 := crossSum f g l) in *.
    set (SA := sumSquares (map f l)) in *. set (SB := sumSquares (map g l)) in *.
    assert (K : 2 * a * b * S0 <= a * a * SB + b * b * SA).
    { destruct (Rle_lt_or_eq_dec 0 SB HB) as [Hpos|Hz].
      - pose proof (Rle_0_sqr (a * SB - b * S0)) as Hsq. unfold Rsqr in Hsq.
        assert (H1 : 2 * a * b * S0 * SB <= (a * a * SB + b * b * SA) * SB) by nra.
        apply (Rmult_le_reg_r SB); [exact Hpos | exact H1].
      - rewrite <- Hz in *. assert (S0 = 0) by nra. subst S0. nra. }
    nra.
Qed.

Lemma sumSquares_sum (f g : A -> R) (l : list A) :
  sumSquares (map (fun x => f x + g x) l)
  = sumSquares (map f l) + 2 * crossSum f g l + sumSquares (map g l).
Proof.
  induction l as [|x l IH].
  - unfold sumSquares. simpl. lra.
  - rewrite !sumSquares_map_cons, IH. simpl. lra.
Qed.

(** The triangle inequality. *)
Lemma magnitude_sum (f g : A -> R) (l : list A) :
  magnitude (map (fun x => f x + g x) l) <= magnitude (map f l) + magnitude (map g l).
Proof.
  unfold magnitude.
  pose proof (sumSquares_nonneg (map f l)) as HA.
  pose proof (sumSquares_nonneg (map g l)) as HB.
  pose proof (sqrt_pos (sumSquares (map f l))) as Ha.
  pose proof (sqrt_pos (sumSquares (map g l))) as Hb.
  rewrite <- (sqrt_Rsqr (sqrt (sumSquares (map f l)) + sqrt (sumSquares (map g l))))
    by lra.
  apply sqrt_le_1_alt. rewrite sumSquares_sum. unfold Rsqr.
  pose proof (crossSum_squared f g l) as Hcs.
  pose proof (sqrt_sqrt _ HA) as Ea. pose proof (sqrt_sqrt _ HB) as Eb.
  set (sa := sqrt (sumSquares (map f l))) in *.
  set (sb := sqrt (sumSquares (map g l))) in *.
  set (c := crossSum f g l) in *.
  assert (Hc : c <= sa * sb).
  { destruct (Rle_lt_dec c (sa * sb)) as [H|H]; [exact H|].
    assert (0 <= sa * sb) by nra. nra. }
  nra.
Qed.

Lemma magnitude_le (f g : A -> R) (l : list A) :
  (forall x, In x l -> Rabs (f x) <= g x) ->
  magnitude (map f l) <= magnitude (map g l).
Proof.
  intros H. unfold magnitude. apply sqrt_le_1_alt.
  induction l as [|x l IH].
  - unfold sumSquares. simpl. lra.
  - rewrite !sumSquares_map_cons.
    assert (Hx : Rabs (f x) <= g x) by (apply H; now left).
    assert (Hl : sumSquares (map f l) <= sumSquares (map g l))
      by (apply IH; intros y Hy; apply H; now right).
    pose proof (Rabs_pos (f x)).
    assert (f x * f x = Rabs (f x) * Rabs (f x)).
    { unfold Rabs. destruct (Rcase_abs (f x)); lra. }
    nra.
Qed.

Lemma magnitude_scaled (c : R) (f : A -> R) (l : list A) :
  0 <= c -> magnitude (map (fun x => c * f x) l) = c * magnitude (map f l).
Proof.
  intros Hc. unfold magnitude.
  assert (E : sumSquares (map (fun x => c * f x) l) = Rsqr c * sumSquares (map f l)).
  { induction l as [|x l IH].
    - unfold sumSquares. simpl. lra.
    - rewrite !sumSquares_map_cons, IH. unfold Rsqr. lra. }
  rewrite E, sqrt_mult_alt by apply Rle_0_sqr. now rewrite sqrt_Rsqr.
Qed.

Lemma magnitude_constant (c : R) (l : list A) :
  0 <= c -> magnitude (map (fun _ => c) l) = c * sqrt (INR (List.length l)).
Proof.
  intros Hc. unfold magnitude.
  assert (E : sumSquares (map (fun _ => c) l) = Rsqr c * INR (List.length l)).
  { induction l as [|x l IH].
    - unfold sumSquares. simpl. lra.
    - rewrite sumSquares_map_cons, IH.
      change (List.length (x :: l)) with (S (List.length l)). rewrite S_INR.
      unfold Rsqr. lra. }
  rewrite E, sqrt_mult_alt by apply Rle_0_sqr. now rewrite sqrt_Rsqr.
Qed.
End Norms.

(** The tolerance on the length of a vector of [n] components that were
    rounded to binary32 after the division by the magnitude. *)
Definition tolerance (n : nat) : R := epsilon32 + eta32 * sqrt (INR n).

(** Rounding the components of a vector of length 1. *)
Lemma magnitude_rounded (q : Float32Array) :
  magnitude q = 1 ->
  Rabs (magnitude (map fround q) - 1) <= tolerance (List.length q).
Proof.
  intros Hq. pose proof epsilon32_pos as He. pose proof eta32_pos as Ht.
  set (d := fun x => fround x - x).
  assert (Hd : magnitude (map d q) <= tolerance (List.length q)).
  { apply Rle_trans with (magnitude (map (fun x => epsilon32 * Rabs x + eta32) q)).
    - apply magnitude_le. intros x _. apply fround_error.
    - eapply Rle_trans; [apply (magnitude_sum (fun x => epsilon32 * Rabs x) (fun _ => eta32))|].
      rewrite (magnitude_scaled epsilon32 Rabs) by lra.
      rewrite magnitude_constant by lra.
      assert (E : magnitude (map Rabs q) = magnitude q).
      { unfold magnitude. f_equal. clear. induction q as [|x q IH].
        - reflexivity.
        - simpl. rewrite !sumSquares_cons, IH. f_equal.
          unfold Rabs. destruct (Rcase_abs x); lra. }
      rewrite E, Hq. unfold tolerance. lra. }
  assert (Up : magnitude (map fround q) <= magnitude q + magnitude (map d q)).
  { rewrite <- (map_id q) at 2.
    eapply Rle_trans; [|apply (magnitude_sum (fun x => x) d)].
    right. f_equal. apply map_ext. intros x. unfold d. lra. }
  assert (Lo : magnitude q <= magnitude (map fround q) + magnitude (map d q)).
  { assert (E : magnitude (map d q) = magnitude (map (fun x => - d x) q)).
    { unfold magnitude. f_equal. clear. induction q as [|x q IH].
      - reflexivity.
      - simpl. rewrite !sumSquares_cons, IH. lra. }
    rewrite E. rewrite <- (map_id q) at 1.
    eapply Rle_trans; [|apply (magnitude_sum fround (fun x => - d x))].
    right. f_equal. apply map_ext. intros x. unfold d. lra. }
  apply Rabs_le. lra.
Qed.

(** The normalizing loop: every component is divided by the magnitude and
    the quotient is rounded as it is stored. *)
Lemma magnitude_normalized (vec : Float32Array) :
  0 < sumSquares vec ->
  Rabs (magnitude (map (fun x => fround (x / sqrt (sumSquares vec))) vec) - 1)
  <= tolerance (List.length vec).
Proof.
  intros Hpos.
  assert (Hm : 0 < sqrt (sumSquares vec)) by now apply sqrt_lt_R0.
  rewrite <- (map_map (fun x => x / sqrt (sumSquares vec)) fround).
  rewrite <- (length_map (fun x => x / sqrt (sumSquares vec)) vec).
  apply magnitude_rounded. unfold magnitude.
  rewrite sumSquares_scaled by lra. rewrite sqrt_sqrt by lra.
  replace (sumSquares vec / sumSquares vec) with 1 by (field; lra). apply sqrt_1.
Qed.

(** ** The hash-based provider *)

Lemma addAt_length (pos : nat) (val : R) (vec : Float32Array) :
  List.length (addAt pos val vec) = List.length vec.
Proof.
  revert pos. induction vec as [|x vec IH]; intros [|pos]; simpl; auto.
Qed.

Lemma addFeatures_length (dimensions : nat) (fs : list string) (vec : Float32Array) :
  List.length (fold_left (addFeature dimensions) fs vec) = List.length vec.
Proof.
  revert vec. induction fs as [|f fs IH]; intros vec; [reflexivity|].
  change (fold_left (addFeature dimensions) (f :: fs) vec)
    with (fold_left (addFeature dimensions) fs (addFeature dimensions vec f)).
  rewrite IH. unfold addFeature. apply addAt_length.
Qed.

Lemma accumulate_length (dimensions : nat) (normalized : string) :
  List.length (accumulate dimensions normalized) = dimensions.
Proof.
  unfold accumulate. rewrite length_map, length_combine, length_seq.
  rewrite addFeatures_length, repeat_length. apply Nat.min_id.
Qed.


(** A bucket is free for a text when no feature of the text falls into it
    and the byte of the global hash added to it is not 128: its component
    is then the rounding of a number that is not 0. *)
Definition freeBucket (dimensions : nat) (normalized : string) (i : nat) : bool :=
  (i <? dimensions)%nat
  && forallb (fun f => negb (bucketOf dimensions f =? i)%nat) (features normalized)
  && negb (byteAt (SHA256.digest normalized) (i mod 32) =? 128)%Z.

Lemma addAt_other (pos i : nat) (val : R) (vec : Float32Array) :
  pos <> i -> nth i (addAt pos val vec) 0 = nth i vec 0.
Proof.
  revert pos i. induction vec as [|x vec IH]; intros [|pos] [|i] H; simpl; auto.
  congruence.
Qed.

Lemma addFeatures_other (dimensions i : nat) (fs : list string) (vec : Float32Array) :
  forallb (fun f => negb (bucketOf dimensions f =? i)%nat) fs = true ->
  nth i (fold_left (addFeature dimensions) fs vec) 0 = nth i vec 0.
Proof.
  revert vec. induction fs as [|f fs IH]; intros vec H; [reflexivity|].
  change (forallb (fun f0 => negb (bucketOf dimensions f0 =? i)%nat) (f :: fs))
    with (negb (bucketOf dimensions f =? i)%nat
          && forallb (fun f0 => negb (bucketOf dimensions f0 =? i)%nat) fs) in H.
  apply andb_true_iff in H. destruct H as [Hf Hfs].
  change (fold_left (addFeature dimensions) (f :: fs) vec)
    with (fold_left (addFeature dimensions) fs (addFeature dimensions vec f)).
  rewrite (IH _ Hfs). unfold addFeature. apply addAt_other.
  apply negb_true_iff in Hf. now apply Nat.eqb_neq in Hf.
Qed.

Lemma nth_repeat_zero (i n : nat) : nth i (repeat 0 n) 0 = 0.
Proof.
  revert i. induction n as [|n IH]; intros [|i]; simpl; auto.
Qed.

Lemma accumulate_nth (dimensions : nat) (normalized : string) (i : nat) :
  (i < dimensions)%nat ->
  nth i (accumulate dimensions normalized) 0
  = fround (nth i (fold_left (addFeature dimensions) (features normalized)
                             (repeat 0 dimensions)) 0
            + (IZR (byteAt (SHA256.digest normalized) (i mod 32)) - 128) / 2560).
Proof.
  intros Hi. unfold accumulate.
  set (vec := fold_left (addFeature dimensions) (features normalized) (repeat 0 dimensions)).
  assert (Hlen : List.length vec = dimensions)
    by (unfold vec; now rewrite addFeatures_length, repeat_length).
  set (f := fun iv : nat * R =>
              fround (snd iv + (IZR (byteAt (SHA256.digest normalized) (fst iv mod 32)) - 128)
                               / 2560)).
  rewrite (nth_indep _ 0 (f (O, 0)))
    by (now rewrite length_map, length_combine, length_seq, Hlen, Nat.min_id).
  rewrite map_nth, combine_nth by (now rewrite length_seq).
  rewrite seq_nth by exact Hi. reflexivity.
Qed.

Lemma freeBucket_positive (dimensions : nat) (normalized : string) (i : nat) :
  freeBucket dimensions normalized i = true ->
  0 < sumSquares (accumulate dimensions normalized).
Proof.
  unfold freeBucket. intros H.
  apply andb_true_iff in H. destruct H as [H Hbyte].
  apply andb_true_iff in H. destruct H as [Hi Hfree].
  apply Nat.ltb_lt in Hi. apply negb_true_iff, Z.eqb_neq in Hbyte.
  set (b := byteAt (SHA256.digest normalized) (i mod 32)) in *.
  assert (Hx : nth i (accumulate dimensions normalized) 0 <> 0).
  { rewrite accumulate_nth by exact Hi.
    rewrite (addFeatures_other _ _ _ _ Hfree), nth_repeat_zero. fold b.
    apply fround_nonzero.
    assert (Hb : 1 <= Rabs (IZR b - 128)).
    { rewrite <- minus_IZR, <- abs_IZR. apply IZR_le. lia. }
    replace (0 + (IZR b - 128) / 2560) with ((IZR b - 128) * / 2560) by lra.
    rewrite Rabs_mult, (Rabs_pos_eq (/ 2560)) by lra.
    assert (/ 2 ^ 100 <= / 2560) by lra. nra. }
  pose proof (sumSquares_In (accumulate dimensions normalized)
                (nth i (accumulate dimensions normalized) 0)) as Hin.
  assert (In (nth i (accumulate dimensions normalized) 0)
             (accumulate dimensions normalized))
    by (apply nth_In; now rewrite accumulate_length).
  specialize (Hin H). nra.
Qed.

Lemma hashToVector_free_bucket (dimensions : nat) (text : string) (i : nat) :
  String.length (trim (toLowerCase text)) <> 0%nat ->
  freeBucket dimensions (trim (toLowerCase text)) i = true ->
  hashToVector dimensions text
  = map (fun x => fround (x / magnitude (accumulate dimensions (trim (toLowerCase text)))))
        (accumulate dimensions (trim (toLowerCase text)))
  /\ Rabs (magnitude (hashToVector dimensions text) - 1) <= tolerance dimensions.
Proof.
  intros Hlen Hfree. apply Nat.eqb_neq in Hlen.
  pose proof (freeBucket_positive _ _ _ Hfree) as Hpos.
  assert (Hm : 0 < sqrt (sumSquares (accumulate dimensions (trim (toLowerCase text)))))
    by now apply sqrt_lt_R0.
  assert (E : hashToVector dimensions text
              = map (fun x => fround (x / magnitude
                                            (accumulate dimensions (trim (toLowerCase text)))))
                    (accumulate dimensions (trim (toLowerCase text)))).
  { unfold hashToVector, magnitude. rewrite Hlen.
    now rewrite (proj2 (Rgtb_true_iff _ 0) Hm). }
  split; [exact E|]. rewrite E. unfold magnitude at 2.
  replace (tolerance dimensions)
    with (tolerance (List.length (accumulate dimensions (trim (toLowerCase text)))))
    by (now rewrite accumulate_length).
  now apply magnitude_normalized.
Qed.



(** The text of the repository's test has free buckets in dimension 128,
    the first of them bucket 0. *)
Example hashToVector_test_text :
  freeBucket 128 (trim (toLowerCase "Test text for normalization")) 0 = true
  /\ Rabs (magnitude (hashToVector 128 "Test text for normalization") - 1) <= tolerance 128
  /\ tolerance 128 < 1 / 10 ^ 7.
Proof.
  assert (F : freeBucket 128 (trim (toLowerCase "Test text for normalization")) 0 = true)
    by (vm_compute; reflexivity).
  split; [exact F|]. split.
  - apply (hashToVector_free_bucket 128 "Test text for normalization" 0); [|exact F].
    vm_compute. discriminate.
  - unfold tolerance, epsilon32, eta32.
    assert (sqrt (INR 128) <= 128).
    { rewrite <- (sqrt_Rsqr 128) by lra. apply sqrt_le_1_alt.
      replace (INR 128) with 128 by (simpl; lra). unfold Rsqr. lra. }
    assert (0 <= sqrt (INR 128)) by apply sqrt_pos.
    assert (/ 2 ^ 150 * sqrt (INR 128) <= / 2 ^ 150 * 128) by (apply Rmult_le_compat_l; lra).
    lra.
Qed.


(** The same holds for every text made of whitespace only, the no-break
    space included, and in every dimension. *)
Example hashToVector_whitespace (dimensions : nat) :
  magnitude (hashToVector dimensions "   ") = 0
  /\ magnitude (hashToVector dimensions (String (ascii_of_nat 160) EmptyString)) = 0.
Proof.
  unfold magnitude. rewrite !hashToVector_blank by reflexivity.
  rewrite sumSquares_zeros. split; apply sqrt_0.
Qed.

(** A text that is not empty is not enough for the second kind: a provider
    of dimension 0 returns the empty vector, of length 0, for every text. *)
Example hashToVector_dimension_zero (text : string) :
  hashToVector 0 text = [] /\ magnitude (hashToVector 0 text) = 0.
Proof.
  assert (E : hashToVector 0 text = []).
  { apply length_zero_iff_nil. unfold hashToVector.
    destruct (String.length (trim (toLowerCase text)) =? 0)%nat; [reflexivity|].
    destruct (Rgtb _ 0); rewrite ?length_map; apply accumulate_length. }
  split; [exact E|]. rewrite E. unfold magnitude, sumSquares. simpl. apply sqrt_0.
Qed.

(* ================================================================== *)
(** * Further properties: vectors *)
(* ================================================================== *)





Lemma magnitude_squared (v : Float32Array) : magnitude v * magnitude v = sumSquares v.
Proof. unfold magnitude. apply sqrt_sqrt, sumSquares_nonneg. Qed.





(** ** Rounded components *)

(** The value [fround] gives a number [x] whose binary exponent is [e]:
    the multiple [n * 2 ^ (e - 23)] nearest to it. *)
Lemma fround_value (x : R) (e n : Z) :
  powerRZ 2 e <= Rabs x < powerRZ 2 (e + 1) ->
  (-126 <= e)%Z ->
  Rabs (IZR n - x / powerRZ 2 (e - 23)) < 1 / 2 ->
  fround x = IZR n * powerRZ 2 (e - 23).
Proof.
  intros [Hlo Hhi] He Hn.
  assert (Hp : 0 < powerRZ 2 e) by (apply powerRZ_lt; lra).
  assert (Hx : x <> 0) by (intros ->; rewrite Rabs_R0 in Hlo; lra).
  assert (Hpos : 0 < Rabs x) by now apply Rabs_pos_lt.
  assert (Hln2 : 0 < ln 2) by (rewrite <- ln_1; apply ln_increasing; lra).
  assert (Hexp : Int_part (ln (Rabs x) / ln 2) = e).
  { symmetry. apply Int_part_spec.
    rewrite !powerRZ_Rpower in Hlo, Hhi by lra. unfold Rpower in Hlo, Hhi.
    rewrite <- (exp_ln (Rabs x) Hpos) in Hlo at 1.
    rewrite <- (exp_ln (Rabs x) Hpos) in Hhi at 1.
    assert (L1 : IZR e * ln 2 <= ln (Rabs x)).
    { destruct (Rle_lt_dec (IZR e * ln 2) (ln (Rabs x))) as [H|H]; [exact H|].
      apply exp_increasing in H. lra. }
    assert (L2 : ln (Rabs x) < IZR (e + 1) * ln 2).
    { destruct (Rle_lt_dec (IZR (e + 1) * ln 2) (ln (Rabs x))) as [H|H]; [|exact H].
      destruct H as [H|H]; [apply exp_increasing in H; lra | rewrite H in Hhi; lra]. }
    rewrite plus_IZR in L2.
    split.
    - apply (Rmult_lt_reg_r (ln 2)); [exact Hln2|].
      unfold Rdiv, Rminus. rewrite Rmult_plus_distr_r, Rmult_assoc, Rinv_l by lra. lra.
    - apply (Rmult_le_reg_r (ln 2)); [exact Hln2|].
      unfold Rdiv. rewrite Rmult_assoc, Rinv_l by lra. lra. }
  unfold fround. destruct (Req_dec_T x 0) as [E|_]; [contradiction|].
  unfold exponent. rewrite Hexp, Z.max_l by lia.
  set (y := x / powerRZ 2 (e - 23)) in *.
  assert (Hr : roundHalfEven y = n).
  { unfold roundHalfEven. destruct (base_Int_part y) as [H1 H2].
    apply Rabs_def2 in Hn. destruct Hn as [Hn1 Hn2].
    set (k := Int_part y) in *.
    assert (Hk : (k = n \/ k = n - 1)%Z).
    { assert (IZR (n - 2) < IZR k) by (rewrite minus_IZR; lra).
      assert (IZR k < IZR (n + 1)) by (rewrite plus_IZR; lra).
      apply lt_IZR in H, H0. lia. }
    destruct Hk as [Hk|Hk]; rewrite Hk in *.
    - destruct (Rlt_dec (y - IZR n) (1 / 2)); [reflexivity | lra].
    - rewrite minus_IZR in *.
      destruct (Rlt_dec (y - (IZR n - 1)) (1 / 2)) as [H|H]; [lra|].
      destruct (Rlt_dec (1 / 2) (y - (IZR n - 1))) as [H'|H']; [lia | lra]. }
  now rewrite Hr.
Qed.

(** The two quotients of the vector (3, 4): 0.6 and 0.8 are not binary32
    values, and are stored as their neighbours. *)
Lemma fround_three_fifths : fround (3 / 5) = 10066330 / 2 ^ 24.
Proof.
  rewrite (fround_value (3 / 5) (-1) 10066330).
  - change (-1 - 23)%Z with (-24)%Z. simpl. lra.
  - rewrite Rabs_pos_eq by lra. simpl. lra.
  - lia.
  - change (-1 - 23)%Z with (-24)%Z.
    replace (3 / 5 / powerRZ 2 (-24)) with (3 / 5 * 2 ^ 24)
      by (change (powerRZ 2 (-24)) with (/ 2 ^ 24); field).
    apply Rabs_def1; lra.
Qed.

Lemma fround_four_fifths : fround (4 / 5) = 13421773 / 2 ^ 24.
Proof.
  rewrite (fround_value (4 / 5) (-1) 13421773).
  - change (-1 - 23)%Z with (-24)%Z. simpl. lra.
  - rewrite Rabs_pos_eq by lra. simpl. lra.
  - lia.
  - change (-1 - 23)%Z with (-24)%Z.
    replace (4 / 5 / powerRZ 2 (-24)) with (4 / 5 * 2 ^ 24)
      by (change (powerRZ 2 (-24)) with (/ 2 ^ 24); field).
    apply Rabs_def1; lra.
Qed.

Lemma magnitude_three_four : magnitude [3; 4] = 5.
Proof.
  unfold magnitude, sumSquares. simpl.
  replace (0 + 3 * 3 + 4 * 4) with (Rsqr 5) by (unfold Rsqr; lra).
  apply sqrt_Rsqr. lra.
Qed.

(** X3: [normalizeVector] keeps the dimension; a vector whose sum of
    squares is 0 is returned as it is; of any other vector each component
    is divided by the magnitude and the quotient rounded to binary32, so
    that the length of the result differs from 1 by at most
    [2 ^ -24 + 2 ^ -150 * sqrt n] for [n] components. *)
Theorem normalizeVector_unit_or_unchanged (vec : Float32Array) :
  List.length (normalizeVector vec) = List.length vec
  /\ (sumSquares vec = 0 -> normalizeVector vec = vec)
  /\ (0 < sumSquares vec ->
      normalizeVector vec = map (fun x => fround (x / magnitude vec)) vec
      /\ Rabs (magnitude (normalizeVector vec) - 1)
         <= / 2 ^ 24 + / 2 ^ 150 * sqrt (INR (List.length vec))).
Proof.
  split; [|split].
  - unfold normalizeVector. destruct (Rgtb _ 0); [apply length_map | reflexivity].
  - intros H. unfold normalizeVector. rewrite H, sqrt_0.
    now rewrite (proj2 (Rgtb_false_iff 0 0)) by lra.
  - intros H.
    assert (Hm : 0 < sqrt (sumSquares vec)) by now apply sqrt_lt_R0.
    assert (E : normalizeVector vec = map (fun x => fround (x / magnitude vec)) vec).
    { unfold normalizeVector, magnitude. now rewrite (proj2 (Rgtb_true_iff _ 0) Hm). }
    split; [exact E|]. rewrite E. unfold magnitude at 2.
    apply (magnitude_normalized vec H).
Qed.

Lemma normalizeVector_unit_or_unchanged_witness :
  normalizeVector [3; 4] = map (fun x => fround (x / magnitude [3; 4])) [3; 4]
  /\ Rabs (magnitude (normalizeVector [3; 4]) - 1) <= / 2 ^ 24 + / 2 ^ 150 * sqrt (INR 2).
Proof.
  apply (proj2 (proj2 (normalizeVector_unit_or_unchanged [3; 4]))).
  unfold sumSquares. simpl. lra.
Defined.

(** The vector (3, 4) comes out as (0.60000002384185791015625,
    0.800000011920928955078125), whose length is not 1; the all-zero vector
    comes out unchanged. *)
Example normalizeVector_three_four :
  normalizeVector [3; 4] = [10066330 / 2 ^ 24; 13421773 / 2 ^ 24]
  /\ magnitude (normalizeVector [3; 4]) <> 1
  /\ normalizeVector [0; 0; 0] = [0; 0; 0].
Proof.
  assert (E : normalizeVector [3; 4] = [10066330 / 2 ^ 24; 13421773 / 2 ^ 24]).
  { unfold normalizeVector. fold (magnitude [3; 4]). rewrite magnitude_three_four.
    rewrite (proj2 (Rgtb_true_iff 5 0)) by lra. simpl.
    now rewrite fround_three_fifths, fround_four_fifths. }
  split; [exact E|]. split.
  - rewrite E. intros H.
    assert (S : sumSquares [10066330 / 2 ^ 24; 13421773 / 2 ^ 24] = 1).
    { rewrite <- magnitude_squared, H. lra. }
    unfold sumSquares in S. simpl in S. lra.
  - unfold normalizeVector, sumSquares. simpl.
    replace (0 + 0 * 0 + 0 * 0 + 0 * 0) with 0 by lra. rewrite sqrt_0.
    now rewrite (proj2 (Rgtb_false_iff 0 0)) by lra.
Qed.

(* ================================================================== *)
(** * Further properties: the reference provider *)
(* ================================================================== *)

(** X4: whatever the text, the vector returned by [hashToVector] has the
    dimension the provider was built with (also 0, and also for the empty
    text). *)
Theorem hashToVector_dimension (dimensions : nat) (text : string) :
  List.length (hashToVector dimensions text) = dimensions.
Proof.
  unfold hashToVector.
  destruct (String.length (trim (toLowerCase text)) =? 0)%nat; [apply repeat_length|].
  destruct (Rgtb _ 0); rewrite ?length_map; apply accumulate_length.
Qed.

Lemma lowerChar_idempotent (c : ascii) : lowerChar (lowerChar c) = lowerChar c.
Proof.
  destruct c as [[] [] [] [] [] [] [] []]; reflexivity.
Qed.

Lemma toLowerCase_idempotent (s : string) : toLowerCase (toLowerCase s) = toLowerCase s.
Proof.
  induction s as [|c s IH]; simpl; [reflexivity|]. now rewrite lowerChar_idempotent, IH.
Qed.

Lemma toLowerCase_trimStart (s : string) :
  toLowerCase (trimStart s) = trimStart (toLowerCase s).
Proof.
  induction s as [|c s IH]; simpl; [reflexivity|].
  rewrite isWhitespace_lowerChar. now destruct (isWhitespace c).
Qed.

Lemma toLowerCase_trimEnd (s : string) :
  toLowerCase (trimEnd s) = trimEnd (toLowerCase s).
Proof.
  induction s as [|c s IH]; simpl; [reflexivity|].
  rewrite <- IH, isWhitespace_lowerChar.
  destruct (trimEnd s); simpl; [now destruct (isWhitespace c) | reflexivity].
Qed.

Lemma trimEnd_idempotent (s : string) : trimEnd (trimEnd s) = trimEnd s.
Proof.
  induction s as [|c s IH]; simpl; [reflexivity|].
  destruct (trimEnd s) as [|c' t] eqn:E.
  - destruct (isWhitespace c) eqn:W; simpl; [reflexivity | now rewrite W].
  - change (trimEnd (String c (String c' t))) with
      (match trimEnd (String c' t) with
       | EmptyString => if isWhitespace c then EmptyString else String c EmptyString
       | u => String c u
       end).
    now rewrite IH.
Qed.

(** A text that does not start with whitespace keeps its first character
    through [trimEnd]. *)
Lemma trimStart_trimEnd (s : string) :
  trimStart s = s -> trimStart (trimEnd s) = trimEnd s.
Proof.
  destruct s as [|c s]; [reflexivity|]. simpl.
  destruct (isWhitespace c) eqn:W.
  - intros H. exfalso.
    assert (L : (String.length (trimStart s) <= String.length s)%nat).
    { clear. induction s as [|d s IH]; simpl; [lia|]. destruct (isWhitespace d); simpl; lia. }
    rewrite H in L. simpl in L. lia.
  - intros _. destruct (trimEnd s); simpl; now rewrite W.
Qed.

Lemma trimStart_idempotent (s : string) : trimStart (trimStart s) = trimStart s.
Proof.
  induction s as [|c s IH]; simpl; [reflexivity|].
  destruct (isWhitespace c) eqn:W; [exact IH | simpl; now rewrite W].
Qed.

Lemma trim_idempotent (s : string) : trim (trim s) = trim s.
Proof.
  unfold trim. rewrite (trimStart_trimEnd (trimStart s)) by apply trimStart_idempotent.
  apply trimEnd_idempotent.
Qed.

Lemma trimEnd_trailing_space (u : string) : trimEnd (u ++ " ")%string = trimEnd u.
Proof.
  induction u as [|c u IH]; simpl; [reflexivity | now rewrite IH].
Qed.

Lemma trim_surrounding_spaces (t : string) : trim (" " ++ t ++ " ")%string = trim t.
Proof.
  unfold trim. change (trimStart (" " ++ t ++ " ")%string) with (trimStart (t ++ " ")%string).
  induction t as [|c t IH]; [reflexivity|].
  change (trimStart (String c t ++ " ")%string)
    with (if isWhitespace c then trimStart (t ++ " ")%string else String c (t ++ " ")%string).
  change (trimStart (String c t)) with (if isWhitespace c then trimStart t else String c t).
  destruct (isWhitespace c); [exact IH|].
  apply (trimEnd_trailing_space (String c t)).
Qed.

Lemma trim_toLowerCase_trim (t : string) : trim (toLowerCase (trim t)) = trim (toLowerCase t).
Proof.
  unfold trim at 2.
  rewrite toLowerCase_trimEnd, toLowerCase_trimStart.
  change (trimEnd (trimStart (toLowerCase t))) with (trim (toLowerCase t)).
  apply trim_idempotent.
Qed.

(** X5: [hashToVector] sees a text through its lower-cased, trimmed form
    only: changing the case of its letters or adding whitespace around it
    gives the same vector. *)
Theorem hashToVector_ignores_case_and_margins (dimensions : nat) (text : string) :
  hashToVector dimensions (toLowerCase text) = hashToVector dimensions text
  /\ hashToVector dimensions (trim text) = hashToVector dimensions text
  /\ hashToVector dimensions (" " ++ text ++ " ")%string = hashToVector dimensions text.
Proof.
  split; [|split].
  - unfold hashToVector. now rewrite toLowerCase_idempotent.
  - unfold hashToVector. now rewrite trim_toLowerCase_trim.
  - unfold hashToVector.
    rewrite <- (trim_toLowerCase_trim (" " ++ text ++ " ")), trim_surrounding_spaces,
      trim_toLowerCase_trim.
    reflexivity.
Qed.
(* ================================================================== *)
(** * Further properties: the record store *)
(* ================================================================== *)

(** The record a [SELECT * FROM memories WHERE id = ?] reads first. *)
Definition stored (d : SqlJsDatabase) (i : string) : option MemoryRecord :=
  option_map snd (hd_error (selectById d i)).

(** The state a method leaves when it returns. *)
Definition stateAfter {A} (r : Result (A * MemoryDatabase)) (self : MemoryDatabase)
  : MemoryDatabase :=
  match r with
  | Ok (_, self') => self'
  | Throw _ => self
  end.

Lemma hasId_eq (i : string) (row : Z * MemoryRecord) :
  hasId i row = true <-> id (snd row) = i.
Proof. unfold hasId. apply String.eqb_eq. Qed.

Lemma hasId_neq (i : string) (row : Z * MemoryRecord) :
  hasId i row = false <-> id (snd row) <> i.
Proof. unfold hasId. apply String.eqb_neq. Qed.

Lemma filter_updateWhereId (i j : string) (f : MemoryRecord -> MemoryRecord)
    (rows : list (Z * MemoryRecord)) :
  (forall m, id (f m) = id m) ->
  filter (hasId j) (updateWhereId i f rows)
  = if String.eqb i j
    then map (fun row => (fst row, f (snd row))) (filter (hasId i) rows)
    else filter (hasId j) rows.
Proof.
  intros Hid. unfold updateWhereId.
  assert (K : forall row, hasId j (fst row, f (snd row)) = hasId j row)
    by (intros row; unfold hasId; simpl; now rewrite Hid).
  induction rows as [|row rows IH]; simpl.
  - now destruct (String.eqb i j).
  - destruct (hasId i row) eqn:H.
    + rewrite K. destruct (String.eqb i j) eqn:E.
      * apply String.eqb_eq in E. subst j. rewrite H. simpl. now rewrite IH.
      * assert (N : hasId j row = false).
        { apply hasId_eq in H. apply hasId_neq. rewrite H. now apply String.eqb_neq. }
        rewrite N. exact IH.
    + destruct (String.eqb i j) eqn:E.
      * apply String.eqb_eq in E. subst j. rewrite H. exact IH.
      * destruct (hasId j row); [f_equal|]; exact IH.
Qed.

Lemma stored_updateWhereId (i j : string) (f : MemoryRecord -> MemoryRecord)
    (d : SqlJsDatabase) (fts : list (Z * string)) :
  (forall m, id (f m) = id m) ->
  stored {| memories := updateWhereId i f (memories d); memories_fts := fts |} j
  = if String.eqb i j then option_map f (stored d i) else stored d j.
Proof.
  intros Hid. unfold stored, selectById. simpl.
  rewrite filter_updateWhereId by exact Hid.
  destruct (String.eqb i j); [|reflexivity].
  now destruct (filter (hasId i) (memories d)).
Qed.

Lemma stored_Some_selectById (d : SqlJsDatabase) (i : string) (m : MemoryRecord) :
  stored d i = Some m -> exists rowid rest, selectById d i = (rowid, m) :: rest.
Proof.
  unfold stored. destruct (selectById d i) as [|[rowid m'] rest]; simpl; [discriminate|].
  intros [= ->]. eauto.
Qed.

Lemma stored_id (d : SqlJsDatabase) (i : string) (m : MemoryRecord) :
  stored d i = Some m -> id m = i.
Proof.
  intros H. destruct (stored_Some_selectById _ _ _ H) as (rowid & rest & E).
  assert (I : In (rowid, m) (selectById d i)) by (rewrite E; now left).
  apply filter_In in I. destruct I as [_ I]. now apply hasId_eq in I.
Qed.

Lemma stored_In (d : SqlJsDatabase) (i : string) (m : MemoryRecord) :
  stored d i = Some m -> In m (map snd (memories d)).
Proof.
  intros H. destruct (stored_Some_selectById _ _ _ H) as (rowid & rest & E).
  assert (I : In (rowid, m) (selectById d i)) by (rewrite E; now left).
  apply filter_In in I. destruct I as [I _]. apply in_map_iff. now exists (rowid, m).
Qed.

Lemma stored_None_selectById (d : SqlJsDatabase) (i : string) :
  stored d i = None <-> selectById d i = [].
Proof.
  unfold stored. destruct (selectById d i); simpl; split; congruence.
Qed.

Lemma getMemory_stored (now : Z) (i : string) (self : MemoryDatabase)
    (d : SqlJsDatabase) (m : MemoryRecord) :
  db self = Some d ->
  stored d i = Some m ->
  getMemory now i self
  = Ok (Some (touch now m),
        {| db := Some {| memories := updateWhereId i (touch now) (memories d);
                         memories_fts := memories_fts d |};
           dirty := true; file := file self |}).
Proof.
  intros Hdb Hst.
  destruct (stored_Some_selectById _ _ _ Hst) as (rowid & rest & E).
  unfold getMemory, bind, requireDb, setDb, setDirty, ret. rewrite Hdb, E. simpl.
  pose proof (stored_updateWhereId i i (touch now) d (memories_fts d) (fun _ => eq_refl)) as S2.
  rewrite String.eqb_refl, Hst in S2. unfold stored in S2. rewrite S2. reflexivity.
Qed.

Lemma getMemory_not_stored (now : Z) (i : string) (self : MemoryDatabase) (d : SqlJsDatabase) :
  db self = Some d -> stored d i = None -> getMemory now i self = Ok (None, self).
Proof.
  intros Hdb Hst. apply stored_None_selectById in Hst.
  unfold getMemory, bind, requireDb, ret. now rewrite Hdb, Hst.
Qed.

(** X6: reading a memory counts the access.  [getMemory] on a stored id
    returns the record with [accessCount] one higher and [lastAccessedAt]
    set to the time of the call, every other field as stored; the stored
    record is the returned one, every other record is as it was, and the
    database is marked as changed. *)
Theorem getMemory_tracks_access (now : Z) (i : string) (self : MemoryDatabase)
    (d : SqlJsDatabase) (m : MemoryRecord) :
  db self = Some d ->
  stored d i = Some m ->
  exists m' d',
    getMemory now i self = Ok (Some m', {| db := Some d'; dirty := true; file := file self |})
    /\ accessCount m' = (accessCount m + 1)%Z
    /\ lastAccessedAt m' = now
    /\ (id m', category m', content m', embedding m', embeddingModel m', embeddingDims m')
       = (id m, category m, content m, embedding m, embeddingModel m, embeddingDims m)
    /\ (sourceType m', sourceSession m', sourceMessageIndex m', confidence m', tags m',
        createdAt m', updatedAt m')
       = (sourceType m, sourceSession m, sourceMessageIndex m, confidence m, tags m,
          createdAt m, updatedAt m)
    /\ stored d' i = Some m'
    /\ (forall j, j <> i -> stored d' j = stored d j)
    /\ memories_fts d' = memories_fts d
    /\ List.length (memories d') = List.length (memories d).
Proof.
  intros Hdb Hst.
  exists (touch now m),
         {| memories := updateWhereId i (touch now) (memories d);
            memories_fts := memories_fts d |}.
  assert (S1 : forall j,
             stored {| memories := updateWhereId i (touch now) (memories d);
                       memories_fts := memories_fts d |} j
             = if String.eqb i j then option_map (touch now) (stored d i) else stored d j)
    by (intros j; now apply stored_updateWhereId).
  repeat split.
  - now apply getMemory_stored.
  - rewrite S1, String.eqb_refl, Hst. reflexivity.
  - intros j Hj. rewrite S1. apply not_eq_sym in Hj. apply String.eqb_neq in Hj.
    now rewrite Hj.
  - simpl. unfold updateWhereId. apply length_map.
Qed.

Lemma getMemory_tracks_access_witness :
  exists m' d',
    getMemory 2000 "m1" sampleStore
    = Ok (Some m', {| db := Some d'; dirty := true; file := file sampleStore |})
    /\ accessCount m' = 1%Z /\ lastAccessedAt m' = 2000%Z.
Proof.
  destruct (getMemory_tracks_access 2000 "m1" sampleStore (tablesOf sampleRows)
              (record "m1" "Alex prefers dark mode" (Some [1])) eq_refl eq_refl)
    as (m' & d' & H & Hc & Hl & _).
  exists m', d'. repeat split; assumption.
Defined.

Lemma selectById_app (rows : list (Z * MemoryRecord)) (fts fts' : list (Z * string))
    (row : Z * MemoryRecord) (j : string) :
  selectById {| memories := rows ++ [row]; memories_fts := fts' |} j
  = (selectById {| memories := rows; memories_fts := fts |} j
     ++ if hasId j row then [row] else [])%list.
Proof.
  unfold selectById. simpl. rewrite filter_app. simpl. now destruct (hasId j row).
Qed.

(** X7: a record that was created can be read back.  With an id that is
    not yet in the store, [createMemory] returns that id and a following
    [getMemory] returns the record: the content and embedding of the
    input, the defaults [other], [manual], confidence 1 and no tags for
    what the input leaves out, the creation time, and an access count of
    1 for this first read.  Every other record stays as stored and the
    count goes up by one. *)
Theorem createMemory_then_getMemory (uuid : string) (now now' : Z) (input : CreateMemoryInput)
    (self : MemoryDatabase) (d : SqlJsDatabase) :
  db self = Some d ->
  stored d uuid = None ->
  exists self1 d1 m self2,
    createMemory uuid now input self = Ok (uuid, self1)
    /\ db self1 = Some d1 /\ dirty self1 = true
    /\ getMemory now' uuid self1 = Ok (Some m, self2)
    /\ id m = uuid
    /\ content m = c_content input
    /\ category m = orElse (c_category input) other
    /\ sourceType m = orElse (c_sourceType input) manual
    /\ confidence m = orElse (c_confidence input) 1
    /\ tags m = orElse (c_tags input) []
    /\ embedding m = c_embedding input
    /\ embeddingDims m = option_map (fun e => Z.of_nat (List.length e)) (c_embedding input)
    /\ (sourceSession m, sourceMessageIndex m, embeddingModel m)
       = (c_sourceSession input, c_sourceMessageIndex input, c_embeddingModel input)
    /\ (createdAt m, updatedAt m, lastAccessedAt m, accessCount m) = (now, now, now', 1%Z)
    /\ (forall j, j <> uuid -> stored d1 j = stored d j)
    /\ List.length (memories d1) = S (List.length (memories d)).
Proof.
  intros Hdb Hst.
  pose proof (proj1 (stored_None_selectById d uuid) Hst) as Hsel.
  set (row := {| id := uuid;
        category := orElse (c_category input) other;
        content := c_content input;
        embedding := c_embedding input;
        embeddingModel := c_embeddingModel input;
        embeddingDims := option_map (fun e => Z.of_nat (List.length e)) (c_embedding input);
        sourceType := orElse (c_sourceType input) manual;
        sourceSession := c_sourceSession input;
        sourceMessageIndex := c_sourceMessageIndex input;
        confidence := orElse (c_confidence input) 1%R;
        tags := orElse (c_tags input) [];
        createdAt := now;
        updatedAt := now;
        lastAccessedAt := now;
        accessCount := 0 |}).
  set (d1 := {| memories := memories d ++ [(nextRowid d, row)];
                memories_fts := memories_fts d ++ [(nextRowid d, c_content input)] |}).
  assert (Hc : createMemory uuid now input self
               = Ok (uuid, {| db := Some d1; dirty := true; file := file self |})).
  { unfold createMemory, bind, requireDb, setDb, setDirty, ret. rewrite Hdb, Hsel. reflexivity. }
  assert (S1 : forall j, selectById d1 j
                 = (selectById d j ++ if hasId j (nextRowid d, row) then [(nextRowid d, row)]
                                      else [])%list).
  { intros j. unfold d1. rewrite (selectById_app _ (memories_fts d)). now destruct d. }
  assert (S2 : stored d1 uuid = Some row).
  { unfold stored. rewrite S1, Hsel. unfold hasId. simpl. now rewrite String.eqb_refl. }
  exists {| db := Some d1; dirty := true; file := file self |}, d1, (touch now' row).
  eexists. split; [exact Hc|]. split; [reflexivity|]. split; [reflexivity|].
  split; [apply (getMemory_stored now' uuid
                   {| db := Some d1; dirty := true; file := file self |} d1 row eq_refl S2)|].
  repeat split.
  - intros j Hj. unfold stored. rewrite S1.
    assert (N : hasId j (nextRowid d, row) = false)
      by (apply hasId_neq; simpl; congruence).
    now rewrite N, app_nil_r.
  - unfold d1. simpl. rewrite length_app. simpl. lia.
Qed.

Lemma createMemory_then_getMemory_witness :
  exists self1 m self2,
    createMemory "m2" 3000
      {| c_content := "Uses TypeScript"; c_category := None; c_embedding := None;
         c_embeddingModel := None; c_sourceType := None; c_sourceSession := None;
         c_sourceMessageIndex := None; c_confidence := None; c_tags := None |}
      sampleStore = Ok ("m2"%string, self1)
    /\ getMemory 4000 "m2" self1 = Ok (Some m, self2)
    /\ content m = "Uses TypeScript"%string /\ category m = other.
Proof.
  destruct (createMemory_then_getMemory "m2" 3000 4000
              {| c_content := "Uses TypeScript"; c_category := None; c_embedding := None;
                 c_embeddingModel := None; c_sourceType := None; c_sourceSession := None;
                 c_sourceMessageIndex := None; c_confidence := None; c_tags := None |}
              sampleStore (tablesOf sampleRows) eq_refl eq_refl)
    as (self1 & d1 & m & self2 & H1 & _ & _ & H2 & _ & H3 & H4 & _).
  exists self1, m, self2. repeat split; assumption.
Defined.

Lemma filter_filter_comm {A} (p q : A -> bool) (l : list A) :
  filter p (filter q l) = filter q (filter p l).
Proof.
  induction l as [|x l IH]; simpl; [reflexivity|].
  destruct (p x) eqn:P, (q x) eqn:Q; simpl; rewrite ?P, ?Q, IH; reflexivity.
Qed.

Lemma filter_length_split {A} (p : A -> bool) (l : list A) :
  (List.length (filter p l) + List.length (filter (fun x => negb (p x)) l)
   = List.length l)%nat.
Proof.
  induction l as [|x l IH]; simpl; [reflexivity|].
  destruct (p x); simpl; lia.
Qed.

Lemma selectById_unique (d : SqlJsDatabase) (i : string) :
  uniqueIds d -> (List.length (selectById d i) <= 1)%nat.
Proof.
  unfold uniqueIds, selectById.
  induction (memories d) as [|row rows IH]; simpl; intros H; [lia|].
  inversion H as [|? ? Hn Hr]; subst.
  destruct (hasId i row) eqn:E; [|auto].
  simpl. apply hasId_eq in E.
  assert (N : filter (hasId i) rows = []).
  { destruct (filter (hasId i) rows) as [|r rs] eqn:F; [reflexivity|]. exfalso.
    assert (I : In r (filter (hasId i) rows)) by (rewrite F; now left).
    apply filter_In in I. destruct I as [I1 I2]. apply hasId_eq in I2.
    apply Hn. apply in_map_iff. exists r. split; [congruence | assumption]. }
  rewrite N. simpl. lia.
Qed.

Lemma filter_all {A} (p : A -> bool) (l : list A) :
  (forall x, In x l -> p x = true) -> filter p l = l.
Proof.
  induction l as [|x l IH]; simpl; intros H; [reflexivity|].
  rewrite (H x) by now left. f_equal. apply IH. intros y Hy. apply H. now right.
Qed.

Lemma filter_none {A} (p : A -> bool) (l : list A) :
  (forall x, In x l -> p x = false) -> filter p l = [].
Proof.
  induction l as [|x l IH]; simpl; intros H; [reflexivity|].
  rewrite (H x) by now left. apply IH. intros y Hy. apply H. now right.
Qed.

Lemma selectById_filter_other (i j : string) (rows : list (Z * MemoryRecord)) :
  j <> i ->
  filter (hasId j) (filter (fun row => negb (hasId i row)) rows) = filter (hasId j) rows.
Proof.
  intros Hj. rewrite filter_filter_comm. apply filter_all.
  intros row Hrow. apply filter_In in Hrow. destruct Hrow as [_ Hrow].
  apply hasId_eq in Hrow. apply negb_true_iff, hasId_neq. congruence.
Qed.

Lemma selectById_filter_same (i : string) (rows : list (Z * MemoryRecord)) :
  filter (hasId i) (filter (fun row => negb (hasId i row)) rows) = [].
Proof.
  apply filter_none. intros row Hrow. apply filter_In in Hrow.
  destruct Hrow as [_ Hrow]. now apply negb_true_iff in Hrow.
Qed.

Lemma deleteMemory_stored (i : string) (self : MemoryDatabase) (d : SqlJsDatabase)
    (rowid : Z) (m : MemoryRecord) (rest : list (Z * MemoryRecord)) :
  db self = Some d ->
  selectById d i = (rowid, m) :: rest ->
  deleteMemory i self
  = Ok (true, {| db := Some {| memories := filter (fun row => negb (hasId i row)) (memories d);
                               memories_fts := deleteFts rowid (memories_fts d) |};
                 dirty := true; file := file self |}).
Proof.
  intros Hdb E. unfold deleteMemory, bind, requireDb, setDb, setDirty, ret.
  now rewrite Hdb, E.
Qed.

Lemma deleteMemory_not_stored (i : string) (self : MemoryDatabase) (d : SqlJsDatabase) :
  db self = Some d -> stored d i = None -> deleteMemory i self = Ok (false, self).
Proof.
  intros Hdb Hst. apply stored_None_selectById in Hst.
  unfold deleteMemory, bind, requireDb, ret. now rewrite Hdb, Hst.
Qed.

(** X8: deleting a stored memory removes it and nothing else.
    [deleteMemory] on a stored id returns [true] and marks the database as
    changed; afterwards the id reads as missing ([getMemory] gives [null], a
    second [deleteMemory] gives [false], both without another change), every
    other record is as stored, no entry of the text index has the rowid of
    the deleted row, and, ids being unique, there is one row less. *)
Theorem deleteMemory_removes_the_record (now : Z) (i : string) (self : MemoryDatabase)
    (d : SqlJsDatabase) (m : MemoryRecord) :
  db self = Some d ->
  stored d i = Some m ->
  exists self' d' rowid,
    deleteMemory i self = Ok (true, self')
    /\ db self' = Some d' /\ dirty self' = true /\ file self' = file self
    /\ stored d' i = None
    /\ getMemory now i self' = Ok (None, self')
    /\ deleteMemory i self' = Ok (false, self')
    /\ (forall j, j <> i -> stored d' j = stored d j)
    /\ In (rowid, m) (memories d)
    /\ (forall e, In e (memories_fts d') <-> In e (memories_fts d) /\ fst e <> rowid)
    /\ (uniqueIds d -> S (List.length (memories d')) = List.length (memories d)).
Proof.
  intros Hdb Hst.
  destruct (stored_Some_selectById _ _ _ Hst) as (rowid & rest & E).
  set (d' := {| memories := filter (fun row => negb (hasId i row)) (memories d);
                memories_fts := deleteFts rowid (memories_fts d) |}).
  assert (N : stored d' i = None).
  { unfold stored, selectById, d'. simpl. now rewrite selectById_filter_same. }
  exists {| db := Some d'; dirty := true; file := file self |}, d', rowid.
  split; [now apply (deleteMemory_stored i self d rowid m rest)|].
  repeat split; try assumption.
  - now apply (getMemory_not_stored now i _ d').
  - now apply (deleteMemory_not_stored i _ d').
  - intros j Hj. unfold stored, selectById, d'. simpl.
    now rewrite selectById_filter_other.
  - assert (I : In (rowid, m) (selectById d i)) by (rewrite E; now left).
    now apply filter_In in I.
  - unfold d', deleteFts in H. simpl in H. now apply filter_In in H.
  - unfold d', deleteFts in H. simpl in H. apply filter_In in H. destruct H as [_ H].
    apply negb_true_iff, Z.eqb_neq in H. exact H.
  - intros [H1 H2]. unfold d', deleteFts. simpl. apply filter_In. split; [assumption|].
    now apply negb_true_iff, Z.eqb_neq.
  - intros U. pose proof (selectById_unique d i U) as L.
    pose proof (filter_length_split (hasId i) (memories d)) as P.
    unfold selectById in L, E. rewrite E in L, P. simpl in *.
    assert (rest = []) by (destruct rest; [reflexivity | simpl in L; lia]). subst rest.
    simpl in P. lia.
Qed.

Lemma deleteMemory_removes_the_record_witness :
  exists self',
    deleteMemory "m1" sampleStore = Ok (true, self')
    /\ getMemory 2000 "m1" self' = Ok (None, self')
    /\ deleteMemory "m1" self' = Ok (false, self').
Proof.
  destruct (deleteMemory_removes_the_record 2000 "m1" sampleStore (tablesOf sampleRows)
              (record "m1" "Alex prefers dark mode" (Some [1])) eq_refl eq_refl)
    as (self' & d' & rowid & H1 & _ & _ & _ & _ & H2 & H3 & _).
  exists self'. repeat split; assumption.
Defined.

Lemma updateMemory_stored (now : Z) (i : string) (input : UpdateMemoryInput)
    (self : MemoryDatabase) (d : SqlJsDatabase)
    (rowid : Z) (m : MemoryRecord) (rest : list (Z * MemoryRecord)) :
  db self = Some d ->
  selectById d i = (rowid, m) :: rest ->
  noSets input = false ->
  updateMemory now i input self
  = Ok (true,
        {| db := Some {| memories := updateWhereId i (applySets now input) (memories d);
                         memories_fts :=
                           match u_content input with
                           | Some c => deleteFts rowid (memories_fts d) ++ [(rowid, c)]
                           | None => memories_fts d
                           end |};
           dirty := true; file := file self |}).
Proof.
  intros Hdb E Hn. unfold updateMemory, bind, requireDb, setDb, setDirty, ret.
  rewrite Hdb, Hn. unfold selectById in *. simpl.
  rewrite (filter_updateWhereId i i) by reflexivity.
  rewrite String.eqb_refl, E. simpl. reflexivity.
Qed.

(** X9: an update of a stored memory changes what it was given and nothing
    else.  With at least one field in the input, [updateMemory] on a stored
    id returns [true]; in the stored record every field of the input
    replaces the old value, [embeddingDims] follows a new embedding,
    [updatedAt] is the time of the call, and the id, the provenance, the
    creation time and the access tracking are kept.  Other records are
    untouched.  The text index is left alone unless the content is given:
    then the row is indexed under the new content only. *)
Theorem updateMemory_changes_given_fields (now : Z) (i : string) (input : UpdateMemoryInput)
    (self : MemoryDatabase) (d : SqlJsDatabase) (m : MemoryRecord) :
  db self = Some d ->
  stored d i = Some m ->
  noSets input = false ->
  exists m' d',
    updateMemory now i input self
    = Ok (true, {| db := Some d'; dirty := true; file := file self |})
    /\ stored d' i = Some m'
    /\ content m' = orElse (u_content input) (content m)
    /\ category m' = orElse (u_category input) (category m)
    /\ confidence m' = orElse (u_confidence input) (confidence m)
    /\ tags m' = orElse (u_tags input) (tags m)
    /\ embedding m' = orKeep (u_embedding input) (embedding m)
    /\ embeddingModel m' = orKeep (u_embeddingModel input) (embeddingModel m)
    /\ (forall e, u_embedding input = Some e ->
                  embeddingDims m' = Some (Z.of_nat (List.length e)))
    /\ (u_embedding input = None -> embeddingDims m' = embeddingDims m)
    /\ updatedAt m' = now
    /\ (id m', sourceType m', sourceSession m', sourceMessageIndex m')
       = (id m, sourceType m, sourceSession m, sourceMessageIndex m)
    /\ (createdAt m', lastAccessedAt m', accessCount m')
       = (createdAt m, lastAccessedAt m, accessCount m)
    /\ (forall j, j <> i -> stored d' j = stored d j)
    /\ (u_content input = None -> memories_fts d' = memories_fts d)
    /\ (forall c, u_content input = Some c ->
          exists rowid,
            In (rowid, m') (memories d')
            /\ forall t, In (rowid, t) (memories_fts d') <-> t = c).
Proof.
  intros Hdb Hst Hn.
  destruct (stored_Some_selectById _ _ _ Hst) as (rowid & rest & E).
  set (d' := {| memories := updateWhereId i (applySets now input) (memories d);
                memories_fts :=
                  match u_content input with
                  | Some c => deleteFts rowid (memories_fts d) ++ [(rowid, c)]
                  | None => memories_fts d
                  end |}).
  assert (S1 : forall j,
             stored d' j
             = if String.eqb i j then option_map (applySets now input) (stored d i)
               else stored d j)
    by (intros j; now apply stored_updateWhereId).
  exists (applySets now input m), d'.
  split; [now apply (updateMemory_stored now i input self d rowid m rest)|].
  split; [rewrite S1, String.eqb_refl, Hst; reflexivity|].
  repeat split.
  - intros e He. simpl. now rewrite He.
  - intros He. simpl. now rewrite He.
  - intros j Hj. rewrite S1. apply not_eq_sym in Hj. apply String.eqb_neq in Hj.
    now rewrite Hj.
  - intros Hc. unfold d'. simpl. now rewrite Hc.
  - intros c Hc. exists rowid. split.
    + unfold d', updateWhereId. simpl. apply in_map_iff. exists (rowid, m).
      assert (I : In (rowid, m) (selectById d i)) by (rewrite E; now left).
      apply filter_In in I. destruct I as [I1 I2]. rewrite I2. now split.
    + intros t. unfold d'. simpl. rewrite Hc. rewrite in_app_iff. unfold deleteFts.
      rewrite filter_In. simpl. split.
      * intros [[_ H]|[H|[]]]; [|congruence].
        simpl in H. rewrite Z.eqb_refl in H. discriminate.
      * intros ->. right. now left.
Qed.

Lemma updateMemory_changes_given_fields_witness :
  exists m' d',
    updateMemory 5000 "m1"
      {| u_content := Some "Alex prefers light mode"%string; u_category := None;
         u_embedding := None; u_embeddingModel := None; u_confidence := None;
         u_tags := None |} sampleStore
    = Ok (true, {| db := Some d'; dirty := true; file := file sampleStore |})
    /\ stored d' "m1" = Some m'
    /\ content m' = "Alex prefers light mode"%string
    /\ category m' = fact.
Proof.
  destruct (updateMemory_changes_given_fields 5000 "m1"
              {| u_content := Some "Alex prefers light mode"%string; u_category := None;
                 u_embedding := None; u_embeddingModel := None; u_confidence := None;
                 u_tags := None |}
              sampleStore (tablesOf sampleRows)
              (record "m1" "Alex prefers dark mode" (Some [1])) eq_refl eq_refl eq_refl)
    as (m' & d' & H1 & H2 & H3 & H4 & _).
  exists m', d'. repeat split; assumption.
Defined.







Lemma inSession_eq (s : string) (row : Z * MemoryRecord) :
  inSession s row = true <-> sourceSession (snd row) = Some s.
Proof.
  unfold inSession. destruct (sourceSession (snd row)) as [t|]; [|split; discriminate].
  rewrite String.eqb_eq. split; congruence.
Qed.

Lemma filter_idempotent {A} (p : A -> bool) (l : list A) :
  filter p (filter p l) = filter p l.
Proof.
  apply filter_all. intros x Hx. now apply filter_In in Hx.
Qed.

Lemma deleteBySession_opened (s : string) (self : MemoryDatabase) (d : SqlJsDatabase) :
  db self = Some d ->
  deleteBySession s self
  = Ok ((Z.of_nat (List.length (memories d))
         - Z.of_nat (List.length (filter (fun row => negb (inSession s row)) (memories d))))%Z,
        {| db := Some {| memories := filter (fun row => negb (inSession s row)) (memories d);
                         memories_fts :=
                           fold_left (fun f rowid => deleteFts rowid f)
                             (map fst (filter (inSession s) (memories d)))
                             (memories_fts d) |};
           dirty := true; file := file self |}).
Proof.
  intros Hdb. unfold deleteBySession, bind, requireDb, setDb, setDirty, countMemories, ret.
  rewrite Hdb. simpl. rewrite !filter_all by reflexivity. reflexivity.
Qed.

(** Three rows, two of them captured in the session [s1]. *)
Definition sessionRecord (i text : string) (session : option string) : MemoryRecord :=
  {| id := i; category := fact; content := text;
     embedding := None; embeddingModel := None; embeddingDims := None;
     sourceType := auto_capture; sourceSession := session; sourceMessageIndex := None;
     confidence := 1; tags := []; createdAt := 1000; updatedAt := 1000;
     lastAccessedAt := 1000; accessCount := 0 |}.

Definition sessionRows : list (Z * MemoryRecord) :=
  [(1%Z, sessionRecord "a" "likes tea" (Some "s1"%string));
   (2%Z, sessionRecord "b" "lives in Oslo" (Some "s2"%string));
   (3%Z, sessionRecord "c" "owns a cat" (Some "s1"%string))].

(** X11: [deleteBySession] removes the memories of one session and no
    other.  On an opened database it returns the number of rows whose
    source session is the given one; afterwards a record is in the table
    exactly when it was there and belongs to another session (or to none),
    such a record is read under its id as before, the order of the rows
    that stay is kept, and a second call returns 0 and leaves the database
    as it is. *)
Theorem deleteBySession_removes_the_session (s : string) (self : MemoryDatabase)
    (d : SqlJsDatabase) :
  db self = Some d ->
  exists self' d',
    deleteBySession s self
    = Ok (Z.of_nat (List.length (filter (inSession s) (memories d))), self')
    /\ db self' = Some d' /\ dirty self' = true /\ file self' = file self
    /\ (forall row, In row (memories d')
                    <-> In row (memories d) /\ sourceSession (snd row) <> Some s)
    /\ (forall j m, stored d j = Some m -> sourceSession m <> Some s -> stored d' j = Some m)
    /\ (forall j m, stored d' j = Some m -> sourceSession m <> Some s)
    /\ (List.length (memories d')
        = List.length (memories d) - List.length (filter (inSession s) (memories d)))%nat
    /\ deleteBySession s self' = Ok (0%Z, self').
Proof.
  intros Hdb.
  set (keep := fun row : Z * MemoryRecord => negb (inSession s row)).
  set (d' := {| memories := filter keep (memories d);
                memories_fts :=
                  fold_left (fun f rowid => deleteFts rowid f)
                    (map fst (filter (inSession s) (memories d))) (memories_fts d) |}).
  assert (K : forall row, keep row = true <-> sourceSession (snd row) <> Some s).
  { intros row. unfold keep. rewrite negb_true_iff, <- not_true_iff_false.
    now rewrite inSession_eq. }
  pose proof (filter_length_split (inSession s) (memories d)) as L.
  fold keep in L.
  exists {| db := Some d'; dirty := true; file := file self |}, d'.
  split.
  { rewrite (deleteBySession_opened s self d Hdb). fold keep. fold d'.
    f_equal. f_equal. lia. }
  repeat split.
  - now apply filter_In in H.
  - apply filter_In in H. now apply K.
  - intros [H1 H2]. apply filter_In. split; [assumption | now apply K].
  - intros j m Hst Hs.
    destruct (stored_Some_selectById _ _ _ Hst) as (rowid & rest & E).
    unfold stored, selectById, d'. cbn [memories].
    rewrite filter_filter_comm. unfold selectById in E. rewrite E.
    cbn [filter]. rewrite (proj2 (K (rowid, m)) Hs). reflexivity.
  - intros j m Hst. apply stored_In in Hst. apply in_map_iff in Hst.
    destruct Hst as (row & <- & Hrow). unfold d' in Hrow. cbn [memories] in Hrow.
    apply filter_In in Hrow. now apply K.
  - unfold d'. cbn [memories]. lia.
  - rewrite (deleteBySession_opened s {| db := Some d'; dirty := true; file := file self |} d'
               eq_refl).
    fold keep.
    assert (N : filter (inSession s) (memories d') = []).
    { apply filter_none. intros row Hrow. unfold d' in Hrow. cbn [memories] in Hrow.
      apply filter_In in Hrow. destruct Hrow as [_ Hrow]. unfold keep in Hrow.
      now apply negb_true_iff in Hrow. }
    rewrite N. unfold d' at 1 2 3. cbn [memories memories_fts map fold_left].
    rewrite filter_idempotent. fold d'. f_equal. f_equal. lia.
Qed.

Lemma deleteBySession_removes_the_session_witness :
  exists self',
    deleteBySession "s1" (openedWith sessionRows) = Ok (2%Z, self')
    /\ db self' = Some (tablesOf [(2%Z, sessionRecord "b" "lives in Oslo" (Some "s2"%string))])
    /\ deleteBySession "s1" self' = Ok (0%Z, self').
Proof.
  destruct (deleteBySession_removes_the_session "s1" (openedWith sessionRows)
              (tablesOf sessionRows) eq_refl)
    as (self' & d' & H1 & H2 & _ & _ & _ & _ & _ & _ & H3).
  exists self'. split; [exact H1|]. split; [|exact H3].
  vm_compute in H1. injection H1 as <-. reflexivity.
Defined.

(* ================================================================== *)
(** * Further properties: what every state of the store satisfies *)
(* ================================================================== *)

(** The entry of the text index that belongs to a row. *)
Definition ftsEntry (row : Z * MemoryRecord) : Z * string := (fst row, content (snd row)).

Definition dimsAgree (m : MemoryRecord) : Prop :=
  embeddingDims m = option_map (fun e => Z.of_nat (List.length e)) (embedding m).

(** The tables as the methods keep them: ids and rowids are unique, the
    text index holds one entry per row, with the content of that row, and
    [embeddingDims] is the length of the embedding. *)
Record consistent (d : SqlJsDatabase) : Prop := {
  unique_ids : uniqueIds d;
  unique_rowids : NoDup (map fst (memories d));
  index_in_sync : Permutation (memories_fts d) (map ftsEntry (memories d));
  dims_agree : forall row, In row (memories d) -> dimsAgree (snd row)
}.

(** The object: both the open database and the file are consistent, and
    when nothing is marked as changed the file holds the open database. *)
Definition wellFormed (self : MemoryDatabase) : Prop :=
  (forall d, db self = Some d -> consistent d)
  /\ (forall f, file self = Some f -> consistent f)
  /\ (dirty self = false -> forall d, db self = Some d -> file self = Some d).

(** [new MemoryDatabase(dbPath)] where no file exists yet. *)
Definition newDatabase : MemoryDatabase := {| db := None; dirty := false; file := None |}.

(** The calls a client can make on the object. *)
Inductive Call : Type :=
| CallOpen
| CallSave
| CallClose
| CallCreateMemory (uuid : string) (now : Z) (input : CreateMemoryInput)
| CallGetMemory (now : Z) (i : string)
| CallUpdateMemory (now : Z) (i : string) (input : UpdateMemoryInput)
| CallDeleteMemory (i : string)
| CallDeleteBySession (sessionId : string)
| CallRebuildFtsIndex.

(** The object after a call: a call that throws leaves it as it was. *)
Definition perform (self : MemoryDatabase) (c : Call) : MemoryDatabase :=
  match c with
  | CallOpen => stateAfter (open self) self
  | CallSave => stateAfter (save self) self
  | CallClose => stateAfter (close self) self
  | CallCreateMemory uuid now input => stateAfter (createMemory uuid now input self) self
  | CallGetMemory now i => stateAfter (getMemory now i self) self
  | CallUpdateMemory now i input => stateAfter (updateMemory now i input self) self
  | CallDeleteMemory i => stateAfter (deleteMemory i self) self
  | CallDeleteBySession s => stateAfter (deleteBySession s self) self
  | CallRebuildFtsIndex => stateAfter (rebuildFtsIndex self) self
  end.

Lemma fold_max_ge (l : list Z) (a : Z) :
  (a <= fold_left Z.max l a)%Z /\ forall x, In x l -> (x <= fold_left Z.max l a)%Z.
Proof.
  revert a. induction l as [|y l IH]; intros a; simpl.
  - split; [lia | intros x []].
  - destruct (IH (Z.max a y)) as [H1 H2]. split; [lia|].
    intros x [<-|Hx]; [lia | now apply H2].
Qed.

Lemma nextRowid_fresh (d : SqlJsDatabase) : ~ In (nextRowid d) (map fst (memories d)).
Proof.
  intros H. apply (proj2 (fold_max_ge (map fst (memories d)) 0)) in H.
  unfold nextRowid in H. lia.
Qed.

Lemma filter_Permutation {A} (p : A -> bool) (l l' : list A) :
  Permutation l l' -> Permutation (filter p l) (filter p l').
Proof.
  induction 1 as [|x l l' H IH|x y l|l l' l'' H1 IH1 H2 IH2]; simpl.
  - constructor.
  - destruct (p x); [now constructor | assumption].
  - destruct (p x), (p y); try reflexivity. constructor.
  - now transitivity (filter p l').
Qed.

Lemma filter_map_swap {A B} (f : A -> B) (p : B -> bool) (l : list A) :
  filter p (map f l) = map f (filter (fun x => p (f x)) l).
Proof.
  induction l as [|x l IH]; simpl; [reflexivity|].
  destruct (p (f x)); simpl; now rewrite IH.
Qed.

Lemma filter_filter {A} (p q : A -> bool) (l : list A) :
  filter p (filter q l) = filter (fun x => q x && p x) l.
Proof.
  induction l as [|x l IH]; simpl; [reflexivity|].
  destruct (q x); simpl; [destruct (p x)|]; now rewrite IH.
Qed.

Lemma rowid_unique (rows : list (Z * MemoryRecord)) (r r' : Z * MemoryRecord) :
  NoDup (map fst rows) -> In r rows -> In r' rows -> fst r = fst r' -> r = r'.
Proof.
  intros N H H' E. destruct r as [k m], r' as [k' m']. simpl in E. subst k'.
  f_equal. exact (NoDup_fst_unique rows k m m' N H H').
Qed.

(** With unique ids the table splits around the row of a stored id. *)
Lemma split_at_id (d : SqlJsDatabase) (i : string) (rowid : Z) (m : MemoryRecord)
    (rest : list (Z * MemoryRecord)) :
  uniqueIds d ->
  selectById d i = (rowid, m) :: rest ->
  exists l1 l2,
    memories d = (l1 ++ (rowid, m) :: l2)%list
    /\ (forall row, In row (l1 ++ l2) -> hasId i row = false).
Proof.
  intros U E.
  assert (I : In (rowid, m) (selectById d i)) by (rewrite E; now left).
  apply filter_In in I. destruct I as [I Hi]. apply hasId_eq in Hi. simpl in Hi.
  destruct (in_split _ _ I) as (l1 & l2 & Hs).
  exists l1, l2. split; [assumption|].
  intros row Hrow. apply hasId_neq. intros Hid.
  unfold uniqueIds in U. rewrite Hs, map_app in U. simpl in U.
  apply NoDup_remove_2 in U. apply U. rewrite <- map_app.
  apply in_map_iff. exists row. split; [congruence | assumption].
Qed.

Lemma updateWhereId_split (i : string) (f : MemoryRecord -> MemoryRecord)
    (l1 l2 : list (Z * MemoryRecord)) (rowid : Z) (m : MemoryRecord) :
  id m = i ->
  (forall row, In row (l1 ++ l2) -> hasId i row = false) ->
  updateWhereId i f (l1 ++ (rowid, m) :: l2) = (l1 ++ (rowid, f m) :: l2)%list.
Proof.
  intros Hi Hn. unfold updateWhereId. rewrite map_app. simpl.
  assert (K : forall l, (forall row, In row l -> hasId i row = false) ->
                        map (fun row => if hasId i row then (fst row, f (snd row)) else row) l
                        = l).
  { induction l as [|row l IH]; simpl; intros H; [reflexivity|].
    rewrite (H row) by now left. f_equal. apply IH. intros r Hr. apply H. now right. }
  rewrite !K.
  - replace (hasId i (rowid, m)) with true; [reflexivity|].
    symmetry. now apply hasId_eq.
  - intros row Hrow. apply Hn. apply in_app_iff. now right.
  - intros row Hrow. apply Hn. apply in_app_iff. now left.
Qed.

Lemma filter_split (i : string) (l1 l2 : list (Z * MemoryRecord)) (rowid : Z)
    (m : MemoryRecord) :
  id m = i ->
  (forall row, In row (l1 ++ l2) -> hasId i row = false) ->
  filter (fun row => negb (hasId i row)) (l1 ++ (rowid, m) :: l2) = (l1 ++ l2)%list.
Proof.
  intros Hi Hn. rewrite filter_app. simpl.
  replace (hasId i (rowid, m)) with true by (symmetry; now apply hasId_eq).
  simpl. rewrite !filter_all; [reflexivity| |].
  - intros row Hrow. apply negb_true_iff, Hn, in_app_iff. now right.
  - intros row Hrow. apply negb_true_iff, Hn, in_app_iff. now left.
Qed.

(** Dropping the index entries of a rowid drops the entry of its row. *)
Lemma deleteFts_split (fts : list (Z * string)) (l1 l2 : list (Z * MemoryRecord))
    (rowid : Z) (m : MemoryRecord) :
  NoDup (map fst (l1 ++ (rowid, m) :: l2)) ->
  Permutation fts (map ftsEntry (l1 ++ (rowid, m) :: l2)) ->
  Permutation (deleteFts rowid fts) (map ftsEntry (l1 ++ l2)).
Proof.
  intros N P. unfold deleteFts.
  rewrite (filter_Permutation _ _ _ P).
  rewrite filter_map_swap, filter_app. simpl. rewrite Z.eqb_refl. simpl.
  rewrite <- filter_app. rewrite filter_all; [reflexivity|].
  intros row Hrow. apply negb_true_iff, Z.eqb_neq. intros E.
  rewrite map_app in N. simpl in N. apply NoDup_remove_2 in N. apply N.
  rewrite <- map_app. apply in_map_iff. exists row. now split.
Qed.

Lemma consistent_createMemory (uuid : string) (now : Z) (input : CreateMemoryInput)
    (self self' : MemoryDatabase) (d : SqlJsDatabase) (i : string) :
  db self = Some d -> consistent d ->
  createMemory uuid now input self = Ok (i, self') ->
  exists d', db self' = Some d' /\ consistent d' /\ dirty self' = true /\ file self' = file self.
Proof.
  intros Hdb [U N P D] H.
  unfold createMemory, bind, requireDb, setDb, setDirty, ret in H. rewrite Hdb in H.
  destruct (selectById d uuid) eqn:Hsel; [|discriminate].
  injection H as _ <-. eexists. split; [reflexivity|]. split; [|now split].
  constructor; simpl.
  - unfold uniqueIds in *. simpl. rewrite map_app. simpl.
    apply NoDup_app_remove_l with (l := []). simpl.
    apply Permutation_NoDup with (l := uuid :: map (fun row => id (snd row)) (memories d)).
    + apply Permutation_cons_append.
    + constructor; [now apply selectById_nil | assumption].
  - rewrite map_app. simpl.
    apply Permutation_NoDup with (l := nextRowid d :: map fst (memories d)).
    + apply Permutation_cons_append.
    + constructor; [apply nextRowid_fresh | assumption].
  - rewrite map_app. simpl. now apply Permutation_app_tail.
  - intros row Hrow. apply in_app_iff in Hrow. destruct Hrow as [Hrow|[<-|[]]]; [auto|].
    reflexivity.
Qed.

Lemma consistent_updateWhereId (d : SqlJsDatabase) (i : string)
    (f : MemoryRecord -> MemoryRecord) (fts : list (Z * string)) :
  (forall m, id (f m) = id m) ->
  (forall m, dimsAgree m -> dimsAgree (f m)) ->
  consistent d ->
  Permutation fts (map ftsEntry (updateWhereId i f (memories d))) ->
  consistent {| memories := updateWhereId i f (memories d); memories_fts := fts |}.
Proof.
  intros Hid Hdims [U N P D] Hfts.
  constructor; simpl.
  - unfold uniqueIds in *. simpl. unfold updateWhereId. rewrite map_map.
    erewrite map_ext; [exact U|]. intros row. simpl.
    destruct (hasId i row); simpl; [apply Hid | reflexivity].
  - unfold updateWhereId. rewrite map_map.
    erewrite map_ext; [exact N|]. intros row. now destruct (hasId i row).
  - exact Hfts.
  - intros row Hrow. unfold updateWhereId in Hrow. apply in_map_iff in Hrow.
    destruct Hrow as (r & <- & Hr). destruct (hasId i r); simpl; auto.
Qed.

Lemma consistent_getMemory (now : Z) (i : string) (self self' : MemoryDatabase)
    (d : SqlJsDatabase) (r : option MemoryRecord) :
  db self = Some d -> consistent d ->
  getMemory now i self = Ok (r, self') ->
  self' = self
  \/ exists d', db self' = Some d' /\ consistent d' /\ dirty self' = true
                /\ file self' = file self.
Proof.
  intros Hdb C H.
  unfold getMemory, bind, requireDb, setDb, setDirty, ret in H. rewrite Hdb in H.
  destruct (Z.of_nat (List.length (selectById d i)) =? 0)%Z.
  - injection H as _ <-. now left.
  - injection H as _ <-. right. eexists. split; [reflexivity|]. split; [|now split].
    apply consistent_updateWhereId; try assumption; try reflexivity.
    + intros m Hm. exact Hm.
    + destruct C as [_ _ P _]. rewrite P. unfold updateWhereId. rewrite map_map.
      erewrite map_ext; [reflexivity|]. intros row. cbv beta. now destruct (hasId i row).
Qed.

Lemma dimsAgree_applySets (now : Z) (input : UpdateMemoryInput) (m : MemoryRecord) :
  dimsAgree m -> dimsAgree (applySets now input m).
Proof.
  unfold dimsAgree. simpl. intros H. now destruct (u_embedding input).
Qed.

Lemma consistent_updateMemory (now : Z) (i : string) (input : UpdateMemoryInput)
    (self self' : MemoryDatabase) (d : SqlJsDatabase) (r : bool) :
  db self = Some d -> consistent d ->
  updateMemory now i input self = Ok (r, self') ->
  self' = self
  \/ exists d', db self' = Some d' /\ consistent d' /\ dirty self' = true
                /\ file self' = file self.
Proof.
  intros Hdb C H.
  unfold updateMemory, bind, requireDb, setDb, setDirty, ret in H. rewrite Hdb in H.
  destruct (noSets input); [injection H as _ <-; now left|].
  injection H as _ <-. right. eexists. split; [reflexivity|]. split; [|now split].
  apply consistent_updateWhereId; try assumption; try reflexivity.
  { apply dimsAgree_applySets. }
  pose proof C as [U N P D].
  unfold selectById. cbn [memories].
  rewrite (filter_updateWhereId i i) by reflexivity. rewrite String.eqb_refl.
  destruct (filter (hasId i) (memories d)) as [|[rowid m] rest] eqn:E.
  - (* no row has the id: nothing is changed *)
    assert (K : updateWhereId i (applySets now input) (memories d) = memories d).
    { unfold updateWhereId. rewrite <- (map_id (memories d)) at 2.
      apply map_ext_in. intros row Hrow.
      destruct (hasId i row) eqn:Hh; [|reflexivity]. exfalso.
      assert (I : In row (filter (hasId i) (memories d))) by (apply filter_In; now split).
      rewrite E in I. destruct I. }
    rewrite K. simpl. now destruct (u_content input).
  - destruct (split_at_id d i rowid m rest U E) as (l1 & l2 & Hs & Hn).
    assert (Hi : id m = i).
    { assert (I : In (rowid, m) (filter (hasId i) (memories d))) by (rewrite E; now left).
      apply filter_In in I. destruct I as [_ I]. now apply hasId_eq in I. }
    rewrite Hs in *. rewrite (updateWhereId_split i _ l1 l2 rowid m Hi Hn).
    simpl. destruct (u_content input) as [c|] eqn:Hc.
    + rewrite (deleteFts_split _ l1 l2 rowid m N P).
      rewrite !map_app. simpl.
      change (ftsEntry (rowid, applySets now input m))
        with (rowid, orElse (u_content input) (content m)).
      rewrite Hc. simpl. rewrite <- app_assoc. apply Permutation_app_head.
      symmetry. apply Permutation_cons_append.
    + rewrite P. rewrite !map_app. simpl.
      change (ftsEntry (rowid, applySets now input m))
        with (rowid, orElse (u_content input) (content m)).
      now rewrite Hc.
Qed.

Lemma consistent_deleteMemory (i : string) (self self' : MemoryDatabase)
    (d : SqlJsDatabase) (r : bool) :
  db self = Some d -> consistent d ->
  deleteMemory i self = Ok (r, self') ->
  self' = self
  \/ exists d', db self' = Some d' /\ consistent d' /\ dirty self' = true
                /\ file self' = file self.
Proof.
  intros Hdb C H.
  unfold deleteMemory, bind, requireDb, setDb, setDirty, ret in H. rewrite Hdb in H.
  destruct (selectById d i) as [|[rowid m] rest] eqn:E; [injection H as _ <-; now left|].
  injection H as _ <-. right. eexists. split; [reflexivity|]. split; [|now split].
  pose proof C as [U N P D].
  destruct (split_at_id d i rowid m rest U E) as (l1 & l2 & Hs & Hn).
  assert (Hi : id m = i).
  { assert (I : In (rowid, m) (selectById d i)) by (rewrite E; now left).
    apply filter_In in I. destruct I as [_ I]. now apply hasId_eq in I. }
  unfold uniqueIds in U. rewrite Hs in *.
  constructor; cbn [memories memories_fts].
  - unfold uniqueIds. cbn [memories]. apply NoDup_map_filter. exact U.
  - apply NoDup_map_filter. exact N.
  - rewrite (filter_split i l1 l2 rowid m Hi Hn). now apply deleteFts_split with (m := m).
  - intros row Hrow. apply filter_In in Hrow. now apply D.
Qed.

Lemma fold_deleteFts (rowids : list Z) (fts : list (Z * string)) :
  fold_left (fun f rowid => deleteFts rowid f) rowids fts
  = filter (fun e => negb (existsb (Z.eqb (fst e)) rowids)) fts.
Proof.
  revert fts. induction rowids as [|r rs IH]; intros fts; simpl.
  - symmetry. now apply filter_all.
  - rewrite IH. unfold deleteFts. rewrite filter_filter. apply filter_ext.
    intros e. rewrite negb_orb. reflexivity.
Qed.

Lemma consistent_deleteBySession (s : string) (self self' : MemoryDatabase)
    (d : SqlJsDatabase) (n : Z) :
  db self = Some d -> consistent d ->
  deleteBySession s self = Ok (n, self') ->
  exists d', db self' = Some d' /\ consistent d' /\ dirty self' = true
             /\ file self' = file self.
Proof.
  intros Hdb [U N P D] H. rewrite (deleteBySession_opened s self d Hdb) in H.
  injection H as _ <-. eexists. split; [reflexivity|]. split; [|now split].
  constructor; cbn [memories memories_fts].
  - unfold uniqueIds. cbn [memories]. now apply NoDup_map_filter.
  - now apply NoDup_map_filter.
  - rewrite fold_deleteFts. rewrite (filter_Permutation _ _ _ P), filter_map_swap.
    erewrite filter_ext_in; [reflexivity|].
    intros row Hrow. cbn [ftsEntry fst]. f_equal.
    destruct (inSession s row) eqn:E.
    + apply existsb_exists. exists (fst row). split; [|apply Z.eqb_refl].
      apply in_map. apply filter_In. now split.
    + apply not_true_iff_false. intros X. apply existsb_exists in X.
      destruct X as (k & Hk & Ek). apply Z.eqb_eq in Ek. subst k.
      apply in_map_iff in Hk. destruct Hk as (row' & Hf & Hrow').
      apply filter_In in Hrow'. destruct Hrow' as [Hin Hs'].
      assert (row' = row) by (apply (rowid_unique (memories d)); assumption).
      subst row'. congruence.
  - intros row Hrow. apply filter_In in Hrow. now apply D.
Qed.

Lemma consistent_rebuildFtsIndex (self self' : MemoryDatabase) (d : SqlJsDatabase) :
  db self = Some d -> consistent d ->
  rebuildFtsIndex self = Ok (tt, self') ->
  exists d', db self' = Some d' /\ consistent d' /\ dirty self' = true
             /\ file self' = file self.
Proof.
  intros Hdb [U N P D] H.
  unfold rebuildFtsIndex, bind, requireDb, setDb, setDirty, ret in H. rewrite Hdb in H.
  injection H as <-. eexists. split; [reflexivity|]. split; [|now split].
  constructor; cbn [memories memories_fts]; try assumption. reflexivity.
Qed.

Lemma consistent_emptyDatabase : consistent emptyDatabase.
Proof.
  constructor; simpl; [constructor | constructor | constructor | intros row []].
Qed.

Lemma wellFormed_changed (self self' : MemoryDatabase) :
  wellFormed self ->
  self' = self
  \/ (exists d', db self' = Some d' /\ consistent d' /\ dirty self' = true
                 /\ file self' = file self) ->
  wellFormed self'.
Proof.
  intros W [->|(d' & Hd & C & Hdirty & Hf)]; [assumption|].
  destruct W as (W1 & W2 & W3). split; [|split].
  - intros d0 H0. rewrite Hd in H0. now injection H0 as <-.
  - intros f Hf'. rewrite Hf in Hf'. now apply W2.
  - intros Hc. congruence.
Qed.

Lemma wellFormed_perform (self : MemoryDatabase) (c : Call) :
  wellFormed self -> wellFormed (perform self c).
Proof.
  intros W. pose proof W as (W1 & W2 & W3).
  destruct c as [| | |uuid now input|now i|now i input|i|s|]; unfold perform.
  - (* open *)
    unfold open, save. cbn [db dirty file stateAfter].
    split; [|split]; cbn [db dirty file].
    + intros d [= <-]. destruct (file self) as [f|] eqn:F; [now apply W2|].
      apply consistent_emptyDatabase.
    + intros f [= <-]. destruct (file self) as [f|] eqn:F; [now apply W2|].
      apply consistent_emptyDatabase.
    + intros _ d [= <-]. reflexivity.
  - (* save *)
    unfold save. destruct (db self) as [d|] eqn:Hdb; [|exact W].
    destruct (dirty self) eqn:Hdirty; [|exact W].
    cbn [stateAfter]. split; [|split]; cbn [db dirty file].
    + intros d0 [= <-]. now apply W1.
    + intros d0 [= <-]. now apply W1.
    + intros _ d0 [= <-]. reflexivity.
  - (* close *)
    unfold close, save. destruct (db self) as [d|] eqn:Hdb; [|exact W].
    destruct (dirty self) eqn:Hdirty; cbn [stateAfter]; (split; [|split]);
      cbn [db dirty file]; try discriminate.
    + intros f [= <-]. now apply W1.
    + exact W2.
  - destruct (createMemory uuid now input self) as [[i self']|e] eqn:H; [|exact W].
    cbn [stateAfter]. destruct (db self) as [d|] eqn:Hdb.
    + apply (wellFormed_changed self); [exact W|]. right.
      apply (consistent_createMemory uuid now input self self' d i Hdb (W1 d eq_refl) H).
    + unfold createMemory, bind, requireDb in H. rewrite Hdb in H. discriminate.
  - destruct (getMemory now i self) as [[r self']|e] eqn:H; [|exact W].
    cbn [stateAfter]. destruct (db self) as [d|] eqn:Hdb.
    + apply (wellFormed_changed self); [exact W|].
      apply (consistent_getMemory now i self self' d r Hdb (W1 d eq_refl) H).
    + unfold getMemory, bind, requireDb in H. rewrite Hdb in H. discriminate.
  - destruct (updateMemory now i input self) as [[r self']|e] eqn:H; [|exact W].
    cbn [stateAfter]. destruct (db self) as [d|] eqn:Hdb.
    + apply (wellFormed_changed self); [exact W|].
      apply (consistent_updateMemory now i input self self' d r Hdb (W1 d eq_refl) H).
    + unfold updateMemory, bind, requireDb in H. rewrite Hdb in H. discriminate.
  - destruct (deleteMemory i self) as [[r self']|e] eqn:H; [|exact W].
    cbn [stateAfter]. destruct (db self) as [d|] eqn:Hdb.
    + apply (wellFormed_changed self); [exact W|].
      apply (consistent_deleteMemory i self self' d r Hdb (W1 d eq_refl) H).
    + unfold deleteMemory, bind, requireDb in H. rewrite Hdb in H. discriminate.
  - destruct (deleteBySession s self) as [[r self']|e] eqn:H; [|exact W].
    cbn [stateAfter]. destruct (db self) as [d|] eqn:Hdb.
    + apply (wellFormed_changed self); [exact W|]. right.
      apply (consistent_deleteBySession s self self' d r Hdb (W1 d eq_refl) H).
    + unfold deleteBySession, bind, requireDb in H. rewrite Hdb in H. discriminate.
  - destruct (rebuildFtsIndex self) as [[[] self']|e] eqn:H; [|exact W].
    cbn [stateAfter]. destruct (db self) as [d|] eqn:Hdb.
    + apply (wellFormed_changed self); [exact W|]. right.
      apply (consistent_rebuildFtsIndex self self' d Hdb (W1 d eq_refl) H).
    + unfold rebuildFtsIndex, bind, requireDb in H. rewrite Hdb in H. discriminate.
Qed.

Lemma wellFormed_fold (calls : list Call) (self : MemoryDatabase) :
  wellFormed self -> wellFormed (fold_left perform calls self).
Proof.
  revert self. induction calls as [|c calls IH]; intros self W; [exact W|].
  simpl. apply IH. now apply wellFormed_perform.
Qed.

Lemma wellFormed_newDatabase : wellFormed newDatabase.
Proof.
  split; [|split]; simpl; discriminate.
Qed.

(** X12: the methods keep the tables consistent.  Whatever sequence of
    [open], [save], [close], [createMemory], [getMemory], [updateMemory],
    [deleteMemory], [deleteBySession] and [rebuildFtsIndex] calls is made
    on a new [MemoryDatabase], with whatever arguments and whether the
    calls return or throw: in the open database and in the file, ids and
    rowids are unique, the text index has one entry per row and it carries
    the content of that row, [embeddingDims] is the length of the stored
    embedding, and whenever the object is not marked as changed the file
    holds the open database. *)
Theorem store_stays_consistent (calls : list Call) :
  wellFormed (fold_left perform calls newDatabase).
Proof.
  apply wellFormed_fold, wellFormed_newDatabase.
Qed.

(** A run that ends with two rows, one of them updated. *)
Example store_after_some_calls :
  db (fold_left perform
        [CallOpen;
         CallCreateMemory "a" 1
           {| c_content := "likes tea"; c_category := None; c_embedding := Some [1; 0];
              c_embeddingModel := None; c_sourceType := None; c_sourceSession := None;
              c_sourceMessageIndex := None; c_confidence := None; c_tags := None |};
         CallCreateMemory "b" 2
           {| c_content := "owns a cat"; c_category := None; c_embedding := None;
              c_embeddingModel := None; c_sourceType := None; c_sourceSession := None;
              c_sourceMessageIndex := None; c_confidence := None; c_tags := None |};
         CallUpdateMemory 3 "a"
           {| u_content := Some "likes coffee"%string; u_category := None;
              u_embedding := None; u_embeddingModel := None; u_confidence := None;
              u_tags := None |}]
        newDatabase)
  = Some {| memories :=
              [(1%Z, {| id := "a"; category := other; content := "likes coffee";
                        embedding := Some [1; 0]; embeddingModel := None;
                        embeddingDims := Some 2%Z; sourceType := manual;
                        sourceSession := None; sourceMessageIndex := None;
                        confidence := 1; tags := []; createdAt := 1%Z; updatedAt := 3%Z;
                        lastAccessedAt := 1%Z; accessCount := 0%Z |});
               (2%Z, {| id := "b"; category := other; content := "owns a cat";
                        embedding := None; embeddingModel := None;
                        embeddingDims := None; sourceType := manual;
                        sourceSession := None; sourceMessageIndex := None;
                        confidence := 1; tags := []; createdAt := 2%Z; updatedAt := 2%Z;
                        lastAccessedAt := 2%Z; accessCount := 0%Z |})];
            memories_fts := [(2%Z, "owns a cat"%string); (1%Z, "likes coffee"%string)] |}.
Proof. reflexivity. Qed.

(** X13: what is closed can be opened again.  In any state the methods
    reach with an open database, [close] writes the pending changes and
    drops the connection, and a following [open] brings back the same two
    tables, with nothing marked as changed. *)
Theorem close_then_open_restores (calls : list Call) (d : SqlJsDatabase) :
  db (fold_left perform calls newDatabase) = Some d ->
  exists self1 self2,
    close (fold_left perform calls newDatabase) = Ok (tt, self1)
    /\ db self1 = None /\ file self1 = Some d
    /\ open self1 = Ok (tt, self2)
    /\ db self2 = Some d /\ dirty self2 = false /\ file self2 = Some d.
Proof.
  pose proof (wellFormed_fold calls newDatabase wellFormed_newDatabase) as (_ & _ & W).
  generalize dependent (fold_left perform calls newDatabase). intros self W Hdb.
  unfold close, save. rewrite Hdb.
  destruct (dirty self) eqn:Hdirty.
  - do 2 eexists. split; [reflexivity|]. cbn [db dirty file]. unfold open, save.
    cbn [db dirty file]. repeat split.
  - do 2 eexists. split; [reflexivity|]. cbn [db dirty file].
    rewrite (W eq_refl d Hdb). unfold open, save. cbn [db dirty file]. repeat split.
Qed.

Lemma close_then_open_restores_witness :
  exists self1 self2,
    close (fold_left perform
             [CallOpen;
              CallCreateMemory "a" 1
                {| c_content := "likes tea"; c_category := None; c_embedding := None;
                   c_embeddingModel := None; c_sourceType := None; c_sourceSession := None;
                   c_sourceMessageIndex := None; c_confidence := None; c_tags := None |}]
             newDatabase) = Ok (tt, self1)
    /\ db self1 = None
    /\ open self1 = Ok (tt, self2)
    /\ option_map (fun t => map ftsEntry (memories t)) (db self2)
       = Some [(1%Z, "likes tea"%string)].
Proof.
  destruct (close_then_open_restores
              [CallOpen;
               CallCreateMemory "a" 1
                 {| c_content := "likes tea"; c_category := None; c_embedding := None;
                    c_embeddingModel := None; c_sourceType := None; c_sourceSession := None;
                    c_sourceMessageIndex := None; c_confidence := None; c_tags := None |}]
              _ eq_refl) as (self1 & self2 & H1 & H2 & _ & H3 & H4 & _).
  exists self1, self2. repeat split; try assumption. rewrite H4. reflexivity.
Defined.

Section ClosedDatabase.
Variable embedder : EmbeddingProvider.
Variable execMatch : MatchEngine.

Lemma search_closed (query : string) (opts : PartialOptions) (self : MemoryDatabase) :
  db self = None ->
  search embedder execMatch query opts self
  = if Opt.keywordSearch (withDefaults opts) then Throw NotOpened
    else if Opt.vectorSearch (withDefaults opts) then
      match embed embedder query with
      | Ok _ => Throw NotOpened
      | Throw _ => Ok ([], self)
      end
    else Ok ([], self).
Proof.
  intros Hdb.
  assert (E : mergeResults [] [] (withDefaults opts) = []) by reflexivity.
  unfold search, vectorSearch, keywordSearchInternal, keywordSearch, getAllEmbeddings,
    bind, requireDb, ret.
  destruct (Opt.vectorSearch (withDefaults opts)), (Opt.keywordSearch (withDefaults opts)),
    (embed embedder query); cbv beta; rewrite ?Hdb; try reflexivity;
    rewrite E; simpl; rewrite slice0_nil; reflexivity.
Qed.

(** X14: what a database that is not open does.  Every method that reads
    or writes the tables throws [MemoryDatabase not opened] and leaves the
    object alone, also [keywordSearch] on a query without tokens; so does a
    hybrid search with the keyword part enabled, whatever the embedder
    does.  Only [getMemoriesByIds] with no ids returns (the empty array),
    [isOpen] answers [false], and [save] and [close] do nothing. *)
Theorem closed_database_throws (self : MemoryDatabase)
    (uuid i query : string) (now limit : Z) (input : CreateMemoryInput)
    (update : UpdateMemoryInput) (cat : option MemoryCategory) (ids : list string)
    (opts : PartialOptions) :
  db self = None ->
  createMemory uuid now input self = Throw NotOpened
  /\ getMemory now i self = Throw NotOpened
  /\ countMemories cat self = Throw NotOpened
  /\ updateMemory now i update self = Throw NotOpened
  /\ deleteMemory i self = Throw NotOpened
  /\ deleteBySession i self = Throw NotOpened
  /\ rebuildFtsIndex self = Throw NotOpened
  /\ keywordSearch execMatch query limit self = Throw NotOpened
  /\ getAllEmbeddings self = Throw NotOpened
  /\ getMemoriesByIds (i :: ids) self = Throw NotOpened
  /\ getMemoriesByIds [] self = Ok ([], self)
  /\ (Opt.keywordSearch (withDefaults opts) = true ->
      search embedder execMatch query opts self = Throw NotOpened)
  /\ isOpen self = Ok (false, self)
  /\ save self = Ok (tt, self)
  /\ close self = Ok (tt, self).
Proof.
  intros Hdb.
  repeat match goal with |- _ /\ _ => split end;
    try (unfold createMemory, getMemory, countMemories, updateMemory, deleteMemory,
           deleteBySession, rebuildFtsIndex, keywordSearch, getAllEmbeddings,
           getMemoriesByIds, isOpen, save, close, bind, requireDb, ret;
         rewrite ?Hdb; reflexivity).
  intros K. rewrite (search_closed query opts self Hdb). now rewrite K.
Qed.

End ClosedDatabase.

Lemma closed_database_throws_witness :
  getMemory 1 "a" newDatabase = Throw NotOpened
  /\ search (SimpleHashEmbeddingProvider 128) matchEverything "tea" noOptions newDatabase
     = Throw NotOpened.
Proof.
  pose proof (closed_database_throws (SimpleHashEmbeddingProvider 128) matchEverything
                newDatabase "a" "a" "tea" 1 1
                {| c_content := "likes tea"; c_category := None; c_embedding := None;
                   c_embeddingModel := None; c_sourceType := None; c_sourceSession := None;
                   c_sourceMessageIndex := None; c_confidence := None; c_tags := None |}
                {| u_content := None; u_category := None; u_embedding := None;
                   u_embeddingModel := None; u_confidence := None; u_tags := None |}
                None [] noOptions eq_refl) as H.
  split; [apply H|]. apply H. reflexivity.
Defined.

(* ================================================================== *)
(** * Further properties: hybrid search *)
(* ================================================================== *)

Lemma vectorSearch_pure (embedder : EmbeddingProvider) (query : string) (limit : Z)
    (self self' : MemoryDatabase) (rs : list Candidate) :
  vectorSearch embedder query limit self = Ok (rs, self') -> self' = self.
Proof.
  unfold vectorSearch. destruct (embed embedder query) as [q|err]; [|now intros [= _ <-]].
  unfold bind. destruct (getAllEmbeddings self) as [[all s1]|] eqn:Ha; [|discriminate].
  destruct (getAllEmbeddings_pure _ _ _ Ha) as [-> _].
  destruct all; now intros [= _ <-].
Qed.

Lemma keywordSearchInternal_pure (execMatch : MatchEngine) (query : string) (limit : Z)
    (self self' : MemoryDatabase) (rs : list Candidate) :
  keywordSearchInternal execMatch query limit self = Ok (rs, self') -> self' = self.
Proof.
  unfold keywordSearchInternal, bind.
  destruct (keywordSearch execMatch query limit self) as [[raw s1]|] eqn:Hk; [|discriminate].
  apply keywordSearch_pure in Hk. subst s1. now intros [= _ <-].
Qed.

Lemma getMemoriesByIds_stored (ids : list string) (self self' : MemoryDatabase)
    (ms : list MemoryRecord) :
  getMemoriesByIds ids self = Ok (ms, self') ->
  self' = self
  /\ forall m, In m ms -> exists d, db self = Some d /\ In m (map snd (memories d)).
Proof.
  unfold getMemoriesByIds. destruct ids as [|i ids].
  - intros [= <- <-]. split; [reflexivity | intros m []].
  - unfold bind, requireDb, ret. destruct (db self) as [d|]; [|discriminate].
    intros [= <- <-]. split; [reflexivity|]. intros m Hm. exists d. split; [reflexivity|].
    apply in_map_iff in Hm. destruct Hm as (row & <- & Hrow).
    apply filter_In in Hrow. now apply in_map.
Qed.

Lemma memoryMapGet_Some (ms : list MemoryRecord) (k : string) (m : MemoryRecord) :
  memoryMapGet ms k = Some m -> In m ms /\ id m = k.
Proof.
  unfold memoryMapGet. intros H. apply find_some in H. destruct H as [H1 H2].
  split; [now apply in_rev | now apply String.eqb_eq].
Qed.

(** The last [map] of [search]: one result for each candidate whose
    record was fetched. *)
Definition hydrate (ms : list MemoryRecord) (r : Candidate) : list MemorySearchResult :=
  match memoryMapGet ms (cand_id r) with
  | Some m => [ {| memory := m; score := cand_score r; matchType := cand_matchType r |} ]
  | None => []
  end.

Lemma hydrate_In (ms : list MemoryRecord) (r : Candidate) (res : MemorySearchResult) :
  In res (hydrate ms r) ->
  score res = cand_score r /\ matchType res = cand_matchType r
  /\ id (memory res) = cand_id r /\ In (memory res) ms.
Proof.
  unfold hydrate. destruct (memoryMapGet ms (cand_id r)) as [m|] eqn:E; [|intros []].
  intros [<-|[]]. simpl. apply memoryMapGet_Some in E. now destruct E.
Qed.

Lemma hydrate_length (ms : list MemoryRecord) (l : list Candidate) :
  (List.length (flat_map (hydrate ms) l) <= List.length l)%nat.
Proof.
  induction l as [|r l IH]; simpl; [lia|].
  rewrite length_app. unfold hydrate at 1.
  destruct (memoryMapGet ms (cand_id r)); simpl; lia.
Qed.

Lemma hydrate_sorted (ms : list MemoryRecord) (l : list Candidate) :
  StronglySorted (descending cand_score) l ->
  StronglySorted (descending score) (flat_map (hydrate ms) l).
Proof.
  induction 1 as [|r l Hs IH Hr]; simpl; [constructor|].
  unfold hydrate at 1. destruct (memoryMapGet ms (cand_id r)) as [m|]; [|exact IH].
  simpl. constructor; [exact IH|].
  apply Forall_forall. intros res Hres. apply in_flat_map in Hres.
  destruct Hres as (r' & Hr' & Hres). apply hydrate_In in Hres. destruct Hres as (E & _).
  unfold descending. simpl. rewrite E.
  rewrite Forall_forall in Hr. exact (Hr r' Hr').
Qed.

Lemma hydrate_NoDup (ms : list MemoryRecord) (l : list Candidate) :
  NoDup (map cand_id l) ->
  NoDup (map (fun res => id (memory res)) (flat_map (hydrate ms) l)).
Proof.
  induction l as [|r l IH]; simpl; intros N; [constructor|].
  inversion N as [|? ? Hn Hl]; subst.
  rewrite map_app. unfold hydrate at 1.
  destruct (memoryMapGet ms (cand_id r)) as [m|] eqn:E; [|now apply IH].
  simpl. constructor; [|now apply IH].
  intros Hin. apply in_map_iff in Hin. destruct Hin as (res & Hid & Hres).
  apply in_flat_map in Hres. destruct Hres as (r' & Hr' & Hres).
  apply hydrate_In in Hres. destruct Hres as (_ & _ & E' & _).
  apply memoryMapGet_Some in E. destruct E as [_ E].
  apply Hn. apply in_map_iff. exists r'. split; [congruence | assumption].
Qed.

Lemma filter_sorted {A} (R0 : A -> A -> Prop) (p : A -> bool) (l : list A) :
  StronglySorted R0 l -> StronglySorted R0 (filter p l).
Proof.
  induction 1 as [|x l Hs IH Hall]; simpl; [constructor|].
  destruct (p x); [|exact IH]. constructor; [exact IH|].
  rewrite Forall_forall in *. intros y Hy. apply filter_In in Hy. now apply Hall.
Qed.

Lemma slice0_NoDup {A B} (f : A -> B) (stop : Z) (l : list A) :
  NoDup (map f l) -> NoDup (map f (slice0 stop l)).
Proof.
  intros N. unfold slice0. destruct (stop <? 0)%Z; rewrite <- firstn_map; now apply NoDup_firstn.
Qed.

(** What [search] returns, with its parts named. *)
Lemma search_shape (embedder : EmbeddingProvider) (execMatch : MatchEngine)
    (query : string) (opts : PartialOptions) (self self' : MemoryDatabase)
    (results : list MemorySearchResult) :
  search embedder execMatch query opts self = Ok (results, self') ->
  self' = self
  /\ exists V K ms,
       (forall m, In m ms -> exists d, db self = Some d /\ In m (map snd (memories d)))
       /\ results
          = flat_map (hydrate ms)
              (slice0 (Opt.maxResults (withDefaults opts))
                 (filter (fun r => Rgeb (cand_score r) (Opt.minScore (withDefaults opts))
                                   && isSome (memoryMapGet ms (cand_id r)))
                    (mergeResults V K (withDefaults opts)))).
Proof.
  unfold search.
  set (options := withDefaults opts).
  set (limit := (Opt.maxResults options * Opt.candidateMultiplier options)%Z).
  set (runVector := if Opt.vectorSearch options then vectorSearch embedder query limit
                    else ret []).
  set (runKeyword := if Opt.keywordSearch options
                     then keywordSearchInternal execMatch query limit else ret []).
  unfold bind at 1.
  destruct (runVector self) as [[V s1]|] eqn:HV; [|discriminate].
  assert (s1 = self).
  { unfold runVector in HV. destruct (Opt.vectorSearch options).
    - now apply vectorSearch_pure in HV.
    - now injection HV as _ <-. }
  subst s1. unfold bind at 1.
  destruct (runKeyword self) as [[K s2]|] eqn:HK; [|discriminate].
  assert (s2 = self).
  { unfold runKeyword in HK. destruct (Opt.keywordSearch options).
    - now apply keywordSearchInternal_pure in HK.
    - now injection HK as _ <-. }
  subst s2.
  destruct (map cand_id _) as [|i ids] eqn:E.
  - intros [= <- <-]. split; [reflexivity|]. exists V, K, [].
    split; [intros m []|].
    apply map_eq_nil in E.
    assert (N : forall l : list Candidate,
               filter (fun r => Rgeb (cand_score r) (Opt.minScore options)
                                && isSome (memoryMapGet [] (cand_id r))) l = []).
    { intros l. apply filter_none. intros r _. unfold memoryMapGet. simpl.
      apply andb_false_r. }
    rewrite N, slice0_nil. reflexivity.
  - unfold bind. destruct (getMemoriesByIds (i :: ids) self) as [[ms s3]|] eqn:G; [|discriminate].
    destruct (getMemoriesByIds_stored _ _ _ _ G) as [-> Hms].
    intros [= <- <-]. split; [reflexivity|]. exists V, K, ms. split; [exact Hms | reflexivity].
Qed.

(** X15: what a hybrid search returns.  Whatever the embedder, the text
    engine, the query and the options: the database object is left as it
    was (no access is counted), there are at most [maxResults] results
    when that option is not negative, every score reaches [minScore], the
    results come in descending order of score, no memory is returned
    twice, and every memory returned is a record of the store, as
    stored. *)
Theorem search_results_are_ranked_and_bounded (embedder : EmbeddingProvider)
    (execMatch : MatchEngine) (query : string) (opts : PartialOptions)
    (self self' : MemoryDatabase) (results : list MemorySearchResult) :
  search embedder execMatch query opts self = Ok (results, self') ->
  self' = self
  /\ ((0 <= Opt.maxResults (withDefaults opts))%Z ->
      (Z.of_nat (List.length results) <= Opt.maxResults (withDefaults opts))%Z)
  /\ (forall res, In res results -> score res >= Opt.minScore (withDefaults opts))
  /\ StronglySorted (descending score) results
  /\ NoDup (map (fun res => id (memory res)) results)
  /\ (forall res, In res results ->
        exists d, db self = Some d /\ In (memory res) (map snd (memories d))).
Proof.
  intros H. destruct (search_shape _ _ _ _ _ _ _ H) as (-> & V & K & ms & Hms & ->).
  split; [reflexivity|]. split; [|split; [|split; [|split]]].
  - intros Hmax.
    pose proof (hydrate_length ms
                  (slice0 (Opt.maxResults (withDefaults opts))
                     (filter (fun r => Rgeb (cand_score r) (Opt.minScore (withDefaults opts))
                                       && isSome (memoryMapGet ms (cand_id r)))
                        (mergeResults V K (withDefaults opts))))) as L1.
    pose proof (slice0_length (Opt.maxResults (withDefaults opts))
                  (filter (fun r => Rgeb (cand_score r) (Opt.minScore (withDefaults opts))
                                    && isSome (memoryMapGet ms (cand_id r)))
                     (mergeResults V K (withDefaults opts))) Hmax) as L2.
    lia.
  - intros res Hres. apply in_flat_map in Hres. destruct Hres as (r & Hr & Hres).
    apply hydrate_In in Hres. destruct Hres as (-> & _).
    apply slice0_incl, filter_In in Hr. destruct Hr as [_ Hr].
    apply andb_true_iff in Hr. destruct Hr as [Hr _]. now apply Rgeb_true_iff in Hr.
  - apply hydrate_sorted, slice0_sorted, filter_sorted, mergeResults_sorted.
  - apply hydrate_NoDup, slice0_NoDup, NoDup_map_filter, mergeResults_NoDup.
  - intros res Hres. apply in_flat_map in Hres. destruct Hres as (r & _ & Hres).
    apply hydrate_In in Hres. destruct Hres as (_ & _ & _ & Hin). now apply Hms.
Qed.

Lemma search_results_are_ranked_and_bounded_witness :
  exists results,
    search planeProvider planeHits "dark" noOptions planeStore = Ok (results, planeStore)
    /\ (Z.of_nat (List.length results) <= 6)%Z
    /\ (forall res, In res results -> score res >= 3 / 10)
    /\ StronglySorted (descending score) results
    /\ NoDup (map (fun res => id (memory res)) results).
Proof.
  destruct (search_opened planeProvider planeHits "dark" noOptions planeStore
              (tablesOf planeRows) eq_refl) as [results Hs].
  exists results. split; [exact Hs|].
  destruct (search_results_are_ranked_and_bounded planeProvider planeHits "dark" noOptions
              planeStore planeStore results Hs) as (_ & H1 & H2 & H3 & H4 & _).
  split; [apply H1; simpl; lia|]. split; [exact H2|]. split; assumption.
Defined.

(** [{ ...opts, vectorSearch: false }] and [{ ...opts, keywordSearch: false }]. *)
Definition vectorOff (opts : PartialOptions) : PartialOptions :=
  {| p_maxResults := p_maxResults opts; p_minScore := p_minScore opts;
     p_vectorSearch := Some false; p_keywordSearch := p_keywordSearch opts;
     p_vectorWeight := p_vectorWeight opts; p_keywordWeight := p_keywordWeight opts;
     p_category := p_category opts; p_candidateMultiplier := p_candidateMultiplier opts |}.

Definition keywordOff (opts : PartialOptions) : PartialOptions :=
  {| p_maxResults := p_maxResults opts; p_minScore := p_minScore opts;
     p_vectorSearch := p_vectorSearch opts; p_keywordSearch := Some false;
     p_vectorWeight := p_vectorWeight opts; p_keywordWeight := p_keywordWeight opts;
     p_category := p_category opts; p_candidateMultiplier := p_candidateMultiplier opts |}.

Lemma mergeResults_weights (V K : list Candidate) (o1 o2 : Opt.SearchOptions) :
  Opt.vectorWeight o1 = Opt.vectorWeight o2 ->
  Opt.keywordWeight o1 = Opt.keywordWeight o2 ->
  mergeResults V K o1 = mergeResults V K o2.
Proof.
  intros Hv Hk. unfold mergeResults. f_equal. apply map_ext. intros entry.
  unfold finalize. now rewrite Hv, Hk.
Qed.

(** [search] after its two candidate searches. *)
Definition searchTail (options : Opt.SearchOptions) (V K : list Candidate)
  : M (list MemorySearchResult) :=
  let merged := mergeResults V K options in
  let topIds :=
    map cand_id
        (slice0 (Opt.maxResults options)
                (filter (fun r => Rgeb (cand_score r) (Opt.minScore options)) merged)) in
  match topIds with
  | [] => ret []
  | _ =>
      memories <- getMemoriesByIds topIds ;;
      ret (flat_map
             (fun r =>
                match memoryMapGet memories (cand_id r) with
                | Some m => [ {| memory := m; score := cand_score r;
                                 matchType := cand_matchType r |} ]
                | None => []
                end)
             (slice0 (Opt.maxResults options)
                (filter (fun r => Rgeb (cand_score r) (Opt.minScore options)
                                  && isSome (memoryMapGet memories (cand_id r)))
                        merged)))
  end.

Lemma search_unfold (embedder : EmbeddingProvider) (execMatch : MatchEngine)
    (query : string) (opts : PartialOptions) (self : MemoryDatabase)
    (V K : list Candidate) :
  (if Opt.vectorSearch (withDefaults opts)
   then vectorSearch embedder query
          (Opt.maxResults (withDefaults opts) * Opt.candidateMultiplier (withDefaults opts))%Z
   else ret []) self = Ok (V, self) ->
  (if Opt.keywordSearch (withDefaults opts)
   then keywordSearchInternal execMatch query
          (Opt.maxResults (withDefaults opts) * Opt.candidateMultiplier (withDefaults opts))%Z
   else ret []) self = Ok (K, self) ->
  search embedder execMatch query opts self = searchTail (withDefaults opts) V K self.
Proof.
  intros HV HK. unfold search. unfold bind at 1. rewrite HV. unfold bind at 1. rewrite HK.
  reflexivity.
Qed.

Lemma searchTail_options (o1 o2 : Opt.SearchOptions) (V K : list Candidate)
    (self : MemoryDatabase) :
  Opt.maxResults o1 = Opt.maxResults o2 ->
  Opt.minScore o1 = Opt.minScore o2 ->
  Opt.vectorWeight o1 = Opt.vectorWeight o2 ->
  Opt.keywordWeight o1 = Opt.keywordWeight o2 ->
  searchTail o1 V K self = searchTail o2 V K self.
Proof.
  intros Hmax Hmin Hvw Hkw. unfold searchTail.
  now rewrite (mergeResults_weights V K _ _ Hvw Hkw), Hmax, Hmin.
Qed.

Lemma candidates_opened (embedder : EmbeddingProvider) (execMatch : MatchEngine)
    (query : string) (opts : PartialOptions) (self : MemoryDatabase) (d : SqlJsDatabase) :
  db self = Some d ->
  exists V K,
    (if Opt.vectorSearch (withDefaults opts)
     then vectorSearch embedder query
            (Opt.maxResults (withDefaults opts) * Opt.candidateMultiplier (withDefaults opts))%Z
     else ret []) self = Ok (V, self)
    /\ (if Opt.keywordSearch (withDefaults opts)
        then keywordSearchInternal execMatch query
               (Opt.maxResults (withDefaults opts)
                * Opt.candidateMultiplier (withDefaults opts))%Z
        else ret []) self = Ok (K, self).
Proof.
  intros Hd.
  assert (HV : exists V,
             (if Opt.vectorSearch (withDefaults opts)
              then vectorSearch embedder query
                     (Opt.maxResults (withDefaults opts)
                      * Opt.candidateMultiplier (withDefaults opts))%Z
              else ret []) self = Ok (V, self)).
  { destruct (Opt.vectorSearch (withDefaults opts));
      [now apply (vectorSearch_opened _ _ _ _ d)|]. unfold ret. eauto. }
  assert (HK : exists K,
             (if Opt.keywordSearch (withDefaults opts)
              then keywordSearchInternal execMatch query
                     (Opt.maxResults (withDefaults opts)
                      * Opt.candidateMultiplier (withDefaults opts))%Z
              else ret []) self = Ok (K, self)).
  { destruct (Opt.keywordSearch (withDefaults opts)); [|unfold ret; eauto].
    destruct (keywordSearch_opened execMatch query
                (Opt.maxResults (withDefaults opts)
                 * Opt.candidateMultiplier (withDefaults opts))%Z self d Hd) as [raw Hraw].
    rewrite (keywordSearchInternal_unfold _ _ _ _ _ _ Hraw). eauto. }
  destruct HV as [V HV], HK as [K HK]. eauto.
Qed.

(** X16: a failing embedder or text engine costs its half of the search
    and no more.  On an opened database [search] returns, whatever the
    embedder and the engine do.  When the embedder rejects the query the
    outcome is the one of the same search with [vectorSearch: false]; when
    the engine rejects the match expression it is the one with
    [keywordSearch: false]; when both fail the search returns no result. *)
Theorem search_survives_failures (embedder : EmbeddingProvider) (execMatch : MatchEngine)
    (query : string) (opts : PartialOptions) (self : MemoryDatabase) (d : SqlJsDatabase) :
  db self = Some d ->
  (exists results, search embedder execMatch query opts self = Ok (results, self))
  /\ ((exists err, embed embedder query = Throw err) ->
      search embedder execMatch query opts self
      = search embedder execMatch query (vectorOff opts) self)
  /\ ((forall limit, exists err, execMatch d (matchExpression query) limit = Throw err) ->
      search embedder execMatch query opts self
      = search embedder execMatch query (keywordOff opts) self)
  /\ ((exists err, embed embedder query = Throw err) ->
      (forall limit, exists err, execMatch d (matchExpression query) limit = Throw err) ->
      search embedder execMatch query opts self = Ok ([], self)).
Proof.
  intros Hd.
  destruct (candidates_opened embedder execMatch query opts self d Hd) as (V & K & HV & HK).
  assert (EV : (exists err, embed embedder query = Throw err) -> V = []).
  { intros [err He]. destruct (Opt.vectorSearch (withDefaults opts)).
    - unfold vectorSearch in HV. rewrite He in HV. now injection HV as <-.
    - now injection HV as <-. }
  assert (EK : (forall limit, exists err, execMatch d (matchExpression query) limit = Throw err)
               -> K = []).
  { intros He. destruct (Opt.keywordSearch (withDefaults opts)); [|now injection HK as <-].
    unfold keywordSearchInternal, keywordSearch, bind, requireDb, ret in HK.
    rewrite Hd in HK.
    destruct (String.length (matchExpression query) =? 0)%nat; [now injection HK as <-|].
    destruct (He (Opt.maxResults (withDefaults opts)
                  * Opt.candidateMultiplier (withDefaults opts))%Z) as [err Herr].
    rewrite Herr in HK. now injection HK as <-. }
  split; [now apply (search_opened _ _ _ _ _ d)|]. split; [|split].
  - intros He. specialize (EV He). subst V.
    rewrite (search_unfold embedder execMatch query opts self [] K HV HK).
    rewrite (search_unfold embedder execMatch query (vectorOff opts) self [] K);
      [now apply searchTail_options | reflexivity | exact HK].
  - intros He. specialize (EK He). subst K.
    rewrite (search_unfold embedder execMatch query opts self V [] HV HK).
    rewrite (search_unfold embedder execMatch query (keywordOff opts) self V []);
      [now apply searchTail_options | exact HV | reflexivity].
  - intros He1 He2. specialize (EV He1). specialize (EK He2). subst V K.
    rewrite (search_unfold embedder execMatch query opts self [] [] HV HK).
    unfold searchTail.
    replace (mergeResults [] [] (withDefaults opts)) with (@nil Candidate) by reflexivity.
    simpl. rewrite slice0_nil. reflexivity.
Qed.

(** An embedder that always rejects, and an engine that always rejects. *)
Definition brokenProvider : EmbeddingProvider :=
  {| modelName := "broken"; dimensions := 2; embed := fun _ => Throw ProviderFailure |}.

Definition brokenEngine : MatchEngine := fun _ _ _ => Throw MatchSyntax.

Lemma search_survives_failures_witness :
  search brokenProvider planeHits "dark" noOptions planeStore
  = search brokenProvider planeHits "dark" (vectorOff noOptions) planeStore
  /\ search planeProvider brokenEngine "dark" noOptions planeStore
     = search planeProvider brokenEngine "dark" (keywordOff noOptions) planeStore
  /\ search brokenProvider brokenEngine "dark" noOptions planeStore = Ok ([], planeStore).
Proof.
  split; [|split].
  - apply (search_survives_failures brokenProvider planeHits "dark" noOptions planeStore
             (tablesOf planeRows) eq_refl).
    now exists ProviderFailure.
  - apply (search_survives_failures planeProvider brokenEngine "dark" noOptions planeStore
             (tablesOf planeRows) eq_refl).
    intros limit. now exists MatchSyntax.
  - apply (search_survives_failures brokenProvider brokenEngine "dark" noOptions planeStore
             (tablesOf planeRows) eq_refl).
    + now exists ProviderFailure.
    + intros limit. now exists MatchSyntax.
Defined.

(* ================================================================== *)
(** * Further properties: the keyword score *)
(* ================================================================== *)

Lemma div_le_div (a b c d : R) : 0 < b -> 0 < d -> a * d <= c * b -> a / b <= c / d.
Proof.
  intros Hb Hd H.
  replace (a / b) with (a * d / (b * d)) by (field; lra).
  replace (c / d) with (c * b / (b * d)) by (field; lra).
  apply Rmult_le_compat_r; [|exact H].
  left. apply Rinv_0_lt_compat. nra.
Qed.

(** The term-frequency factor of [computeBM25Score], with [K] for
    [k1 * (1 - b + b * (tokens / avgTokens))]. *)
Lemma tf_positive (h K : R) : 0 < h -> 0 < K -> 0 < h * (12 / 10 + 1) / (h + K).
Proof.
  intros Hh HK. apply Rdiv_lt_0_compat; nra.
Qed.

Lemma tf_more_hits (h h' K : R) :
  0 < h -> h <= h' -> 0 < K ->
  h * (12 / 10 + 1) / (h + K) <= h' * (12 / 10 + 1) / (h' + K).
Proof.
  intros Hh Hle HK. apply div_le_div; nra.
Qed.

Lemma tf_longer_row (h K K' : R) :
  0 < h -> 0 < K -> K <= K' ->
  h * (12 / 10 + 1) / (h + K') <= h * (12 / 10 + 1) / (h + K).
Proof.
  intros Hh HK Hle. apply div_le_div; nra.
Qed.

Lemma idf_rarer_term (n d d' : R) :
  0 < d -> d <= d' -> d' <= n ->
  ln ((n - d' + 5 / 10) / (d' + 5 / 10) + 1) <= ln ((n - d + 5 / 10) / (d + 5 / 10) + 1).
Proof.
  intros Hd Hle Hn.
  assert (P : forall x, 0 < x -> x <= n -> 0 < (n - x + 5 / 10) / (x + 5 / 10) + 1).
  { intros x Hx Hxn.
    assert (0 < (n - x + 5 / 10) / (x + 5 / 10)) by (apply Rdiv_lt_0_compat; lra). lra. }
  assert (L : (n - d' + 5 / 10) / (d' + 5 / 10) <= (n - d + 5 / 10) / (d + 5 / 10))
    by (apply div_le_div; nra).
  destruct (Req_dec ((n - d' + 5 / 10) / (d' + 5 / 10)) ((n - d + 5 / 10) / (d + 5 / 10)))
    as [E|N].
  - rewrite E. lra.
  - left. apply ln_increasing; [apply P; lra | lra].
Qed.

Lemma lengthFactor_positive (l a : R) :
  0 < l -> 0 < a -> 0 < 12 / 10 * (1 - 75 / 100 + 75 / 100 * (l / a)).
Proof.
  intros Hl Ha. assert (0 < l / a) by (apply Rdiv_lt_0_compat; lra). nra.
Qed.

(** The matchinfo of a row for a query of one phrase, as 'pcnalx' lays it
    out for the one indexed column: [p = 1], [c = 1], the number of rows,
    the average and the row's number of tokens, the hits in the row, the
    hits in all rows, the rows with a hit. *)
Definition onePhrase (n a l h ht dh : Z) : list Z := [1; 1; n; a; l; h; ht; dh]%Z.

Lemma computeBM25Score_onePhrase (n a l h ht dh : Z) :
  (1 <= dh)%Z -> (1 <= n)%Z -> (1 <= h)%Z -> (1 <= a)%Z -> (1 <= l)%Z ->
  computeBM25Score (onePhrase n a l h ht dh)
  = Rmin 1
      (ln ((IZR n - IZR dh + 5 / 10) / (IZR dh + 5 / 10) + 1)
       * (IZR h * (12 / 10 + 1)
          / (IZR h + 12 / 10 * (1 - 75 / 100 + 75 / 100 * (IZR l / IZR a))))
       / 5).
Proof.
  intros Hd Hn Hh Ha Hl.
  unfold computeBM25Score, onePhrase, phraseScore, upTo, infoAt, orDefault, orElse, isSome.
  simpl.
  rewrite (proj2 (Z.eqb_neq n 0)) by lia.
  rewrite (proj2 (Z.eqb_neq h 0)) by lia.
  rewrite (proj2 (Z.eqb_neq dh 0)) by lia.
  rewrite (proj2 (Z.eqb_neq a 0)) by lia.
  rewrite (proj2 (Z.eqb_neq l 0)) by lia.
  rewrite (proj2 (Z.eqb_neq h 0)) by lia.
  rewrite (proj2 (Z.eqb_neq dh 0)) by lia.
  simpl. f_equal. rewrite Rplus_0_l, Rmult_1_l. reflexivity.
Qed.

(** X17: the keyword score of a row for a one-phrase query.  For a
    well-formed matchinfo (at least one row with a hit and no more than
    there are rows, at least one hit in the row, positive token counts)
    [computeBM25Score] is positive and at most 1; it does not depend on the
    number of hits in all rows; with everything else equal it does not
    decrease when the row has more hits, nor when fewer rows have a hit,
    nor when the row is shorter. *)
Theorem computeBM25Score_one_phrase (n a l h ht dh : Z) :
  (1 <= dh <= n)%Z -> (1 <= h)%Z -> (1 <= a)%Z -> (1 <= l)%Z ->
  0 < computeBM25Score (onePhrase n a l h ht dh) <= 1
  /\ (forall ht', computeBM25Score (onePhrase n a l h ht' dh)
                  = computeBM25Score (onePhrase n a l h ht dh))
  /\ (forall h', (h <= h')%Z ->
        computeBM25Score (onePhrase n a l h ht dh)
        <= computeBM25Score (onePhrase n a l h' ht dh))
  /\ (forall dh', (1 <= dh' <= dh)%Z ->
        computeBM25Score (onePhrase n a l h ht dh)
        <= computeBM25Score (onePhrase n a l h ht dh'))
  /\ (forall l', (1 <= l' <= l)%Z ->
        computeBM25Score (onePhrase n a l h ht dh)
        <= computeBM25Score (onePhrase n a l' h ht dh)).
Proof.
  intros [Hd Hn] Hh Ha Hl.
  assert (Pd : 0 < IZR dh) by (apply IZR_lt; lia).
  assert (Pn : IZR dh <= IZR n) by (apply IZR_le; lia).
  assert (Ph : 0 < IZR h) by (apply IZR_lt; lia).
  assert (Pa : 0 < IZR a) by (apply IZR_lt; lia).
  assert (Pl : 0 < IZR l) by (apply IZR_lt; lia).
  pose proof (idf_positive (IZR n) (IZR dh) Pd Pn) as Pidf.
  pose proof (lengthFactor_positive (IZR l) (IZR a) Pl Pa) as PK.
  pose proof (tf_positive (IZR h) _ Ph PK) as Ptf.
  split; [|split; [|split; [|split]]].
  - rewrite computeBM25Score_onePhrase by lia. split; [|apply Rmin_l].
    apply Rmin_glb_lt; [lra|]. apply Rdiv_lt_0_compat; [|lra].
    now apply Rmult_lt_0_compat.
  - intros ht'. now rewrite !computeBM25Score_onePhrase by lia.
  - intros h' Hh'. rewrite !computeBM25Score_onePhrase by lia.
    apply Rle_min_compat_l. apply Rmult_le_compat_r; [lra|].
    apply Rmult_le_compat_l; [lra|].
    apply tf_more_hits; [exact Ph | apply IZR_le; lia | exact PK].
  - intros dh' [Hd1 Hd2]. rewrite !computeBM25Score_onePhrase by lia.
    apply Rle_min_compat_l. apply Rmult_le_compat_r; [lra|].
    apply Rmult_le_compat_r; [lra|].
    apply idf_rarer_term; [apply IZR_lt; lia | apply IZR_le; lia | exact Pn].
  - intros l' [Hl1 Hl2]. rewrite !computeBM25Score_onePhrase by lia.
    apply Rle_min_compat_l. apply Rmult_le_compat_r; [lra|].
    apply Rmult_le_compat_l; [lra|].
    assert (Pl' : 0 < IZR l') by (apply IZR_lt; lia).
    apply tf_longer_row; [exact Ph | now apply lengthFactor_positive |].
    assert (IZR l' / IZR a <= IZR l / IZR a).
    { apply Rmult_le_compat_r; [left; now apply Rinv_0_lt_compat | apply IZR_le; lia]. }
    lra.
Qed.

Lemma computeBM25Score_one_phrase_witness :
  0 < computeBM25Score darkHit <= 1
  /\ computeBM25Score darkHit <= computeBM25Score [1; 1; 3; 4; 4; 2; 1; 1]%Z.
Proof.
  destruct (computeBM25Score_one_phrase 3 4 4 1 1 1 ltac:(lia) ltac:(lia) ltac:(lia)
              ltac:(lia)) as (H1 & _ & H2 & _).
  split; [exact H1|]. apply (H2 2%Z). lia.
Defined.

(* ================================================================== *)
(** * Further properties: the match expression *)
(* ================================================================== *)

Lemma everyChar_app (p : ascii -> bool) (a b : string) :
  everyChar p (a ++ b) = everyChar p a && everyChar p b.
Proof.
  induction a as [|c a IH]; simpl; [reflexivity|]. now rewrite IH, andb_assoc.
Qed.

Lemma everyChar_removeChar (p : ascii -> bool) (c : ascii) (s : string) :
  everyChar p s = true -> everyChar p (removeChar c s) = true.
Proof.
  induction s as [|d s IH]; simpl; [reflexivity|].
  intros H. apply andb_true_iff in H. destruct H as [H1 H2].
  destruct (Ascii.eqb c d); simpl; [auto|]. rewrite H1. now apply IH.
Qed.

Lemma removeChar_removes (c : ascii) (s : string) :
  everyChar (fun d => negb (Ascii.eqb d c)) (removeChar c s) = true.
Proof.
  induction s as [|d s IH]; simpl; [reflexivity|].
  destruct (Ascii.eqb c d) eqn:E; [exact IH|].
  simpl. rewrite Ascii.eqb_sym, E. exact IH.
Qed.

Lemma everyChar_and (p q : ascii -> bool) (s : string) :
  everyChar p s = true -> everyChar q s = true ->
  everyChar (fun c => p c && q c) s = true.
Proof.
  induction s as [|c s IH]; simpl; [reflexivity|].
  intros H1 H2. apply andb_true_iff in H1, H2. destruct H1 as [A1 A2], H2 as [B1 B2].
  rewrite A1, B1. now apply IH.
Qed.

Lemma splitFrom_tokens (p : ascii -> bool) (s : string) :
  (forall c, isWhitespace c = false -> In c (list_ascii_of_string s) -> p c = true) ->
  forall cur inGap,
    everyChar p cur = true ->
    Forall (fun t => everyChar p t = true) (splitFrom cur inGap s).
Proof.
  induction s as [|c s IH]; intros Hp cur inGap Hcur; simpl.
  - now constructor.
  - assert (Hp' : forall c0, isWhitespace c0 = false -> In c0 (list_ascii_of_string s) ->
                             p c0 = true)
      by (intros c0 Hw Hin; apply Hp; [assumption | now right]).
    destruct (isWhitespace c) eqn:W.
    + destruct inGap; [now apply IH|]. constructor; [exact Hcur | now apply IH].
    + apply IH; [exact Hp'|]. rewrite everyChar_app, Hcur. simpl.
      rewrite (Hp c W) by now left. reflexivity.
Qed.

Lemma toLowerCase_chars (s : string) (c : ascii) :
  In c (list_ascii_of_string (toLowerCase s)) -> lowerChar c = c.
Proof.
  induction s as [|d s IH]; simpl; [intros []|].
  intros [<-|H]; [apply lowerChar_idempotent | now apply IH].
Qed.

(** X18: the match expression is made of clean quoted phrases.  For
    every query the expression [keywordSearch] hands to the text engine is
    a list of phrases joined by single spaces, one for each
    whitespace-separated token of more than one code unit, and none exactly
    when no two code units other than whitespace follow each other in the
    query; each phrase is a word between two double quotes, and the word
    contains no double quote, no whitespace (the no-break space included)
    and no capital letter (those of U+00C0 to U+00DE included).  The
    expression, and with it the outcome of [keywordSearch], is the same for
    the lower-cased query. *)
Theorem matchExpression_phrases (query : string) :
  exists words,
    matchExpression query = join " " (map phrase words)
    /\ List.length words
       = List.length (filter (fun t => (1 <? String.length t)%nat)
                        (splitWhitespace (toLowerCase query)))
    /\ (words = [] <-> hasLongToken query = false)
    /\ Forall (fun w => everyChar (fun c => negb (Ascii.eqb c doubleQuote)
                                            && (negb (isWhitespace c)
                                                && Ascii.eqb (lowerChar c) c)) w = true)
              words
    /\ matchExpression (toLowerCase query) = matchExpression query
    /\ (forall execMatch limit self,
          keywordSearch execMatch (toLowerCase query) limit self
          = keywordSearch execMatch query limit self).
Proof.
  exists (map (removeChar doubleQuote)
            (filter (fun t => (1 <? String.length t)%nat)
               (splitWhitespace (toLowerCase query)))).
  assert (E : matchExpression (toLowerCase query) = matchExpression query)
    by (unfold matchExpression; now rewrite toLowerCase_idempotent).
  split; [|split; [|split; [|split; [|split]]]].
  - unfold matchExpression. now rewrite map_map.
  - apply length_map.
  - rewrite <- longTokens_none.
    destruct (filter _ (splitWhitespace (toLowerCase query))); simpl; split;
      congruence.
  - apply Forall_forall. intros w Hw. apply in_map_iff in Hw.
    destruct Hw as (t & <- & Ht). apply filter_In in Ht. destruct Ht as [Ht _].
    apply everyChar_and; [apply removeChar_removes|].
    apply everyChar_removeChar.
    assert (S : Forall (fun t => everyChar (fun c => negb (isWhitespace c)
                                                     && Ascii.eqb (lowerChar c) c) t = true)
                       (splitWhitespace (toLowerCase query))).
    { apply splitFrom_tokens; [|reflexivity].
      intros c W Hc. rewrite W. simpl. apply Ascii.eqb_eq.
      now apply toLowerCase_chars in Hc. }
    rewrite Forall_forall in S. now apply S.
  - exact E.
  - intros execMatch limit self. unfold keywordSearch. now rewrite E.
Qed.

Example matchExpression_example :
  matchExpression ("Dark  " ++ String doubleQuote "Mode" ++ String doubleQuote " a")
  = join " " [phrase "dark"; phrase "mode"].
Proof. reflexivity. Qed.

(** Code units above U+007F: one small e with an acute accent is one
    token of length 1, the no-break space separates tokens, and the capital
    E with an acute accent is lower-cased. *)
Example matchExpression_latin1 :
  matchExpression smallEAcute = EmptyString
  /\ matchExpression ("a" ++ noBreakSpace ++ "b") = EmptyString
  /\ matchExpression (capitalEAcute ++ "t" ++ capitalEAcute)
     = phrase (smallEAcute ++ "t" ++ smallEAcute).
Proof. repeat split. Qed.

(* ================================================================== *)
(** * Further properties: capture *)
(* ================================================================== *)

(** The rows of the open database (none when it is not open). *)
Definition rowsOf (self : MemoryDatabase) : list (Z * MemoryRecord) :=
  match db self with
  | Some d => memories d
  | None => []
  end.

(** The record [storeWithDeduplication] inserts for an extracted memory. *)
Definition capturedRecord (embedder : EmbeddingProvider) (uuid : string) (now : Z)
    (memory : ExtractedMemory) (sessionId : string) : MemoryRecord :=
  let e := match embed embedder (e_content memory) with
           | Ok v => Some v
           | Throw _ => None
           end in
  {| id := uuid;
     category := e_category memory;
     content := e_content memory;
     embedding := e;
     embeddingModel := option_map (fun _ => modelName embedder) e;
     embeddingDims := option_map (fun v => Z.of_nat (List.length v)) e;
     sourceType := auto_capture;
     sourceSession := Some sessionId;
     sourceMessageIndex := None;
     confidence := e_confidence memory;
     tags := e_tags memory;
     createdAt := now;
     updatedAt := now;
     lastAccessedAt := now;
     accessCount := 0 |}.

Lemma createMemory_row (uuid : string) (now : Z) (input : CreateMemoryInput)
    (self self' : MemoryDatabase) (i : string) :
  createMemory uuid now input self = Ok (i, self') ->
  exists d,
    db self = Some d /\ selectById d uuid = [] /\ i = uuid
    /\ self' = {| db := Some {| memories := memories d
                                  ++ [(nextRowid d,
                                       {| id := uuid;
                                          category := orElse (c_category input) other;
                                          content := c_content input;
                                          embedding := c_embedding input;
                                          embeddingModel := c_embeddingModel input;
                                          embeddingDims :=
                                            option_map (fun e => Z.of_nat (List.length e))
                                                       (c_embedding input);
                                          sourceType := orElse (c_sourceType input) manual;
                                          sourceSession := c_sourceSession input;
                                          sourceMessageIndex := c_sourceMessageIndex input;
                                          confidence := orElse (c_confidence input) 1;
                                          tags := orElse (c_tags input) [];
                                          createdAt := now;
                                          updatedAt := now;
                                          lastAccessedAt := now;
                                          accessCount := 0 |})];
                                memories_fts := memories_fts d
                                  ++ [(nextRowid d, c_content input)] |};
                  dirty := true; file := file self |}.
Proof.
  unfold createMemory, bind, requireDb, setDb, setDirty, ret.
  destruct (db self) as [d|]; [|discriminate].
  destruct (selectById d uuid) eqn:Hsel; [|discriminate].
  intros [= <- <-]. exists d. repeat split. exact Hsel.
Qed.

(** One call of [storeWithDeduplication]: nothing happens, or the record
    of the memory is appended. *)
Lemma storeWithDeduplication_step (embedder : EmbeddingProvider) (config : CaptureConfig)
    (uuid : string) (now : Z) (memory : ExtractedMemory) (sessionId : string)
    (self self' : MemoryDatabase) (r : option string) :
  storeWithDeduplication embedder config uuid now memory sessionId self = Ok (r, self') ->
  (r = None /\ self' = self /\ db self <> None)
  \/ exists d,
       db self = Some d /\ selectById d uuid = [] /\ r = Some uuid
       /\ self' = {| db := Some {| memories := memories d
                                     ++ [(nextRowid d,
                                          capturedRecord embedder uuid now memory sessionId)];
                                   memories_fts := memories_fts d
                                     ++ [(nextRowid d, e_content memory)] |};
                     dirty := true; file := file self |}.
Proof.
  unfold storeWithDeduplication, capturedRecord.
  destruct (embed embedder (e_content memory)) as [emb|err].
  - unfold bind at 1.
    destruct (getAllEmbeddings self) as [[all s1]|] eqn:Ha; [|discriminate].
    destruct (getAllEmbeddings_pure _ _ _ Ha) as [-> Hopen].
    destruct (duplicateFound (deduplicationThreshold config) emb all).
    + intros [= <- <-]. left. now repeat split.
    + unfold bind.
      destruct (createMemory uuid now _ self) as [[i s2]|] eqn:Hc; [|discriminate].
      intros [= <- <-]. apply createMemory_row in Hc.
      destruct Hc as (d & Hd & Hsel & -> & ->). right. exists d. now repeat split.
  - unfold bind.
    destruct (createMemory uuid now _ self) as [[i s2]|] eqn:Hc; [|discriminate].
    intros [= <- <-]. apply createMemory_row in Hc.
    destruct Hc as (d & Hd & Hsel & -> & ->). right. exists d. now repeat split.
Qed.

(** The ids [captureFromConversation] reports for the rows it stored. *)
Definition reportedIds (new : list (Z * MemoryRecord)) : list string :=
  filter (fun i => negb (String.length i =? 0)%nat) (map (fun row => id (snd row)) new).

Section CaptureFacts.
Variable embedder : EmbeddingProvider.
Variable config : CaptureConfig.
Variable MEMORY_EXTRACTION_PROMPT : string.
Variable parseExtractionResponse : string -> list ExtractedMemory.
Variable extractFn : string -> Result string.
Variable uuid : nat -> string.
Variable now : nat -> Z.

(** A row stored for one of the memories [ms]. *)
Definition storedFor (sessionId : string) (ms : list ExtractedMemory)
    (row : Z * MemoryRecord) : Prop :=
  exists memory k,
    In memory ms /\ snd row = capturedRecord embedder (uuid k) (now k) memory sessionId.

Lemma storeAll_rows (sessionId : string) (filtered : list ExtractedMemory) :
  forall (k : nat) (storedIds ids : list string) (self self' : MemoryDatabase),
    storeAll embedder config uuid now sessionId k filtered storedIds self = Ok (ids, self') ->
    exists new,
      rowsOf self' = (rowsOf self ++ new)%list
      /\ ids = (storedIds ++ reportedIds new)%list
      /\ (List.length new <= List.length filtered)%nat
      /\ Forall (storedFor sessionId filtered) new
      /\ file self' = file self
      /\ (new = [] -> self' = self).
Proof.
  induction filtered as [|memory rest IH]; intros k storedIds ids self self' H.
  - simpl in H. injection H as <- <-. exists []. rewrite !app_nil_r.
    repeat split; auto.
  - simpl in H. unfold bind in H.
    destruct (storeWithDeduplication embedder config (uuid k) (now k) memory sessionId self)
      as [[r s1]|] eqn:Hs; [|discriminate].
    apply IH in H. destruct H as (new & Hrows & Hids & Hlen & Hall & Hfile & Hnil).
    assert (Hall' : Forall (storedFor sessionId (memory :: rest)) new).
    { eapply Forall_impl; [|exact Hall]. intros row (m & k' & Hm & E).
      exists m, k'. split; [now right | exact E]. }
    apply storeWithDeduplication_step in Hs.
    destruct Hs as [(-> & -> & _)|(d & Hd & Hsel & -> & ->)].
    + exists new. simpl in Hids. repeat split; auto. simpl. lia.
    + exists ((nextRowid d, capturedRecord embedder (uuid k) (now k) memory sessionId) :: new).
      unfold rowsOf in *. rewrite Hd. simpl in Hrows. rewrite Hrows, <- app_assoc.
      split; [reflexivity|]. split; [|split; [|split; [|split]]].
      * rewrite Hids. unfold pushId, reportedIds. simpl.
        destruct (String.length (uuid k) =? 0)%nat; simpl; [reflexivity|].
        now rewrite <- app_assoc.
      * simpl. lia.
      * constructor; [|exact Hall']. exists memory, k. split; [now left | reflexivity].
      * exact Hfile.
      * discriminate.
Qed.

Lemma filterExtracted_In (extracted : list ExtractedMemory) (memory : ExtractedMemory) :
  In memory (filterExtracted config extracted) ->
  In memory extracted
  /\ e_confidence memory >= minConfidence config
  /\ includes (categories config) (e_category memory) = true.
Proof.
  unfold filterExtracted. intros H. apply slice0_incl in H.
  apply filter_In in H. destruct H as [H Hc]. apply filter_In in H. destruct H as [H Hm].
  apply Rgeb_true_iff in Hm. now repeat split.
Qed.

(** X19: what a capture adds to the store.  When [captureFromConversation]
    returns, the rows of the database are the rows it had followed by the
    new ones, and the file is not written.  There are at most
    [maxPerTurn] new rows (when that is not negative), the ids returned are
    theirs, in order, and each new row records a memory that the parser
    produced from the classifier's response: with its content, category,
    confidence and tags, a confidence that reaches [minConfidence], a
    category among the configured ones, the source type [auto_capture] and
    the session id.  Nothing is added when capture is disabled, when the
    classifier call fails or when the parser yields no memory, and then the
    object is left as it was. *)
Theorem captureFromConversation_adds_filtered_memories
    (userMessage assistantMessage sessionId : string)
    (self self' : MemoryDatabase) (ids : list string) :
  captureFromConversation embedder config MEMORY_EXTRACTION_PROMPT parseExtractionResponse
    extractFn uuid now userMessage assistantMessage sessionId self = Ok (ids, self') ->
  exists new,
    rowsOf self' = (rowsOf self ++ new)%list
    /\ file self' = file self
    /\ ids = reportedIds new
    /\ ((0 <= maxPerTurn config)%Z -> (Z.of_nat (List.length new) <= maxPerTurn config)%Z)
    /\ (forall row, In row new ->
          sourceType (snd row) = auto_capture
          /\ sourceSession (snd row) = Some sessionId
          /\ confidence (snd row) >= minConfidence config
          /\ includes (categories config) (category (snd row)) = true
          /\ accessCount (snd row) = 0%Z
          /\ exists prompt response memory,
               extractFn prompt = Ok response
               /\ In memory (parseExtractionResponse response)
               /\ (content (snd row), category (snd row), confidence (snd row), tags (snd row))
                  = (e_content memory, e_category memory, e_confidence memory, e_tags memory))
    /\ (new = [] -> self' = self)
    /\ (enabled config = false -> new = [])
    /\ ((forall prompt, exists err, extractFn prompt = Throw err) -> new = [])
    /\ ((forall response, parseExtractionResponse response = []) -> new = []).
Proof.
  unfold captureFromConversation.
  set (fullPrompt := (MEMORY_EXTRACTION_PROMPT ++ _)%string).
  assert (Nothing : forall s, Ok (ids, self') = Ok ([], s) (A := list string * MemoryDatabase) ->
            exists new : list (Z * MemoryRecord),
              rowsOf self' = (rowsOf s ++ new)%list
              /\ file self' = file s
              /\ ids = reportedIds new
              /\ ((0 <= maxPerTurn config)%Z ->
                  (Z.of_nat (List.length new) <= maxPerTurn config)%Z)
              /\ (forall row, In row new ->
                    sourceType (snd row) = auto_capture
                    /\ sourceSession (snd row) = Some sessionId
                    /\ confidence (snd row) >= minConfidence config
                    /\ includes (categories config) (category (snd row)) = true
                    /\ accessCount (snd row) = 0%Z
                    /\ exists prompt response memory,
                         extractFn prompt = Ok response
                         /\ In memory (parseExtractionResponse response)
                         /\ (content (snd row), category (snd row), confidence (snd row),
                             tags (snd row))
                            = (e_content memory, e_category memory, e_confidence memory,
                               e_tags memory))
              /\ (new = [] -> self' = s)
              /\ (enabled config = false -> new = [])
              /\ ((forall prompt, exists err, extractFn prompt = Throw err) -> new = [])
              /\ ((forall response, parseExtractionResponse response = []) -> new = [])).
  { intros s [= -> ->]. exists []. rewrite app_nil_r.
    split; [reflexivity|]. split; [reflexivity|]. split; [reflexivity|].
    split; [intros Hmax; simpl; lia|]. split; [intros row []|].
    repeat split; reflexivity. }
  destruct (enabled config) eqn:En; [|intros H; apply Nothing; now symmetry].
  cbn [negb].
  destruct (extractFn fullPrompt) as [rawResponse|err] eqn:Hx;
    [|intros H; apply Nothing; now symmetry].
  destruct (parseExtractionResponse rawResponse) as [|m0 ms] eqn:Hp;
    [intros H; apply Nothing; now symmetry|].
  rewrite <- Hp. intros H. apply storeAll_rows in H.
  destruct H as (new & Hrows & Hids & Hlen & Hall & Hfile & Hnil).
  exists new. split; [exact Hrows|]. split; [exact Hfile|]. split; [exact Hids|].
  split; [|split; [|split; [exact Hnil|split; [discriminate|split]]]].
  - intros Hmax.
    pose proof (slice0_length (maxPerTurn config)
                  (filter (fun m => includes (categories config) (e_category m))
                     (filter (fun m => Rgeb (e_confidence m) (minConfidence config))
                        (parseExtractionResponse rawResponse))) Hmax) as L.
    unfold filterExtracted in Hlen. lia.
  - intros row Hrow. rewrite Forall_forall in Hall.
    destruct (Hall row Hrow) as (memory & k & Hm & E).
    apply filterExtracted_In in Hm. destruct Hm as (Hin & Hconf & Hcat).
    rewrite E. simpl. repeat split; try assumption.
    exists fullPrompt, rawResponse, memory. now repeat split.
  - intros Hfail. destruct (Hfail fullPrompt) as [e He]. congruence.
  - intros Hempty. rewrite Hempty in Hp. discriminate.
Qed.


Lemma createMemory_absent (i : string) (t : Z) (input : CreateMemoryInput)
    (self : MemoryDatabase) (d : SqlJsDatabase) :
  db self = Some d -> absent i d ->
  exists self', createMemory i t input self = Ok (i, self').
Proof.
  intros Hd Ha. unfold createMemory, bind, requireDb, setDb, setDirty, ret.
  rewrite Hd, (selectById_absent d i Ha). eauto.
Qed.

Lemma storeWithDeduplication_opened (i : string) (t : Z) (memory : ExtractedMemory)
    (sessionId : string) (self : MemoryDatabase) (d : SqlJsDatabase) :
  db self = Some d -> absent i d ->
  exists r self', storeWithDeduplication embedder config i t memory sessionId self
                  = Ok (r, self').
Proof.
  intros Hd Ha. unfold storeWithDeduplication.
  destruct (embed embedder (e_content memory)) as [emb|err].
  - unfold bind at 1. rewrite (getAllEmbeddings_eq self d Hd).
    destruct (duplicateFound _ emb (storedEmbeddings d)); [unfold ret; eauto|].
    unfold bind.
    match goal with
    | |- context [createMemory i t ?input self] =>
        destruct (createMemory_absent i t input self d Hd Ha) as [s Hs]; rewrite Hs
    end.
    unfold ret. eauto.
  - unfold bind.
    match goal with
    | |- context [createMemory i t ?input self] =>
        destruct (createMemory_absent i t input self d Hd Ha) as [s Hs]; rewrite Hs
    end.
    unfold ret. eauto.
Qed.

Lemma storeAll_opened (sessionId : string) (filtered : list ExtractedMemory) :
  (forall j k, uuid j = uuid k -> j = k) ->
  forall (k : nat) (storedIds : list string) (self : MemoryDatabase) (d : SqlJsDatabase),
    db self = Some d ->
    (forall k', (k <= k')%nat -> absent (uuid k') d) ->
    exists ids self',
      storeAll embedder config uuid now sessionId k filtered storedIds self = Ok (ids, self').
Proof.
  intros Hinj. induction filtered as [|memory rest IH]; intros k storedIds self d Hd Ha.
  - simpl. unfold ret. eauto.
  - simpl. unfold bind.
    destruct (storeWithDeduplication_opened (uuid k) (now k) memory sessionId self d Hd
                (Ha k (le_n k))) as (r & s1 & Hs).
    rewrite Hs. apply storeWithDeduplication_step in Hs.
    destruct Hs as [(-> & -> & _)|(d0 & Hd0 & Hsel & -> & ->)].
    + apply (IH (S k) _ self d Hd). intros k' Hk'. apply Ha. lia.
    + rewrite Hd in Hd0. injection Hd0 as <-.
      eapply IH; [reflexivity|].
      intros k' Hk' row Hrow. cbn [memories] in Hrow. apply in_app_iff in Hrow.
      destruct Hrow as [Hrow|[<-|[]]].
      * apply (Ha k'); [lia | exact Hrow].
      * simpl. intros E. apply Hinj in E. lia.
Qed.

(** X20: on an open database a capture returns.  With fresh, pairwise
    distinct ids from [randomUUID], [captureFromConversation] does not
    throw, whatever the classifier call, the parser and the embedder do:
    a rejected classifier call, an unusable response, an embedding that
    fails and a stored embedding of another dimension are all absorbed. *)
Theorem captureFromConversation_returns
    (userMessage assistantMessage sessionId : string)
    (self : MemoryDatabase) (d : SqlJsDatabase) :
  db self = Some d ->
  (forall k, absent (uuid k) d) ->
  (forall j k, uuid j = uuid k -> j = k) ->
  exists ids self',
    captureFromConversation embedder config MEMORY_EXTRACTION_PROMPT parseExtractionResponse
      extractFn uuid now userMessage assistantMessage sessionId self = Ok (ids, self').
Proof.
  intros Hd Ha Hinj. unfold captureFromConversation.
  destruct (negb (enabled config)); [unfold ret; eauto|].
  match goal with |- context [extractFn ?p] => destruct (extractFn p) as [raw|err] end;
    [|unfold ret; eauto].
  destruct (parseExtractionResponse raw) as [|m0 ms] eqn:Hp; [unfold ret; eauto|].
  apply (storeAll_opened sessionId _ Hinj 0%nat [] self d Hd). intros k' _. apply Ha.
Qed.

End CaptureFacts.

(** A turn of conversation from which the classifier extracts three
    memories: the first is kept, the second falls below the confidence
    threshold, the third has the embedding of the first. *)
Definition likesTea : ExtractedMemory :=
  {| e_content := "User likes tea"; e_category := preference;
     e_confidence := 9 / 10; e_tags := ["drinks"%string] |}.

Definition maybeOslo : ExtractedMemory :=
  {| e_content := "User may live in Oslo"; e_category := fact;
     e_confidence := 5 / 10; e_tags := [] |}.

Definition likesTeaAgain : ExtractedMemory :=
  {| e_content := "The user likes tea"; e_category := preference;
     e_confidence := 8 / 10; e_tags := [] |}.

(** Ids that are pairwise distinct: [n], [in], [iin], ... *)
Fixpoint tallyId (k : nat) : string :=
  match k with
  | O => "n"
  | S k' => String "i" (tallyId k')
  end.

Lemma tallyId_injective (j k : nat) : tallyId j = tallyId k -> j = k.
Proof.
  revert k. induction j as [|j IH]; intros [|k]; simpl; try discriminate; [reflexivity|].
  intros [= E]. f_equal. now apply IH.
Qed.

Definition threeMemories (response : string) : list ExtractedMemory :=
  [likesTea; maybeOslo; likesTeaAgain].

Lemma capture_three_memories :
  captureFromConversation planeProvider DEFAULT_CAPTURE_CONFIG "prompt" threeMemories
    (fun _ => Ok "response"%string) tallyId Z.of_nat
    "I like tea" "Noted" "s1" emptyStore
  = Ok (["n"%string],
        {| db := Some {| memories :=
                           [(1%Z, capturedRecord planeProvider "n" 0 likesTea "s1")];
                         memories_fts := [(1%Z, "User likes tea"%string)] |};
           dirty := true; file := file emptyStore |}).
Proof.
  unfold captureFromConversation, filterExtracted, threeMemories, likesTea, maybeOslo,
    likesTeaAgain, DEFAULT_CAPTURE_CONFIG, slice0.
  simpl. decide_cmp. simpl.
  unfold storeWithDeduplication, bind, getAllEmbeddings, requireDb, ret. simpl.
  unfold createMemory, bind, requireDb, setDb, setDirty, ret. simpl.
  unfold storeWithDeduplication, bind, getAllEmbeddings, requireDb, ret. simpl.
  decide_cmp. reflexivity.
Qed.

Lemma captureFromConversation_adds_filtered_memories_witness :
  exists new,
    [(1%Z, capturedRecord planeProvider "n" 0 likesTea "s1")] = (rowsOf emptyStore ++ new)%list
    /\ ["n"%string] = reportedIds new
    /\ (Z.of_nat (List.length new) <= 5)%Z.
Proof.
  destruct (captureFromConversation_adds_filtered_memories planeProvider
              DEFAULT_CAPTURE_CONFIG "prompt" threeMemories (fun _ => Ok "response"%string)
              tallyId Z.of_nat "I like tea" "Noted" "s1" emptyStore _ _
              capture_three_memories) as (new & H1 & _ & H2 & H3 & _).
  exists new. split; [exact H1|]. split; [exact H2|]. apply H3. simpl. lia.
Defined.

Lemma captureFromConversation_returns_witness :
  exists ids self',
    captureFromConversation planeProvider DEFAULT_CAPTURE_CONFIG "prompt" threeMemories
      (fun _ => Throw ProviderFailure) tallyId Z.of_nat
      "I like tea" "Noted" "s1" emptyStore = Ok (ids, self').
Proof.
  apply (captureFromConversation_returns planeProvider DEFAULT_CAPTURE_CONFIG "prompt"
           threeMemories (fun _ => Throw ProviderFailure) tallyId Z.of_nat
           "I like tea" "Noted" "s1" emptyStore (tablesOf []) eq_refl).
  - intros k row [].
  - apply tallyId_injective.
Defined.

Lemma storedEmbeddings_without (d : SqlJsDatabase) (rowid : Z) (m : MemoryRecord)
    (fts : list (Z * string)) :
  embedding m = None ->
  storedEmbeddings {| memories := memories d ++ [(rowid, m)]; memories_fts := fts |}
  = storedEmbeddings d.
Proof.
  intros H. unfold storedEmbeddings. simpl. rewrite flat_map_app. simpl. rewrite H.
  now rewrite app_nil_r.
Qed.

(** X21: a memory whose embedding cannot be computed is stored all the
    same, and unchecked.  When the embedder rejects the content,
    [storeWithDeduplication] (with an id not yet in the opened store)
    stores the memory without embedding, model and dimension, with its
    content, category, confidence and tags, as an [auto_capture] of the
    session; no duplicate check is made, so the same memory is stored
    again by a second call; the embeddings that vector search and later
    duplicate checks see are unchanged. *)
Theorem storeWithDeduplication_without_embedding (embedder : EmbeddingProvider)
    (config : CaptureConfig) (uuid uuid2 : string) (now now2 : Z) (memory : ExtractedMemory)
    (sessionId : string) (self : MemoryDatabase) (d : SqlJsDatabase) :
  (exists err, embed embedder (e_content memory) = Throw err) ->
  db self = Some d ->
  stored d uuid = None -> stored d uuid2 = None -> uuid <> uuid2 ->
  exists self1 d1 m self2 d2 m2,
    storeWithDeduplication embedder config uuid now memory sessionId self
    = Ok (Some uuid, self1)
    /\ db self1 = Some d1 /\ dirty self1 = true
    /\ stored d1 uuid = Some m
    /\ (embedding m, embeddingModel m, embeddingDims m) = (None, None, None)
    /\ (content m, category m, confidence m, tags m)
       = (e_content memory, e_category memory, e_confidence memory, e_tags memory)
    /\ (sourceType m, sourceSession m) = (auto_capture, Some sessionId)
    /\ storedEmbeddings d1 = storedEmbeddings d
    /\ storeWithDeduplication embedder config uuid2 now2 memory sessionId self1
       = Ok (Some uuid2, self2)
    /\ db self2 = Some d2
    /\ stored d2 uuid = Some m /\ stored d2 uuid2 = Some m2
    /\ content m2 = content m
    /\ List.length (memories d2) = S (S (List.length (memories d))).
Proof.
  intros [err He] Hd Hn1 Hn2 Hne.
  apply stored_None_selectById in Hn1. apply stored_None_selectById in Hn2.
  set (m := capturedRecord embedder uuid now memory sessionId).
  set (m2 := capturedRecord embedder uuid2 now2 memory sessionId).
  set (d1 := {| memories := memories d ++ [(nextRowid d, m)];
                memories_fts := memories_fts d ++ [(nextRowid d, e_content memory)] |}).
  set (d2 := {| memories := memories d1 ++ [(nextRowid d1, m2)];
                memories_fts := memories_fts d1 ++ [(nextRowid d1, e_content memory)] |}).
  assert (S1 : forall j, selectById d1 j
                 = (selectById d j ++ if hasId j (nextRowid d, m) then [(nextRowid d, m)]
                                      else [])%list).
  { intros j. unfold d1. rewrite (selectById_app _ (memories_fts d)). now destruct d. }
  assert (S2 : forall j, selectById d2 j
                 = (selectById d1 j ++ if hasId j (nextRowid d1, m2) then [(nextRowid d1, m2)]
                                       else [])%list).
  { intros j. unfold d2. rewrite (selectById_app _ (memories_fts d1)). reflexivity. }
  assert (Hm : embedding m = None /\ embeddingModel m = None /\ embeddingDims m = None).
  { unfold m, capturedRecord. rewrite He. now repeat split. }
  assert (E1 : storeWithDeduplication embedder config uuid now memory sessionId self
               = Ok (Some uuid, {| db := Some d1; dirty := true; file := file self |})).
  { unfold storeWithDeduplication. rewrite He.
    unfold createMemory, bind, requireDb, setDb, setDirty, ret. rewrite Hd, Hn1.
    unfold d1, m, capturedRecord. rewrite He. reflexivity. }
  assert (N2 : selectById d1 uuid2 = []).
  { rewrite S1, Hn2. simpl.
    assert (X : hasId uuid2 (nextRowid d, m) = false) by (apply hasId_neq; simpl; congruence).
    now rewrite X. }
  assert (E2 : storeWithDeduplication embedder config uuid2 now2 memory sessionId
                 {| db := Some d1; dirty := true; file := file self |}
               = Ok (Some uuid2, {| db := Some d2; dirty := true; file := file self |})).
  { unfold storeWithDeduplication. rewrite He.
    unfold createMemory, bind, requireDb, setDb, setDirty, ret. cbn [db dirty file].
    rewrite N2. unfold d2, m2, capturedRecord. rewrite He. reflexivity. }
  exists {| db := Some d1; dirty := true; file := file self |}, d1, m,
         {| db := Some d2; dirty := true; file := file self |}, d2, m2.
  split; [exact E1|]. split; [reflexivity|]. split; [reflexivity|].
  assert (T1 : stored d1 uuid = Some m).
  { unfold stored. rewrite S1, Hn1. simpl.
    assert (X : hasId uuid (nextRowid d, m) = true) by (now apply hasId_eq).
    now rewrite X. }
  split; [exact T1|].
  split; [destruct Hm as (-> & -> & ->); reflexivity|].
  split; [reflexivity|]. split; [reflexivity|].
  split; [apply storedEmbeddings_without; apply Hm|].
  split; [exact E2|]. split; [reflexivity|].
  split; [|split; [|split]].
  - unfold stored. rewrite S2.
    assert (X : hasId uuid (nextRowid d1, m2) = false) by (apply hasId_neq; simpl; congruence).
    rewrite X, app_nil_r. exact T1.
  - unfold stored. rewrite S2, N2. simpl.
    assert (X : hasId uuid2 (nextRowid d1, m2) = true) by (now apply hasId_eq).
    now rewrite X.
  - reflexivity.
  - unfold d2, d1. simpl. rewrite !length_app. simpl. lia.
Qed.

Lemma storeWithDeduplication_without_embedding_witness :
  exists self1 self2,
    storeWithDeduplication brokenProvider DEFAULT_CAPTURE_CONFIG "n" 1 likesTea "s1" emptyStore
    = Ok (Some "n"%string, self1)
    /\ storeWithDeduplication brokenProvider DEFAULT_CAPTURE_CONFIG "in" 2 likesTea "s1" self1
       = Ok (Some "in"%string, self2)
    /\ option_map (fun t => List.length (memories t)) (db self2) = Some 2%nat.
Proof.
  destruct (storeWithDeduplication_without_embedding brokenProvider DEFAULT_CAPTURE_CONFIG
              "n" "in" 1 2 likesTea "s1" emptyStore (tablesOf []))
    as (self1 & d1 & m & self2 & d2 & m2 & H1 & _ & _ & _ & _ & _ & _ & _ & H2 & H3 & _ & _
        & _ & H4).
  - now exists ProviderFailure.
  - reflexivity.
  - reflexivity.
  - reflexivity.
  - discriminate.
  - exists self1, self2. split; [exact H1|]. split; [exact H2|]. rewrite H3. simpl.
    now rewrite H4.
Defined.

(* ================================================================== *)
(** * Further properties: the manager *)
(* ================================================================== *)

Section ManagerFacts.
Variable embedder : EmbeddingProvider.
Variable execMatch : MatchEngine.
Variable embedderInitialize : Result unit.
Variable embedderDispose : Result unit.

(** X22: a manager that is not initialized refuses to work.  Before
    [initialize] (or after [shutdown]) the methods [store], [get],
    [update], [delete], [count], [search] and [rebuildIndex] throw
    [MemoryManager not initialized] and [shutdown] does nothing, all
    leaving the object as it is.  [initialize] opens the database; when the
    embedder starts, the manager is initialized, with the database written
    to its file, and a second [initialize] changes nothing; when the
    embedder fails to start, its error comes out and the manager stays
    uninitialized, with the database left open. *)
Theorem manager_requires_initialize (mgr : Manager.MemoryManager)
    (uuid i query : string) (now : Z) (input : CreateMemoryInput)
    (upd : UpdateMemoryInput) (cat : option MemoryCategory) (opts : PartialOptions) :
  Manager.initialized mgr = false ->
  Manager.store embedder uuid now input mgr = (Manager.Raise Manager.NotInitialized, mgr)
  /\ Manager.get now i mgr = (Manager.Raise Manager.NotInitialized, mgr)
  /\ Manager.update embedder now i upd mgr = (Manager.Raise Manager.NotInitialized, mgr)
  /\ Manager.delete i mgr = (Manager.Raise Manager.NotInitialized, mgr)
  /\ Manager.count cat mgr = (Manager.Raise Manager.NotInitialized, mgr)
  /\ Manager.search embedder execMatch query opts mgr
     = (Manager.Raise Manager.NotInitialized, mgr)
  /\ Manager.rebuildIndex mgr = (Manager.Raise Manager.NotInitialized, mgr)
  /\ Manager.shutdown embedderDispose mgr = (Manager.Return tt, mgr)
  /\ exists d,
       d = match file (Manager.this_db mgr) with Some f => f | None => emptyDatabase end
       /\ (embedderInitialize = Ok tt ->
           exists mgr',
             Manager.initialize embedderInitialize mgr = (Manager.Return tt, mgr')
             /\ Manager.initialized mgr' = true
             /\ Manager.this_db mgr' = {| db := Some d; dirty := false; file := Some d |}
             /\ Manager.initialize embedderInitialize mgr' = (Manager.Return tt, mgr'))
       /\ (forall e, embedderInitialize = Throw e ->
             Manager.initialize embedderInitialize mgr
             = (Manager.Raise (Manager.Failed e),
                {| Manager.this_db := {| db := Some d; dirty := false; file := Some d |};
                   Manager.initialized := false |})).
Proof.
  intros Hi.
  repeat match goal with |- _ /\ _ => split end;
    try (unfold Manager.store, Manager.get, Manager.update, Manager.delete, Manager.count,
           Manager.search, Manager.rebuildIndex, Manager.shutdown, Manager.bindM,
           Manager.requireInitialized;
         rewrite Hi; reflexivity).
  eexists. split; [reflexivity|].
  unfold Manager.initialize, Manager.bindM, Manager.onDb, Manager.await,
    Manager.setInitialized, open, save. rewrite Hi. cbn [db dirty file].
  split.
  - intros ->. eexists. repeat split.
  - intros e ->. reflexivity.
Qed.

End ManagerFacts.

(** A manager over a new database. *)
Definition newManager : Manager.MemoryManager :=
  {| Manager.this_db := newDatabase; Manager.initialized := false |}.

Definition teaInput : CreateMemoryInput :=
  {| c_content := "likes tea"; c_category := None; c_embedding := None;
     c_embeddingModel := None; c_sourceType := None; c_sourceSession := None;
     c_sourceMessageIndex := None; c_confidence := None; c_tags := None |}.

Definition noUpdate : UpdateMemoryInput :=
  {| u_content := None; u_category := None; u_embedding := None;
     u_embeddingModel := None; u_confidence := None; u_tags := None |}.

Lemma manager_requires_initialize_witness :
  Manager.get 1 "a" newManager = (Manager.Raise Manager.NotInitialized, newManager)
  /\ Manager.store planeProvider "a" 1 teaInput newManager
     = (Manager.Raise Manager.NotInitialized, newManager)
  /\ exists mgr',
       Manager.initialize (Ok tt) newManager = (Manager.Return tt, mgr')
       /\ Manager.initialized mgr' = true.
Proof.
  pose proof (manager_requires_initialize planeProvider planeHits (Ok tt) (Ok tt) newManager
                "a" "a" "q" 1 teaInput noUpdate None noOptions eq_refl) as H.
  split; [apply H|]. split; [apply H|].
  destruct H as (_ & _ & _ & _ & _ & _ & _ & _ & d & _ & H & _).
  destruct (H eq_refl) as (mgr' & H1 & H2 & _). now exists mgr'.
Defined.

(** The embedding [MemoryManager.store] gives to a record. *)
Definition storedEmbeddingOf (embedder : EmbeddingProvider) (input : CreateMemoryInput)
  : option Float32Array :=
  match c_embedding input with
  | Some e => Some e
  | None =>
      match embed embedder (c_content input) with
      | Ok e => Some e
      | Throw _ => None
      end
  end.

Lemma createMemory_fresh (uuid : string) (now : Z) (input : CreateMemoryInput)
    (self : MemoryDatabase) (d : SqlJsDatabase) :
  db self = Some d ->
  stored d uuid = None ->
  exists d1 m,
    createMemory uuid now input self
    = Ok (uuid, {| db := Some d1; dirty := true; file := file self |})
    /\ stored d1 uuid = Some m
    /\ content m = c_content input
    /\ embedding m = c_embedding input
    /\ embeddingModel m = c_embeddingModel input
    /\ (forall j, j <> uuid -> stored d1 j = stored d j).
Proof.
  intros Hdb Hst. apply stored_None_selectById in Hst.
  eexists {| memories := memories d ++ [(nextRowid d, _)];
             memories_fts := memories_fts d ++ [(nextRowid d, c_content input)] |}.
  eexists. split.
  { unfold createMemory, bind, requireDb, setDb, setDirty, ret. rewrite Hdb, Hst.
    reflexivity. }
  assert (S1 : forall (row : MemoryRecord) j,
             selectById {| memories := memories d ++ [(nextRowid d, row)];
                           memories_fts := memories_fts d ++ [(nextRowid d, c_content input)] |} j
             = (selectById d j ++ if hasId j (nextRowid d, row) then [(nextRowid d, row)]
                                  else [])%list).
  { intros row j. rewrite (selectById_app _ (memories_fts d)). now destruct d. }
  split; [|split; [|split; [|split]]].
  - unfold stored. rewrite S1, Hst. unfold hasId. simpl. rewrite String.eqb_refl. reflexivity.
  - reflexivity.
  - reflexivity.
  - reflexivity.
  - intros j Hj. unfold stored. rewrite S1.
    assert (N : forall row, id row = uuid -> hasId j (nextRowid d, row) = false)
      by (intros row Hrow; apply hasId_neq; simpl; congruence).
    rewrite N by reflexivity. now rewrite app_nil_r.
Qed.

Section ManagerStore.
Variable embedder : EmbeddingProvider.

(** X23: what the manager stores is on disk when [store] returns, and a
    failing embedder does not prevent it.  On an initialized manager, for
    an id not yet in the store, [store] returns the id; the record has the
    embedding of the input when there is one, else the one the embedder
    computes for the content, with the embedder's model name, else none
    when the embedder fails; the file holds the database with the new
    record.  A [shutdown] followed by [initialize] then brings the same
    database back, and [get] returns the record. *)
Theorem manager_store_is_durable (mgr : Manager.MemoryManager) (d : SqlJsDatabase)
    (uuid : string) (now now' : Z) (input : CreateMemoryInput) :
  Manager.initialized mgr = true ->
  db (Manager.this_db mgr) = Some d ->
  stored d uuid = None ->
  exists mgr1 d1 m mgr2 mgr3 mgr4 m',
    Manager.store embedder uuid now input mgr = (Manager.Return uuid, mgr1)
    /\ Manager.this_db mgr1 = {| db := Some d1; dirty := false; file := Some d1 |}
    /\ Manager.initialized mgr1 = true
    /\ stored d1 uuid = Some m
    /\ content m = c_content input
    /\ embedding m = storedEmbeddingOf embedder input
    /\ (c_embedding input = None ->
        embeddingModel m
        = match embed embedder (c_content input) with
          | Ok _ => Some (modelName embedder)
          | Throw _ => c_embeddingModel input
          end)
    /\ (forall j, j <> uuid -> stored d1 j = stored d j)
    /\ Manager.shutdown (Ok tt) mgr1 = (Manager.Return tt, mgr2)
    /\ Manager.initialized mgr2 = false
    /\ db (Manager.this_db mgr2) = None
    /\ Manager.initialize (Ok tt) mgr2 = (Manager.Return tt, mgr3)
    /\ db (Manager.this_db mgr3) = Some d1
    /\ Manager.get now' uuid mgr3 = (Manager.Return (Some m'), mgr4)
    /\ content m' = c_content input
    /\ accessCount m' = (accessCount m + 1)%Z.
Proof.
  intros Hi Hd Hst.
  set (input' :=
         match c_embedding input with
         | Some _ => input
         | None =>
             match embed embedder (c_content input) with
             | Ok embedding => Manager.withEmbedding input embedding (modelName embedder)
             | Throw _ => input
             end
         end).
  destruct (createMemory_fresh uuid now input' (Manager.this_db mgr) d Hd Hst)
    as (d1 & m & Hc & Hm & Hcontent & Hemb & Hmodel & Hother).
  set (mgr1 := {| Manager.this_db := {| db := Some d1; dirty := false; file := Some d1 |};
                  Manager.initialized := true |}).
  set (mgr2 := {| Manager.this_db := {| db := None; dirty := false; file := Some d1 |};
                  Manager.initialized := false |}).
  exists mgr1, d1, m, mgr2, mgr1.
  assert (G : getMemory now' uuid (Manager.this_db mgr1)
              = Ok (Some (touch now' m),
                    {| db := Some {| memories := updateWhereId uuid (touch now') (memories d1);
                                     memories_fts := memories_fts d1 |};
                       dirty := true; file := file (Manager.this_db mgr1) |}))
    by (now apply getMemory_stored).
  eexists. exists (touch now' m).
  split.
  { unfold Manager.store, Manager.bindM, Manager.requireInitialized, Manager.onDb,
      Manager.retM. rewrite Hi. fold input'. rewrite Hc. cbn [Manager.this_db db dirty file].
    unfold save. cbn [db dirty file]. rewrite Hi. reflexivity. }
  split; [reflexivity|]. split; [reflexivity|]. split; [exact Hm|].
  assert (Ci : c_content input' = c_content input).
  { unfold input'. destruct (c_embedding input); [reflexivity|].
    now destruct (embed embedder (c_content input)). }
  split; [congruence|].
  split.
  { rewrite Hemb. unfold input', storedEmbeddingOf.
    destruct (c_embedding input) eqn:E; [exact E|].
    destruct (embed embedder (c_content input)); [reflexivity | exact E]. }
  split.
  { intros E. rewrite Hmodel. unfold input'. rewrite E.
    now destruct (embed embedder (c_content input)). }
  split; [exact Hother|].
  split; [reflexivity|]. split; [reflexivity|]. split; [reflexivity|].
  split; [reflexivity|]. split; [reflexivity|].
  split.
  { unfold Manager.get, Manager.bindM, Manager.requireInitialized, Manager.onDb.
    cbn [Manager.initialized mgr1]. rewrite G. reflexivity. }
  split; [simpl; congruence | reflexivity].
Qed.

End ManagerStore.

(** An initialized manager over an empty database. *)
Definition readyManager : Manager.MemoryManager :=
  {| Manager.this_db := emptyStore; Manager.initialized := true |}.

Lemma manager_store_is_durable_witness :
  exists mgr1 m,
    Manager.store brokenProvider "a" 1 teaInput readyManager = (Manager.Return "a"%string, mgr1)
    /\ option_map (fun t => stored t "a") (file (Manager.this_db mgr1)) = Some (Some m)
    /\ content m = "likes tea"%string
    /\ embedding m = None.
Proof.
  destruct (manager_store_is_durable brokenProvider readyManager (tablesOf []) "a" 1 2
              teaInput eq_refl eq_refl eq_refl)
    as (mgr1 & d1 & m & _ & _ & _ & _ & H1 & H2 & _ & H3 & H4 & H5 & _).
  exists mgr1, m. split; [exact H1|]. rewrite H2. simpl. rewrite H3.
  split; [reflexivity|]. split; [exact H4 | exact H5].
Defined.

Section ManagerUpdate.
Variable embedder : EmbeddingProvider.

(** X24: an update with new content re-embeds it.  On an initialized
    manager, updating the content of a stored memory without giving an
    embedding returns [true], stores the new content and saves; the stored
    embedding is the one the embedder computes for the new content, with
    the embedder's model name and the matching [embeddingDims].  When the
    embedder fails, or when the new content is the empty string, the
    content changes and the embedding of the old content stays. *)
Theorem manager_update_reembeds (mgr : Manager.MemoryManager) (d : SqlJsDatabase)
    (i c : string) (now : Z) (input : UpdateMemoryInput) (m : MemoryRecord) :
  Manager.initialized mgr = true ->
  db (Manager.this_db mgr) = Some d ->
  stored d i = Some m ->
  u_content input = Some c ->
  u_embedding input = None ->
  exists mgr1 d1 m1,
    Manager.update embedder now i input mgr = (Manager.Return true, mgr1)
    /\ Manager.this_db mgr1 = {| db := Some d1; dirty := false; file := Some d1 |}
    /\ stored d1 i = Some m1
    /\ content m1 = c
    /\ updatedAt m1 = now
    /\ (forall e, c <> EmptyString -> embed embedder c = Ok e ->
          embedding m1 = Some e
          /\ embeddingModel m1 = Some (modelName embedder)
          /\ embeddingDims m1 = Some (Z.of_nat (List.length e)))
    /\ ((c = EmptyString \/ exists err, embed embedder c = Throw err) ->
          embedding m1 = embedding m /\ embeddingDims m1 = embeddingDims m)
    /\ (forall j, j <> i -> stored d1 j = stored d j).
Proof.
  intros Hi Hd Hst Hc He.
  set (input' :=
         if Manager.truthy (u_content input) && negb (isSome (u_embedding input)) then
           match embed embedder (orElse (u_content input) EmptyString) with
           | Ok embedding =>
               {| u_content := u_content input;
                  u_category := u_category input;
                  u_embedding := Some embedding;
                  u_embeddingModel := Some (modelName embedder);
                  u_confidence := u_confidence input;
                  u_tags := u_tags input |}
           | Throw _ => input
           end
         else input).
  assert (Ci : u_content input' = Some c).
  { unfold input'. destruct (Manager.truthy _ && _); [|exact Hc].
    now destruct (embed embedder _). }
  assert (Hn : noSets input' = false) by (unfold noSets; now rewrite Ci).
  destruct (stored_Some_selectById _ _ _ Hst) as (rowid & rest & E).
  pose proof (updateMemory_stored now i input' (Manager.this_db mgr) d rowid m rest Hd E Hn)
    as Hu.
  rewrite Ci in Hu.
  set (d1 := {| memories := updateWhereId i (applySets now input') (memories d);
                memories_fts := deleteFts rowid (memories_fts d) ++ [(rowid, c)] |}) in Hu.
  assert (S1 : forall j,
             stored d1 j
             = if String.eqb i j then option_map (applySets now input') (stored d i)
               else stored d j)
    by (intros j; now apply stored_updateWhereId).
  exists {| Manager.this_db := {| db := Some d1; dirty := false; file := Some d1 |};
            Manager.initialized := true |}, d1, (applySets now input' m).
  split.
  { unfold Manager.update, Manager.bindM, Manager.requireInitialized, Manager.onDb,
      Manager.retM. rewrite Hi. fold input'. rewrite Hu. cbn [Manager.this_db db dirty file].
    unfold save. cbn [db dirty file]. rewrite Hi. reflexivity. }
  split; [reflexivity|].
  split; [rewrite S1, String.eqb_refl, Hst; reflexivity|].
  split; [simpl; now rewrite Ci|]. split; [reflexivity|].
  assert (T : Manager.truthy (u_content input) = negb (String.length c =? 0)%nat)
    by (now rewrite Hc).
  split; [|split].
  - intros e Hne Hemb. unfold input'. rewrite T, He, Hc. simpl.
    destruct c as [|a c']; [contradiction|]. simpl. simpl in Hemb. rewrite Hemb.
    simpl. now repeat split.
  - intros Hcase. unfold input'. rewrite T, He, Hc. simpl.
    destruct Hcase as [->|[err Herr]].
    + simpl. rewrite He. now split.
    + destruct c as [|a c']; simpl; [rewrite He; now split|].
      simpl in Herr. rewrite Herr. simpl. rewrite He. now split.
  - intros j Hj. rewrite S1. apply not_eq_sym in Hj. apply String.eqb_neq in Hj.
    now rewrite Hj.
Qed.

End ManagerUpdate.

Definition storedManager : Manager.MemoryManager :=
  {| Manager.this_db := sampleStore; Manager.initialized := true |}.

Lemma manager_update_reembeds_witness :
  exists mgr1 d1 m1,
    Manager.update planeProvider 5000 "m1"
      {| u_content := Some "Alex prefers light mode"%string; u_category := None;
         u_embedding := None; u_embeddingModel := None; u_confidence := None;
         u_tags := None |} storedManager = (Manager.Return true, mgr1)
    /\ file (Manager.this_db mgr1) = Some d1
    /\ stored d1 "m1" = Some m1
    /\ content m1 = "Alex prefers light mode"%string
    /\ embedding m1 = Some [1; 0]
    /\ embeddingDims m1 = Some 2%Z.
Proof.
  destruct (manager_update_reembeds planeProvider storedManager (tablesOf sampleRows)
              "m1" "Alex prefers light mode" 5000
              {| u_content := Some "Alex prefers light mode"%string; u_category := None;
                 u_embedding := None; u_embeddingModel := None; u_confidence := None;
                 u_tags := None |}
              (record "m1" "Alex prefers dark mode" (Some [1]))
              eq_refl eq_refl eq_refl eq_refl eq_refl)
    as (mgr1 & d1 & m1 & H1 & H2 & H3 & H4 & _ & H5 & _).
  exists mgr1, d1, m1. split; [exact H1|]. rewrite H2.
  split; [reflexivity|]. split; [exact H3|]. split; [exact H4|].
  destruct (H5 [1; 0]) as (A & _ & B); [discriminate | reflexivity |]. now split.
Defined.

(* ================================================================== *)
(** * Further properties: recall *)
(* ================================================================== *)

Lemma join_In (sep x : string) (l : list string) :
  In x l -> exists pre post, join sep l = (pre ++ x ++ post)%string.
Proof.
  induction l as [|y l IH]; [intros []|].
  intros [->|Hx].
  - destruct l as [|z l].
    + exists EmptyString, EmptyString. simpl. clear.
      induction x as [|c x IH]; simpl; [reflexivity | now rewrite <- IH].
    + exists EmptyString, (sep ++ join sep (z :: l))%string. reflexivity.
  - destruct (IH Hx) as (pre & post & E). destruct l as [|z l]; [destruct Hx|].
    exists (y ++ sep ++ pre)%string, post.
    change (join sep (y :: z :: l)) with (y ++ sep ++ join sep (z :: l))%string.
    rewrite E. now rewrite !append_assoc.
Qed.

Lemma combine_seq_In {A} (l : list A) (x : A) (start : nat) :
  In x l -> exists i, In (x, i) (combine l (seq start (List.length l))).
Proof.
  revert start. induction l as [|y l IH]; intros start; [intros []|].
  intros [->|Hx]; simpl.
  - exists start. now left.
  - destruct (IH (S start) Hx) as [i Hi]. exists i. now right.
Qed.

Section RecallFacts.
Variable embedder : EmbeddingProvider.
Variable execMatch : MatchEngine.
Variable config : Recall.Cfg.RecallConfig.
Variable toFixed : nat -> R -> string.

(** The options [recall] passes to the search. *)
Definition recallOptions : PartialOptions :=
  {| p_maxResults := Some (Recall.Cfg.maxRecall config);
     p_minScore := Some (Recall.Cfg.minScore config);
     p_vectorWeight := Some (Recall.Cfg.vectorWeight config);
     p_keywordWeight := Some (Recall.Cfg.keywordWeight config);
     p_vectorSearch := Some true;
     p_keywordSearch := Some true;
     p_category := None;
     p_candidateMultiplier := None |}.

Lemma formatContextBlock_nonempty (r : MemorySearchResult) (rs : list MemorySearchResult) :
  Recall.formatContextBlock toFixed (r :: rs) <> EmptyString.
Proof.
  unfold Recall.formatContextBlock. simpl. discriminate.
Qed.

Lemma recall_cases (userMessage : string) (self : MemoryDatabase) :
  Recall.outcome (Recall.recall embedder execMatch config toFixed userMessage self)
  = if negb (Recall.Cfg.enabled config) then Ok (([], EmptyString), self)
    else
      match search embedder execMatch userMessage recallOptions self with
      | Throw _ => Ok (([], EmptyString), self)
      | Ok ([], self') => Ok (([], EmptyString), self')
      | Ok (r :: rs, self') =>
          Ok ((r :: rs, Recall.formatContextBlock toFixed (r :: rs)), self')
      end.
Proof.
  unfold Recall.recall. destruct (negb (Recall.Cfg.enabled config)); [reflexivity|].
  fold recallOptions. simpl.
  destruct (search embedder execMatch userMessage recallOptions self) as [[[|r rs] s]|e];
    reflexivity.
Qed.

Lemma recall_unhandled (userMessage : string) (self : MemoryDatabase) :
  Recall.unhandled (Recall.recall embedder execMatch config toFixed userMessage self)
  = if negb (Recall.Cfg.enabled config) then None
    else orphanedRejection embedder execMatch userMessage recallOptions self.
Proof.
  unfold Recall.recall. now destruct (negb (Recall.Cfg.enabled config)).
Qed.

(** On an open database [search] leaves no promise behind. *)
Lemma orphanedRejection_opened (query : string) (opts : PartialOptions)
    (self : MemoryDatabase) (d : SqlJsDatabase) :
  db self = Some d -> orphanedRejection embedder execMatch query opts self = None.
Proof.
  intros Hd. unfold orphanedRejection.
  destruct (Opt.vectorSearch (withDefaults opts) && Opt.keywordSearch (withDefaults opts));
    [|reflexivity].
  destruct (keywordSearch_opened execMatch query
              (Opt.maxResults (withDefaults opts) * Opt.candidateMultiplier (withDefaults opts))
              self d Hd) as [raw Hraw].
  now rewrite (keywordSearchInternal_unfold _ _ _ _ _ _ Hraw).
Qed.

(** On a database that is not open it leaves the vector search behind when
    both searches are asked for, and that promise rejects once the embedder
    has answered. *)
Lemma orphanedRejection_closed (query : string) (opts : PartialOptions)
    (self : MemoryDatabase) :
  db self = None ->
  Opt.vectorSearch (withDefaults opts) = true ->
  Opt.keywordSearch (withDefaults opts) = true ->
  orphanedRejection embedder execMatch query opts self
  = match embed embedder query with
    | Ok _ => Some NotOpened
    | Throw _ => None
    end.
Proof.
  intros Hd Hv Hk. unfold orphanedRejection. rewrite Hv, Hk. simpl.
  unfold keywordSearchInternal, keywordSearch, vectorSearch, getAllEmbeddings, bind,
    requireDb, ret.
  rewrite Hd. destruct (embed embedder query); [now rewrite Hd | reflexivity].
Qed.

(** The memories and the context block [recall] resolves with. *)
Lemma recall_memories (userMessage : string) (self : MemoryDatabase) :
  exists memories contextBlock,
    Recall.outcome (Recall.recall embedder execMatch config toFixed userMessage self)
    = Ok ((memories, contextBlock), self)
    /\ (contextBlock = EmptyString <-> memories = [])
    /\ (Recall.Cfg.enabled config = false -> memories = [])
    /\ (db self = None -> memories = [])
    /\ ((0 <= Recall.Cfg.maxRecall config)%Z ->
        (Z.of_nat (List.length memories) <= Recall.Cfg.maxRecall config)%Z)
    /\ (forall res, In res memories -> score res >= Recall.Cfg.minScore config)
    /\ StronglySorted (descending score) memories
    /\ NoDup (map (fun res => id (memory res)) memories)
    /\ (forall res, In res memories ->
          exists pre post,
            contextBlock
            = (pre ++ Recall.newline ++ "    " ++ content (memory res) ++ Recall.newline
               ++ "  </memory>" ++ post)%string).
Proof.
  rewrite recall_cases.
  assert (Nothing :
            exists memories contextBlock,
              Ok (([], EmptyString), self) = Ok ((memories, contextBlock), self)
              /\ (contextBlock = EmptyString <-> memories = [])
              /\ (Recall.Cfg.enabled config = false -> memories = [])
              /\ (db self = None -> memories = [])
              /\ ((0 <= Recall.Cfg.maxRecall config)%Z ->
                  (Z.of_nat (List.length memories) <= Recall.Cfg.maxRecall config)%Z)
              /\ (forall res, In res memories -> score res >= Recall.Cfg.minScore config)
              /\ StronglySorted (descending score) memories
              /\ NoDup (map (fun res : MemorySearchResult => id (memory res)) memories)
              /\ (forall res, In res memories ->
                    exists pre post,
                      contextBlock
                      = (pre ++ Recall.newline ++ "    " ++ content (memory res)
                         ++ Recall.newline ++ "  </memory>" ++ post)%string)).
  { exists [], EmptyString. split; [reflexivity|]. split; [tauto|].
    split; [reflexivity|]. split; [reflexivity|]. split; [intros; simpl; lia|].
    split; [intros res []|]. split; [constructor|]. split; [constructor | intros res []]. }
  destruct (Recall.Cfg.enabled config) eqn:En; [|exact Nothing]. cbn [negb].
  destruct (search embedder execMatch userMessage recallOptions self) as [[ms s]|e] eqn:Hs;
    [|exact Nothing].
  destruct (search_shape _ _ _ _ _ _ _ Hs) as (-> & V & K & fetched & Hfetched & Hms).
  change (Opt.maxResults (withDefaults recallOptions)) with (Recall.Cfg.maxRecall config)
    in Hms.
  change (Opt.minScore (withDefaults recallOptions)) with (Recall.Cfg.minScore config) in Hms.
  set (kept := slice0 (Recall.Cfg.maxRecall config)
                 (filter (fun c => Rgeb (cand_score c) (Recall.Cfg.minScore config)
                                   && isSome (memoryMapGet fetched (cand_id c)))
                    (mergeResults V K (withDefaults recallOptions)))) in Hms.
  assert (Hmax : (0 <= Recall.Cfg.maxRecall config)%Z ->
                 (Z.of_nat (List.length ms) <= Recall.Cfg.maxRecall config)%Z).
  { intros H0. rewrite Hms. pose proof (hydrate_length fetched kept) as L1.
    pose proof (slice0_length (Recall.Cfg.maxRecall config)
                  (filter (fun c => Rgeb (cand_score c) (Recall.Cfg.minScore config)
                                    && isSome (memoryMapGet fetched (cand_id c)))
                     (mergeResults V K (withDefaults recallOptions))) H0) as L2.
    fold kept in L2. lia. }
  assert (Hmin : forall res, In res ms -> score res >= Recall.Cfg.minScore config).
  { intros res Hres. rewrite Hms in Hres. apply in_flat_map in Hres.
    destruct Hres as (c & Hc & Hres). apply hydrate_In in Hres. destruct Hres as (-> & _).
    apply slice0_incl, filter_In in Hc. destruct Hc as [_ Hc].
    apply andb_true_iff in Hc. destruct Hc as [Hc _]. now apply Rgeb_true_iff in Hc. }
  assert (Hsorted : StronglySorted (descending score) ms).
  { rewrite Hms. apply hydrate_sorted, slice0_sorted, filter_sorted, mergeResults_sorted. }
  assert (Hnodup : NoDup (map (fun res => id (memory res)) ms)).
  { rewrite Hms. apply hydrate_NoDup, slice0_NoDup, NoDup_map_filter, mergeResults_NoDup. }
  assert (Hstore : forall res, In res ms -> db self <> None).
  { intros res Hres. rewrite Hms in Hres. apply in_flat_map in Hres.
    destruct Hres as (c & _ & Hres). apply hydrate_In in Hres.
    destruct Hres as (_ & _ & _ & Hin). destruct (Hfetched _ Hin) as (d & Hd & _). congruence. }
  clearbody kept. clear Hms.
  destruct ms as [|r rs]; [exact Nothing|].
  exists (r :: rs), (Recall.formatContextBlock toFixed (r :: rs)).
  split; [reflexivity|]. split.
  { split; [intros H; now apply formatContextBlock_nonempty in H | discriminate]. }
  split; [discriminate|]. split.
  { intros Hclosed. now destruct (Hstore r (or_introl eq_refl)). }
  split; [exact Hmax|]. split; [exact Hmin|]. split; [exact Hsorted|].
  split; [exact Hnodup|].
  intros res Hres.
  destruct (combine_seq_In (r :: rs) res 0 Hres) as [i Hi].
  assert (Hline : In (Recall.memoryLine toFixed res i)
                     (map (fun ri => Recall.memoryLine toFixed (fst ri) (snd ri))
                        (combine (r :: rs) (seq 0 (List.length (r :: rs)))))).
  { apply in_map_iff. exists (res, i). now split. }
  destruct (join_In Recall.newline _ _ Hline) as (pre & post & E).
  unfold Recall.formatContextBlock. rewrite E. unfold Recall.memoryLine. cbv zeta.
  match goal with
  | |- context [((?tag ++ Recall.newline ++ "    " ++ content (memory res) ++ Recall.newline
                  ++ "  </memory>") ++ post)%string] =>
      exists ("<relevant-memories count="
              ++ Recall.quoted (Recall.decimal (List.length (r :: rs))) ++ ">"
              ++ Recall.newline ++ pre ++ tag)%string,
             (post ++ Recall.newline ++ "</relevant-memories>")%string
  end.
  repeat rewrite append_assoc. reflexivity.
Qed.

(** X25: what a call of recall comes to.  For every message the promise
    of [recall] resolves, whatever the embedder and the text engine do, and
    the database object is as before.  The context block is the empty
    string exactly when no memory is returned; none is returned when recall
    is disabled or the database is not open.  The memories are those of a
    hybrid search with the configured limits: at most [maxRecall] (when not
    negative), each with a score of at least [minScore], in descending
    order of score, without repetition, and each appears in the block with
    its content, unescaped.  On an open database, and when recall is
    disabled, no promise is left behind.  On a database that is not open,
    with recall enabled, the vector search that [search] has started is
    never awaited: once the embedder has answered it rejects with the error
    of a database that is not opened, and nothing handles the rejection
    (node terminates the process at it by default); when the embedder fails
    nothing is left behind. *)
Theorem recall_resolves (userMessage : string) (self : MemoryDatabase) :
  exists memories contextBlock,
    Recall.outcome (Recall.recall embedder execMatch config toFixed userMessage self)
    = Ok ((memories, contextBlock), self)
    /\ (contextBlock = EmptyString <-> memories = [])
    /\ (Recall.Cfg.enabled config = false -> memories = [])
    /\ (db self = None -> memories = [])
    /\ ((0 <= Recall.Cfg.maxRecall config)%Z ->
        (Z.of_nat (List.length memories) <= Recall.Cfg.maxRecall config)%Z)
    /\ (forall res, In res memories -> score res >= Recall.Cfg.minScore config)
    /\ StronglySorted (descending score) memories
    /\ NoDup (map (fun res => id (memory res)) memories)
    /\ (forall res, In res memories ->
          exists pre post,
            contextBlock
            = (pre ++ Recall.newline ++ "    " ++ content (memory res) ++ Recall.newline
               ++ "  </memory>" ++ post)%string)
    /\ (db self <> None ->
        Recall.unhandled (Recall.recall embedder execMatch config toFixed userMessage self)
        = None)
    /\ (Recall.Cfg.enabled config = false ->
        Recall.unhandled (Recall.recall embedder execMatch config toFixed userMessage self)
        = None)
    /\ (db self = None -> Recall.Cfg.enabled config = true ->
        Recall.unhandled (Recall.recall embedder execMatch config toFixed userMessage self)
        = match embed embedder userMessage with
          | Ok _ => Some NotOpened
          | Throw _ => None
          end).
Proof.
  destruct (recall_memories userMessage self)
    as (ms & block & H1 & H2 & H3 & H4 & H5 & H6 & H7 & H8 & H9).
  exists ms, block.
  split; [exact H1|]. split; [exact H2|]. split; [exact H3|]. split; [exact H4|].
  split; [exact H5|]. split; [exact H6|]. split; [exact H7|]. split; [exact H8|].
  split; [exact H9|].
  rewrite recall_unhandled.
  split; [|split].
  - intros Hopen. destruct (negb (Recall.Cfg.enabled config)); [reflexivity|].
    destruct (db self) as [d|] eqn:Hd; [|congruence].
    now apply (orphanedRejection_opened userMessage recallOptions self d).
  - intros ->. reflexivity.
  - intros Hd ->. cbn [negb].
    now apply orphanedRejection_closed.
Qed.

End RecallFacts.

Lemma recall_resolves_witness :
  (exists memories contextBlock,
     Recall.outcome
       (Recall.recall planeProvider planeHits Recall.DEFAULT_RECALL_CONFIG
          (fun _ _ => "0.5"%string) "dark" planeStore)
     = Ok ((memories, contextBlock), planeStore)
     /\ (Z.of_nat (List.length memories) <= 5)%Z
     /\ Recall.unhandled
          (Recall.recall planeProvider planeHits Recall.DEFAULT_RECALL_CONFIG
             (fun _ _ => "0.5"%string) "dark" planeStore)
        = None)
  /\ (exists memories contextBlock,
        Recall.outcome
          (Recall.recall planeProvider planeHits Recall.DEFAULT_RECALL_CONFIG
             (fun _ _ => "0.5"%string) "dark" newDatabase)
        = Ok ((memories, contextBlock), newDatabase)
        /\ memories = []
        /\ Recall.unhandled
             (Recall.recall planeProvider planeHits Recall.DEFAULT_RECALL_CONFIG
                (fun _ _ => "0.5"%string) "dark" newDatabase)
           = Some NotOpened).
Proof.
  destruct (recall_resolves planeProvider planeHits Recall.DEFAULT_RECALL_CONFIG
              (fun _ _ => "0.5"%string) "dark" planeStore)
    as (ms & block & H1 & _ & _ & _ & H2 & _ & _ & _ & _ & H3 & _).
  destruct (recall_resolves planeProvider planeHits Recall.DEFAULT_RECALL_CONFIG
              (fun _ _ => "0.5"%string) "dark" newDatabase)
    as (ms' & block' & H4 & _ & _ & H5 & _ & _ & _ & _ & _ & _ & _ & H6).
  split.
  - exists ms, block. split; [exact H1|]. split; [apply H2; simpl; lia|].
    apply H3. discriminate.
  - exists ms', block'. split; [exact H4|]. split; [now apply H5|].
    now apply H6.
Defined.

(* ================================================================== *)
(** * Further properties: what capture keeps, what the manager saves *)
(* ================================================================== *)

(** X26: a memory is stored exactly when it is not a near-duplicate.  With
    the content embedded as [emb], on an opened database and with an id
    not yet in it, [storeWithDeduplication] returns the new id unless a
    stored embedding of the same dimension has a remapped similarity with
    [emb] that reaches the threshold, and only then returns no id.  The
    record stored carries [emb], the embedder's model name and the
    dimension of [emb]; vector search and later duplicate checks see it
    after the embeddings stored before. *)
Theorem capture_stores_distinct_memories (embedder : EmbeddingProvider)
    (config : CaptureConfig) (uuid : string) (now : Z) (memory : ExtractedMemory)
    (sessionId : string) (self : MemoryDatabase) (d : SqlJsDatabase) (emb : Float32Array) :
  embed embedder (e_content memory) = Ok emb ->
  db self = Some d ->
  stored d uuid = None ->
  exists r self1,
    storeWithDeduplication embedder config uuid now memory sessionId self = Ok (r, self1)
    /\ (r = None
        <-> exists ex sim, In ex (storedEmbeddings d)
                           /\ cosineSimilarity emb (snd ex) = Ok sim
                           /\ (sim + 1) / 2 >= deduplicationThreshold config)
    /\ (r = None -> self1 = self)
    /\ (r <> None ->
        r = Some uuid
        /\ exists d1 m,
             db self1 = Some d1 /\ stored d1 uuid = Some m
             /\ embedding m = Some emb
             /\ embeddingModel m = Some (modelName embedder)
             /\ embeddingDims m = Some (Z.of_nat (List.length emb))
             /\ content m = e_content memory
             /\ storedEmbeddings d1 = (storedEmbeddings d ++ [(uuid, emb)])%list
             /\ (forall j, j <> uuid -> stored d1 j = stored d j)).
Proof.
  intros He Hd Hst.
  pose proof (duplicateFound_true (deduplicationThreshold config) emb (storedEmbeddings d))
    as Hdup.
  destruct (duplicateFound (deduplicationThreshold config) emb (storedEmbeddings d)) eqn:D.
  - exists None, self. split.
    { unfold storeWithDeduplication. rewrite He. unfold bind at 1.
      rewrite (getAllEmbeddings_eq self d Hd), D. reflexivity. }
    split; [split; [intros _; now apply Hdup | reflexivity]|].
    split; [reflexivity | intros H; now contradiction H].
  - set (input := {| c_content := e_content memory;
                     c_category := Some (e_category memory);
                     c_embedding := Some emb;
                     c_embeddingModel := Some (modelName embedder);
                     c_sourceType := Some auto_capture;
                     c_sourceSession := Some sessionId;
                     c_sourceMessageIndex := None;
                     c_confidence := Some (e_confidence memory);
                     c_tags := Some (e_tags memory) |}).
    pose proof (proj1 (stored_None_selectById d uuid) Hst) as Hsel.
    set (row := capturedRecord embedder uuid now memory sessionId).
    set (d1 := {| memories := memories d ++ [(nextRowid d, row)];
                  memories_fts := memories_fts d ++ [(nextRowid d, e_content memory)] |}).
    assert (Hrow : embedding row = Some emb /\ embeddingModel row = Some (modelName embedder)
                   /\ embeddingDims row = Some (Z.of_nat (List.length emb))).
    { unfold row, capturedRecord. rewrite He. now repeat split. }
    assert (S1 : forall j, selectById d1 j
                   = (selectById d j ++ if hasId j (nextRowid d, row)
                                        then [(nextRowid d, row)] else [])%list).
    { intros j. unfold d1. rewrite (selectById_app _ (memories_fts d)). now destruct d. }
    exists (Some uuid), {| db := Some d1; dirty := true; file := file self |}. split.
    { unfold storeWithDeduplication. rewrite He. unfold bind at 1.
      rewrite (getAllEmbeddings_eq self d Hd), D.
      unfold createMemory, bind, requireDb, setDb, setDirty, ret. rewrite Hd, Hsel.
      unfold d1, row, capturedRecord. rewrite He. reflexivity. }
    split.
    { split; [discriminate|]. intros H. apply Hdup in H. discriminate. }
    split; [discriminate|]. intros _. split; [reflexivity|].
    exists d1, row. split; [reflexivity|]. split.
    { unfold stored. rewrite S1, Hsel.
      assert (X : hasId uuid (nextRowid d, row) = true) by (now apply hasId_eq).
      cbn [app]. now rewrite X. }
    destruct Hrow as (R1 & R2 & R3).
    split; [exact R1|]. split; [exact R2|]. split; [exact R3|]. split; [reflexivity|].
    split.
    { unfold storedEmbeddings, d1. cbn [memories]. rewrite flat_map_app. cbn [flat_map snd].
      rewrite R1. reflexivity. }
    intros j Hj. unfold stored. rewrite S1.
    assert (X : hasId j (nextRowid d, row) = false) by (apply hasId_neq; simpl; congruence).
    now rewrite X, app_nil_r.
Qed.

Lemma capture_stores_distinct_memories_witness :
  exists self1 self2,
    storeWithDeduplication planeProvider DEFAULT_CAPTURE_CONFIG "n" 1 likesTea "s1" emptyStore
    = Ok (Some "n"%string, self1)
    /\ storeWithDeduplication planeProvider DEFAULT_CAPTURE_CONFIG "in" 2 likesTeaAgain "s1"
         self1 = Ok (None, self2)
    /\ self2 = self1.
Proof.
  destruct (capture_stores_distinct_memories planeProvider DEFAULT_CAPTURE_CONFIG "n" 1
              likesTea "s1" emptyStore (tablesOf []) [1; 0] eq_refl eq_refl eq_refl)
    as (r & self1 & H1 & H2 & _ & H3).
  assert (Hr : r <> None).
  { intros E. apply H2 in E. destruct E as (ex & sim & [] & _). }
  destruct (H3 Hr) as (-> & d1 & m & Hd1 & Hm & _ & _ & _ & _ & Hemb & _).
  assert (Hfresh : stored d1 "in" = stored (tablesOf []) "in")
    by (destruct (H3 Hr) as (_ & d1' & m' & Hd1' & _ & _ & _ & _ & _ & _ & Ho);
        rewrite Hd1 in Hd1'; injection Hd1' as <-; now apply Ho).
  destruct (capture_stores_distinct_memories planeProvider DEFAULT_CAPTURE_CONFIG "in" 2
              likesTeaAgain "s1" self1 d1 [1; 0] eq_refl Hd1 Hfresh)
    as (r2 & self2 & G1 & G2 & G3 & _).
  assert (Hr2 : r2 = None).
  { apply G2. exists ("n"%string, [1; 0]), (dotLoop 0 [1; 0] [1; 0]).
    split; [rewrite Hemb; now left|]. split; [reflexivity|]. simpl. lra. }
  subst r2. exists self1, self2. split; [exact H1|]. split; [exact G1 | now apply G3].
Defined.

Section ManagerReads.
Variable embedder : EmbeddingProvider.

(** X27: a read is counted in memory only, a delete is written at once.
    On an initialized manager whose database is saved, [get] of a stored
    memory returns it with the access counted and marks the database as
    changed, but the file still holds the record as it was: the count
    reaches the file with [shutdown] (or the next write).  [delete] of a
    stored memory returns [true] and the file no longer holds the record;
    [delete] of an id that is not stored returns [false] and changes
    nothing. *)
Theorem manager_get_is_not_saved_delete_is (mgr : Manager.MemoryManager) (d : SqlJsDatabase)
    (i j : string) (now : Z) (m : MemoryRecord) :
  Manager.initialized mgr = true ->
  Manager.this_db mgr = {| db := Some d; dirty := false; file := Some d |} ->
  stored d i = Some m ->
  stored d j = None ->
  exists m' mgr1 d1 mgr2 mgr3 d3,
    Manager.get now i mgr = (Manager.Return (Some m'), mgr1)
    /\ accessCount m' = (accessCount m + 1)%Z
    /\ Manager.this_db mgr1 = {| db := Some d1; dirty := true; file := Some d |}
    /\ stored d1 i = Some m'
    /\ Manager.shutdown (Ok tt) mgr1 = (Manager.Return tt, mgr2)
    /\ Manager.this_db mgr2 = {| db := None; dirty := false; file := Some d1 |}
    /\ Manager.delete i mgr = (Manager.Return true, mgr3)
    /\ Manager.this_db mgr3 = {| db := Some d3; dirty := false; file := Some d3 |}
    /\ stored d3 i = None
    /\ Manager.delete j mgr = (Manager.Return false, mgr)
    /\ Manager.get now j mgr = (Manager.Return None, mgr).
Proof.
  intros Hi Hdb Hst Hno.
  assert (Hd : db (Manager.this_db mgr) = Some d) by now rewrite Hdb.
  destruct (stored_Some_selectById _ _ _ Hst) as (rowid & rest & E).
  set (d1 := {| memories := updateWhereId i (touch now) (memories d);
                memories_fts := memories_fts d |}).
  set (d3 := {| memories := filter (fun row => negb (hasId i row)) (memories d);
                memories_fts := deleteFts rowid (memories_fts d) |}).
  exists (touch now m),
         {| Manager.this_db := {| db := Some d1; dirty := true; file := Some d |};
            Manager.initialized := true |}, d1,
         {| Manager.this_db := {| db := None; dirty := false; file := Some d1 |};
            Manager.initialized := false |},
         {| Manager.this_db := {| db := Some d3; dirty := false; file := Some d3 |};
            Manager.initialized := true |}, d3.
  split.
  { unfold Manager.get, Manager.bindM, Manager.requireInitialized, Manager.onDb.
    rewrite Hi, (getMemory_stored now i _ d m Hd Hst), Hi. rewrite Hdb. reflexivity. }
  split; [reflexivity|]. split; [reflexivity|].
  split.
  { unfold d1. rewrite (stored_updateWhereId i i (touch now) d (memories_fts d))
      by reflexivity. now rewrite String.eqb_refl, Hst. }
  split; [reflexivity|]. split; [reflexivity|].
  split.
  { unfold Manager.delete, Manager.bindM, Manager.requireInitialized, Manager.onDb,
      Manager.retM.
    rewrite Hi, (deleteMemory_stored i _ d rowid m rest Hd E).
    cbn [Manager.this_db Manager.initialized db dirty file]. unfold save.
    cbn [db dirty file]. rewrite Hi. reflexivity. }
  split; [reflexivity|].
  split; [unfold stored, selectById, d3; simpl; now rewrite selectById_filter_same|].
  assert (Em : {| Manager.this_db := Manager.this_db mgr;
                   Manager.initialized := Manager.initialized mgr |} = mgr)
    by now destruct mgr.
  split.
  - unfold Manager.delete, Manager.bindM, Manager.requireInitialized, Manager.onDb,
      Manager.retM.
    rewrite Hi, (deleteMemory_not_stored j _ d Hd Hno), Em. reflexivity.
  - unfold Manager.get, Manager.bindM, Manager.requireInitialized, Manager.onDb.
    rewrite Hi, (getMemory_not_stored now j _ d Hd Hno), Em. reflexivity.
Qed.

End ManagerReads.

Lemma manager_get_is_not_saved_delete_is_witness :
  exists m' mgr1 mgr3,
    Manager.get 2000 "m1" storedManager = (Manager.Return (Some m'), mgr1)
    /\ accessCount m' = 1%Z
    /\ file (Manager.this_db mgr1) = Some (tablesOf sampleRows)
    /\ Manager.delete "m1" storedManager = (Manager.Return true, mgr3)
    /\ option_map (fun t => stored t "m1") (file (Manager.this_db mgr3)) = Some None.
Proof.
  destruct (manager_get_is_not_saved_delete_is storedManager (tablesOf sampleRows)
              "m1" "m2" 2000 (record "m1" "Alex prefers dark mode" (Some [1]))
              eq_refl eq_refl eq_refl eq_refl)
    as (m' & mgr1 & d1 & mgr2 & mgr3 & d3 & H1 & H2 & H3 & _ & _ & _ & H4 & H5 & H6 & _).
  exists m', mgr1, mgr3. split; [exact H1|]. split; [exact H2|].
  split; [now rewrite H3|]. split; [exact H4|]. rewrite H5. simpl. now rewrite H6.
Defined.

(* ================================================================== *)
(** * Further properties: listing and statistics *)
(* ================================================================== *)

(** Two rows in the order [ORDER BY column order] asks for. *)
Definition inOrder (column : OrderBy.t) (order : Order) (a b : MemoryRecord) : Prop :=
  match order with
  | ASC => orderKey column a <= orderKey column b
  | DESC => orderKey column a >= orderKey column b
  end.

(** [{ ...opts, limit, offset }]. *)
Definition page (opts : ListOptions) (limit offset : Z) : ListOptions :=
  {| l_category := l_category opts; l_sourceSession := l_sourceSession opts;
     l_limit := Some limit; l_offset := Some offset;
     l_orderBy := l_orderBy opts; l_order := l_order opts |}.

Definition noListOptions : ListOptions :=
  {| l_category := None; l_sourceSession := None; l_limit := None; l_offset := None;
     l_orderBy := None; l_order := None |}.

Lemma skipn_In {A} (n : nat) (l : list A) (x : A) : In x (skipn n l) -> In x l.
Proof.
  revert l. induction n as [|n IH]; intros [|y l]; simpl; auto.
Qed.

Lemma limitOffset_incl {A} (limit offset : Z) (rows : list A) (x : A) :
  In x (limitOffset limit offset rows) -> In x rows.
Proof.
  unfold limitOffset. intros H. apply (skipn_In (Z.to_nat offset)).
  destruct (limit <? 0)%Z; [exact H | now apply firstn_In in H].
Qed.

Lemma skipn_sorted {A} (R0 : A -> A -> Prop) (n : nat) (l : list A) :
  StronglySorted R0 l -> StronglySorted R0 (skipn n l).
Proof.
  revert l. induction n as [|n IH]; intros l H; [exact H|].
  destruct l as [|x l]; [constructor|]. simpl. apply IH. now inversion H.
Qed.

Lemma firstn_sorted {A} (R0 : A -> A -> Prop) (n : nat) (l : list A) :
  StronglySorted R0 l -> StronglySorted R0 (firstn n l).
Proof.
  intros H. revert n. induction H as [|x l Hs IH Hall]; intros [|n]; simpl; try constructor.
  - apply IH.
  - rewrite Forall_forall in *. intros y Hy. apply Hall. eapply firstn_In, Hy.
Qed.

Lemma limitOffset_sorted {A} (R0 : A -> A -> Prop) (limit offset : Z) (rows : list A) :
  StronglySorted R0 rows -> StronglySorted R0 (limitOffset limit offset rows).
Proof.
  intros H. unfold limitOffset.
  destruct (limit <? 0)%Z; [|apply firstn_sorted]; now apply skipn_sorted.
Qed.

Lemma map_sorted {A B} (f : A -> B) (R0 : B -> B -> Prop) (l : list A) :
  StronglySorted (fun a b => R0 (f a) (f b)) l -> StronglySorted R0 (map f l).
Proof.
  induction 1 as [|x l Hs IH Hall]; simpl; constructor; [exact IH|].
  rewrite Forall_forall in *. intros y Hy. apply in_map_iff in Hy.
  destruct Hy as (a & <- & Ha). now apply Hall.
Qed.

Lemma NoDup_skipn {A} (n : nat) (l : list A) : NoDup l -> NoDup (skipn n l).
Proof.
  revert l. induction n as [|n IH]; intros l H; [exact H|].
  destruct l as [|x l]; [constructor|]. simpl. apply IH. now inversion H.
Qed.

Lemma limitOffset_pages {A} (a b off : Z) (rows : list A) :
  (0 <= a)%Z -> (0 <= b)%Z -> (0 <= off)%Z ->
  limitOffset (a + b) off rows
  = (limitOffset a off rows ++ limitOffset b (off + a) rows)%list.
Proof.
  intros Ha Hb Hoff. unfold limitOffset.
  rewrite !(proj2 (Z.ltb_ge _ 0)) by lia.
  rewrite !Z2Nat.inj_add by lia.
  rewrite (Nat.add_comm (Z.to_nat off) (Z.to_nat a)), <- skipn_skipn.
  generalize (skipn (Z.to_nat off) rows). intros l.
  generalize (Z.to_nat a). intros n. revert l.
  induction n as [|n IH]; intros l; [reflexivity|].
  destruct l as [|x l]; simpl; [now rewrite firstn_nil|]. now rewrite IH.
Qed.

Section ListFacts.
Variable orderRows : RowOrder.

Hypothesis orderRows_perm :
  forall column order rows, Permutation (orderRows column order rows) rows.

Hypothesis orderRows_sorted :
  forall column order rows,
    StronglySorted (fun a b => inOrder column order (snd a) (snd b))
                   (orderRows column order rows).

Lemma listMemories_opened (opts : ListOptions) (self : MemoryDatabase) (d : SqlJsDatabase) :
  db self = Some d ->
  listMemories orderRows opts self
  = Ok (map snd
          (limitOffset (orElse (l_limit opts) 100%Z) (orElse (l_offset opts) 0%Z)
             (orderRows (orElse (l_orderBy opts) OrderBy.updated_at)
                (orElse (l_order opts) DESC)
                (filter (listed opts) (memories d)))),
        self).
Proof.
  intros Hd. unfold listMemories, bind, requireDb, ret. now rewrite Hd.
Qed.

(** X28: what [listMemories] lists.  On an opened database, whatever
    order the engine gives to rows with equal keys: the call changes
    nothing (no access is counted); every record listed is a stored one of
    the category asked for and, when a non-empty session is given, of that
    session; the records come ordered by the chosen column ([updated_at],
    descending, by default); there are at most [limit] of them (100 by
    default) when the limit is not negative; with unique ids no record is
    listed twice.  Pages fit together: the page of [a] records at offset
    [off] followed by the page of [b] records at offset [off + a] is the
    page of [a + b] records at [off]; and with a negative limit and no
    offset exactly the matching records are listed. *)
Theorem listMemories_lists_in_pages (opts : ListOptions) (self : MemoryDatabase)
    (d : SqlJsDatabase) :
  db self = Some d ->
  exists listing,
    listMemories orderRows opts self = Ok (listing, self)
    /\ (forall m, In m listing ->
          In m (map snd (memories d))
          /\ (forall c, l_category opts = Some c -> category m = c)
          /\ (forall s, l_sourceSession opts = Some s -> s <> EmptyString ->
                        sourceSession m = Some s))
    /\ StronglySorted (inOrder (orElse (l_orderBy opts) OrderBy.updated_at)
                               (orElse (l_order opts) DESC)) listing
    /\ ((0 <= orElse (l_limit opts) 100)%Z ->
        (Z.of_nat (List.length listing) <= orElse (l_limit opts) 100)%Z)
    /\ (uniqueIds d -> NoDup (map id listing))
    /\ (forall a b off, (0 <= a)%Z -> (0 <= b)%Z -> (0 <= off)%Z ->
          exists p1 p2,
            listMemories orderRows (page opts a off) self = Ok (p1, self)
            /\ listMemories orderRows (page opts b (off + a)) self = Ok (p2, self)
            /\ listMemories orderRows (page opts (a + b) off) self
               = Ok ((p1 ++ p2)%list, self))
    /\ (exists all,
          listMemories orderRows (page opts (-1) 0) self = Ok (all, self)
          /\ Permutation all (map snd (filter (listed opts) (memories d)))).
Proof.
  intros Hd. eexists. split; [apply (listMemories_opened opts self d Hd)|].
  set (column := orElse (l_orderBy opts) OrderBy.updated_at).
  set (order := orElse (l_order opts) DESC).
  set (rows := filter (listed opts) (memories d)).
  split; [|split; [|split; [|split; [|split]]]].
  - intros m Hm. apply in_map_iff in Hm. destruct Hm as (row & <- & Hrow).
    apply limitOffset_incl in Hrow.
    apply (Permutation_in _ (orderRows_perm column order rows)) in Hrow.
    apply filter_In in Hrow. destruct Hrow as [Hin Hl].
    split; [now apply in_map|].
    unfold listed in Hl. apply andb_true_iff in Hl. destruct Hl as [Hc Hs]. split.
    + intros c Ec. rewrite Ec in Hc. unfold countedIn in Hc.
      destruct c, (category (snd row)); try discriminate; reflexivity.
    + intros s Es Hne. rewrite Es in Hs.
      destruct (String.length s =? 0)%nat eqn:L.
      * apply Nat.eqb_eq in L. destruct s; [contradiction | discriminate].
      * now apply inSession_eq.
  - apply map_sorted, limitOffset_sorted, orderRows_sorted.
  - intros Hl. rewrite length_map. unfold limitOffset.
    rewrite (proj2 (Z.ltb_ge _ 0)) by exact Hl.
    pose proof (firstn_le_length (Z.to_nat (orElse (l_limit opts) 100%Z))
                  (skipn (Z.to_nat (orElse (l_offset opts) 0%Z))
                     (orderRows column order rows))) as L.
    lia.
  - intros U. rewrite map_map.
    assert (N : NoDup (map (fun row => id (snd row)) (orderRows column order rows))).
    { apply (Permutation_NoDup (l := map (fun row => id (snd row)) rows)).
      - apply Permutation_map. symmetry. apply orderRows_perm.
      - unfold rows. now apply NoDup_map_filter. }
    unfold limitOffset.
    destruct (_ <? 0)%Z; [|rewrite <- firstn_map; apply NoDup_firstn];
      rewrite <- skipn_map; now apply NoDup_skipn.
  - intros a b off Ha Hb Hoff. do 2 eexists.
    rewrite !(listMemories_opened _ self d Hd). cbn [page l_limit l_offset orElse].
    split; [reflexivity|]. split; [reflexivity|].
    rewrite limitOffset_pages by assumption. now rewrite map_app.
  - eexists. rewrite (listMemories_opened _ self d Hd).
    split; [reflexivity|]. cbn [page l_limit l_offset l_orderBy l_order orElse].
    unfold limitOffset. simpl. apply Permutation_map.
    change (filter (listed (page opts (-1) 0)) (memories d)) with rows.
    apply orderRows_perm.
Qed.

End ListFacts.

(** An engine that orders by a stable insertion sort. *)
Definition stableOrder : RowOrder :=
  fun column order rows =>
    match order with
    | DESC => sortDesc (fun row => orderKey column (snd row)) rows
    | ASC => sortDesc (fun row => - orderKey column (snd row)) rows
    end.

Lemma stableOrder_perm (column : OrderBy.t) (order : Order) (rows : list (Z * MemoryRecord)) :
  Permutation (stableOrder column order rows) rows.
Proof.
  unfold stableOrder. destruct order; symmetry; apply sortDesc_perm.
Qed.

Lemma sorted_weaken {A} (R1 R2 : A -> A -> Prop) (l : list A) :
  (forall a b, R1 a b -> R2 a b) -> StronglySorted R1 l -> StronglySorted R2 l.
Proof.
  intros H. induction 1 as [|x l Hs IH Hall]; constructor; [exact IH|].
  eapply Forall_impl; [|exact Hall]. intros b. apply H.
Qed.

Lemma stableOrder_sorted (column : OrderBy.t) (order : Order)
    (rows : list (Z * MemoryRecord)) :
  StronglySorted (fun a b => inOrder column order (snd a) (snd b))
                 (stableOrder column order rows).
Proof.
  unfold stableOrder, inOrder. destruct order.
  - pose proof (sortDesc_sorted (fun row => - orderKey column (snd row)) rows) as H.
    eapply sorted_weaken; [|exact H].
    intros a b. unfold descending. lra.
  - exact (sortDesc_sorted (fun row => orderKey column (snd row)) rows).
Qed.

Lemma listMemories_lists_in_pages_witness :
  exists listing p1 p2,
    listMemories stableOrder noListOptions (openedWith sessionRows)
    = Ok (listing, openedWith sessionRows)
    /\ (Z.of_nat (List.length listing) <= 100)%Z
    /\ listMemories stableOrder (page noListOptions 1 0) (openedWith sessionRows)
       = Ok (p1, openedWith sessionRows)
    /\ listMemories stableOrder (page noListOptions 2 1) (openedWith sessionRows)
       = Ok (p2, openedWith sessionRows)
    /\ listMemories stableOrder (page noListOptions 3 0) (openedWith sessionRows)
       = Ok ((p1 ++ p2)%list, openedWith sessionRows).
Proof.
  destruct (listMemories_lists_in_pages stableOrder stableOrder_perm stableOrder_sorted
              noListOptions (openedWith sessionRows) (tablesOf sessionRows) eq_refl)
    as (listing & H1 & _ & _ & H2 & _ & H3 & _).
  destruct (H3 1%Z 2%Z 0%Z ltac:(lia) ltac:(lia) ltac:(lia)) as (p1 & p2 & P1 & P2 & P3).
  exists listing, p1, p2. split; [exact H1|]. split; [apply H2; simpl; lia|].
  split; [exact P1|]. split; [exact P2 | exact P3].
Defined.


Section StatsFacts.
Variable exportedLength : SqlJsDatabase -> Z.


End StatsFacts.


(** X30: rebuilding repairs the text index.  On an initialized manager
    with an open database, whatever the text index holds (entries of
    deleted rows, stale or missing entries), [rebuildIndex] leaves the
    memories as they are and makes the index hold exactly one entry per
    row, with the rowid and the content of that row; the result is written
    to the file, and rebuilding again changes nothing.  When ids and rowids
    are unique and [embeddingDims] fits the embeddings, the tables are then
    consistent. *)
Theorem manager_rebuildIndex_repairs (mgr : Manager.MemoryManager) (d : SqlJsDatabase) :
  Manager.initialized mgr = true ->
  db (Manager.this_db mgr) = Some d ->
  exists mgr1 d1,
    Manager.rebuildIndex mgr = (Manager.Return tt, mgr1)
    /\ Manager.this_db mgr1 = {| db := Some d1; dirty := false; file := Some d1 |}
    /\ Manager.initialized mgr1 = true
    /\ memories d1 = memories d
    /\ (forall rowid text,
          In (rowid, text) (memories_fts d1)
          <-> exists m, In (rowid, m) (memories d) /\ content m = text)
    /\ List.length (memories_fts d1) = List.length (memories d)
    /\ (uniqueIds d -> NoDup (map fst (memories d)) ->
        (forall row, In row (memories d) -> dimsAgree (snd row)) -> consistent d1)
    /\ Manager.rebuildIndex mgr1 = (Manager.Return tt, mgr1).
Proof.
  intros Hi Hd.
  set (d1 := {| memories := memories d; memories_fts := map ftsEntry (memories d) |}).
  exists {| Manager.this_db := {| db := Some d1; dirty := false; file := Some d1 |};
            Manager.initialized := true |}, d1.
  split.
  { unfold Manager.rebuildIndex, Manager.bindM, Manager.requireInitialized, Manager.onDb.
    rewrite Hi. unfold rebuildFtsIndex, bind, requireDb, setDb, setDirty, save.
    rewrite Hd. cbn [Manager.this_db db dirty file]. now rewrite Hi. }
  split; [reflexivity|]. split; [reflexivity|]. split; [reflexivity|].
  split.
  { intros rowid text. unfold d1. cbn [memories_fts]. rewrite in_map_iff. split.
    - intros ([k m] & E & Hin). unfold ftsEntry in E. simpl in E. injection E as -> <-.
      now exists m.
    - intros (m & Hin & <-). now exists (rowid, m). }
  split; [apply length_map|].
  split.
  { intros U N D. constructor; [exact U | exact N | reflexivity | exact D]. }
  reflexivity.
Qed.

(** A database whose text index has lost the entry of its row. *)
Definition brokenIndexManager : Manager.MemoryManager :=
  {| Manager.this_db :=
       {| db := Some {| memories := sampleRows; memories_fts := [(7%Z, "stale"%string)] |};
          dirty := false;
          file := Some {| memories := sampleRows; memories_fts := [(7%Z, "stale"%string)] |} |};
     Manager.initialized := true |}.

Lemma manager_rebuildIndex_repairs_witness :
  exists mgr1 d1,
    Manager.rebuildIndex brokenIndexManager = (Manager.Return tt, mgr1)
    /\ file (Manager.this_db mgr1) = Some d1
    /\ memories d1 = sampleRows
    /\ In (1%Z, "Alex prefers dark mode"%string) (memories_fts d1)
    /\ List.length (memories_fts d1) = 1%nat.
Proof.
  destruct (manager_rebuildIndex_repairs brokenIndexManager
              {| memories := sampleRows; memories_fts := [(7%Z, "stale"%string)] |}
              eq_refl eq_refl) as (mgr1 & d1 & H1 & H2 & _ & H3 & H4 & H5 & _).
  exists mgr1, d1. split; [exact H1|]. split; [now rewrite H2|]. split; [exact H3|].
  split; [|exact H5].
  apply H4. exists (record "m1" "Alex prefers dark mode" (Some [1])).
  split; [now left | reflexivity].
Defined.
